(** * Grocery-list parser of the voice / chat ordering front end

    Shallow embedding of the two [parseMultipleItems] routines of the
    customer front end:

    - the voice assistant, [src/components/AudioAssistant.tsx]
      ([handleVoiceCommand] and its local [parseMultipleItems]);
    - the chat input of the customer page ([handleChatSubmit] and its
      local [parseMultipleItems]).

    Around them: the suggestions of the assistant ([SUGGESTION_MAP],
    [addSuggested]), the cart updates and the product list of the
    customer page ([addToCart], [bulkAddToCart], [removeFromCart],
    [getCartItemCount], [filteredProducts]), and the relative times of
    the date utilities ([toIST], [formatIST.relative]).

    Modelling conventions.

    - A JavaScript string is a [string]; its characters are the code
      units U+0000 .. U+00FF (one [ascii] each).  On that range
      [toLowerCase], [\s], [\d], [\w], [\b] and [trim] are given below in
      full.
    - A score is a [nat].  A quantity is a [number]: a non-negative
      integer that a double holds, or [Infinity]; reading a numeral and
      adding quantities round as doubles do, which is exact below 2^53.
      A product id is an integer that a double holds, written as a [Z];
      the chat parser uses it as a property key and reads it back with
      [parseInt], which gives the id back below 10^21.  The cart of the
      customer page holds integers.
    - [new Set(...)] is a duplicate-free list in insertion order.
    - Speech output is not part of the model, and of the toasts only
      the list of unavailable fragments of the chat handler is; a
      handler returns the cart action it performs. *)

From Equations Require Import Equations.
From Stdlib Require Import String Ascii List Bool Arith ZArith Lia Permutation.
From Stdlib Require Import DecimalString.
Import ListNotations.
Open Scope string_scope.
Open Scope list_scope.
Open Scope nat_scope.

(** ** Characters *)

Module Char.

Definition code (c : ascii) : nat := nat_of_ascii c.

Definition between (lo hi : nat) (c : ascii) : bool :=
  (lo <=? code c) && (code c <=? hi).

(** [[a-z]] *)
Definition is_lower (c : ascii) : bool := between 97 122 c.
(** [[A-Z]] *)
Definition is_upper (c : ascii) : bool := between 65 90 c.
(** [\d] *)
Definition is_digit (c : ascii) : bool := between 48 57 c.
(** [\s]: TAB, LF, VT, FF, CR, SPACE and NO-BREAK SPACE. *)
Definition is_space (c : ascii) : bool :=
  between 9 13 c || (code c =? 32) || (code c =? 160).
(** [\w] *)
Definition is_word (c : ascii) : bool :=
  is_lower c || is_upper c || is_digit c || (code c =? 95).

(** [String.prototype.toLowerCase] on one code unit: the ASCII capitals
    and the Latin-1 capitals U+00C0 .. U+00DE (but not the
    multiplication sign U+00D7) move up by 32. *)
Definition toLowerCase (c : ascii) : ascii :=
  if is_upper c || between 192 214 c || between 216 222 c
  then ascii_of_nat (code c + 32)
  else c.

(** Equality of two characters under the [i] flag of a regular
    expression whose pattern character [p] is a lower-case ASCII letter. *)
Definition eqb_nocase (p c : ascii) : bool :=
  Ascii.eqb p c || (is_upper c && Ascii.eqb p (toLowerCase c)).

End Char.

(** ** Strings *)

Module Str.

Fixpoint map (f : ascii -> ascii) (s : string) : string :=
  match s with
  | EmptyString => EmptyString
  | String c r => String (f c) (map f r)
  end.

Fixpoint forallb (f : ascii -> bool) (s : string) : bool :=
  match s with
  | EmptyString => true
  | String c r => f c && forallb f r
  end.

Fixpoint existsb (f : ascii -> bool) (s : string) : bool :=
  match s with
  | EmptyString => false
  | String c r => f c || existsb f r
  end.

(** Truthiness of a string: non-empty. *)
Definition nonempty (s : string) : bool :=
  match s with EmptyString => false | String _ _ => true end.

Fixpoint take (n : nat) (s : string) : string :=
  match n, s with
  | S k, String c r => String c (take k r)
  | _, _ => EmptyString
  end.

Fixpoint drop (n : nat) (s : string) : string :=
  match n, s with
  | S k, String _ r => drop k r
  | _, _ => s
  end.

(** Longest prefix of characters satisfying [f], and what follows it. *)
Fixpoint takeWhile (f : ascii -> bool) (s : string) : string :=
  match s with
  | String c r => if f c then String c (takeWhile f r) else EmptyString
  | EmptyString => EmptyString
  end.

Fixpoint dropWhile (f : ascii -> bool) (s : string) : string :=
  match s with
  | String c r => if f c then dropWhile f r else s
  | EmptyString => EmptyString
  end.

(** Last character of [s], or [d] when [s] is empty. *)
Fixpoint last (d : option ascii) (s : string) : option ascii :=
  match s with
  | EmptyString => d
  | String c r => last (Some c) r
  end.

(** First character, if any. *)
Definition head (s : string) : option ascii :=
  match s with EmptyString => None | String c _ => Some c end.

Definition toLowerCase (s : string) : string := map Char.toLowerCase s.

(** [s.startsWith(p)] *)
Fixpoint startsWith (p s : string) : bool :=
  match p, s with
  | EmptyString, _ => true
  | String a p', String b s' => Ascii.eqb a b && startsWith p' s'
  | String _ _, EmptyString => false
  end.

(** [s] starts with the lower-case word [p], letter case ignored. *)
Fixpoint startsWith_nocase (p s : string) : bool :=
  match p, s with
  | EmptyString, _ => true
  | String a p', String b s' => Char.eqb_nocase a b && startsWith_nocase p' s'
  | String _ _, EmptyString => false
  end.

(** [s.endsWith(p)] *)
Definition endsWith (p s : string) : bool :=
  (String.length p <=? String.length s)
  && String.eqb (drop (String.length s - String.length p) s) p.

(** [s.slice(0, -k)] *)
Definition slice_end (k : nat) (s : string) : string :=
  take (String.length s - k) s.

(** [s.trim()] *)
Definition trimStart (s : string) : string := dropWhile Char.is_space s.

Fixpoint trimEnd (s : string) : string :=
  match s with
  | EmptyString => EmptyString
  | String c r =>
      match trimEnd r with
      | EmptyString => if Char.is_space c then EmptyString else String c EmptyString
      | t => String c t
      end
  end.

Definition trim (s : string) : string := trimEnd (trimStart s).

(** Put a character in front of the first piece of a split. *)
Definition cons_head (c : ascii) (l : list string) : list string :=
  match l with
  | h :: t => String c h :: t
  | [] => [String c EmptyString]
  end.

(** [s.split(/\s+/)]: the pieces between the maximal runs of white
    space; a leading or trailing run leaves an empty piece at that end,
    and the empty string gives one empty piece. *)
Fixpoint split_spaces (s : string) : list string :=
  match s with
  | EmptyString => [EmptyString]
  | String c r =>
      if Char.is_space c then
        match r with
        | String c' _ => if Char.is_space c' then split_spaces r
                         else EmptyString :: split_spaces r
        | EmptyString => EmptyString :: split_spaces r
        end
      else cons_head c (split_spaces r)
  end.

End Str.

(** ** [split]

    [String.prototype.split] with a separator that never matches the
    empty string.  The matcher [m prev s] says whether the separator
    matches at the start of [s], the character before [s] being [prev],
    and if so how many characters the match takes.  The scan follows the
    library algorithm: try the separator at the current position; on a
    match close the current piece and resume after the match; otherwise
    the character joins the current piece.  The text after the last
    match is the last piece, so the empty string splits into one empty
    piece. *)

Section Split.

Variable m : option ascii -> string -> option nat.

Equations? split_by (prev : option ascii) (s : string) : list string
  by wf (String.length s) lt :=
  split_by prev EmptyString := [EmptyString];
  split_by prev (String c r) with m prev (String c r) := {
    | Some (S n) :=
        EmptyString :: split_by (Str.last (Some c) (Str.take n r)) (Str.drop n r);
    | _ := Str.cons_head c (split_by (Some c) r) }.
Proof.
  simpl. apply Nat.lt_succ_r. clear.
  revert r; induction n as [|n IH]; intros [|x r]; simpl; auto.
Qed.

Definition split (s : string) : list string := split_by None s.

End Split.

(** ** Regular expressions of the parsers *)

Module Re.

Definition is_word_opt (c : option ascii) : bool :=
  match c with Some c => Char.is_word c | None => false end.

(** [\b] between the character [prev] before the position and the
    character [next] at it (either may be an end of the input). *)
Definition word_boundary (prev next : option ascii) : bool :=
  xorb (is_word_opt prev) (is_word_opt next).

(** A literal symbol at the start of [s]. *)
Definition symbol (p : ascii) (s : string) : option nat :=
  match s with
  | String c _ => if Ascii.eqb p c then Some 1 else None
  | EmptyString => None
  end.

(** [\bw\b] under the [i] flag, for a lower-case word [w]. *)
Definition word (w : string) (prev : option ascii) (s : string) : option nat :=
  let n := String.length w in
  if word_boundary prev (Str.head s)
     && Str.startsWith_nocase w s
     && word_boundary (Str.last prev (Str.take n s)) (Str.head (Str.drop n s))
  then Some n else None.

Definition orelse (a b : option nat) : option nat :=
  match a with Some n => Some n | None => b end.

(** [(?:,|\band\b|&|\+|\bplus\b|\bwith\b)], alternatives tried in the
    order written. *)
Definition separator (prev : option ascii) (s : string) : option nat :=
  orelse (symbol "," s)
  (orelse (word "and" prev s)
  (orelse (symbol "&" s)
  (orelse (symbol "+" s)
  (orelse (word "plus" prev s)
          (word "with" prev s))))).

(** [/\s*(?:,|\band\b|&|\+|\bplus\b|\bwith\b)\s*/i] at the start of [s].
    The leading [\s*] takes the whole run of white space; giving some
    of it back cannot help because no alternative starts with a white
    space character.  The trailing [\s*] takes the whole run that
    follows the separator. *)
Definition chat_separator (prev : option ascii) (s : string) : option nat :=
  let lead := Str.takeWhile Char.is_space s in
  let s1 := Str.dropWhile Char.is_space s in
  match separator (Str.last prev lead) s1 with
  | Some n =>
      Some (String.length lead + n
            + String.length (Str.takeWhile Char.is_space (Str.drop n s1)))
  | None => None
  end.

(** A literal separator string, as in [part.split(' and ')]. *)
Definition literal (sep : string) (prev : option ascii) (s : string) : option nat :=
  if Str.startsWith sep s then Some (String.length sep) else None.

(** [s.match(/(\d+)/)]: capture group 1 of the first match: the first
    maximal run of digits. *)
Fixpoint match_digits (s : string) : option string :=
  match s with
  | EmptyString => None
  | String c r =>
      if Char.is_digit c then Some (Str.takeWhile Char.is_digit s)
      else match_digits r
  end.

Definition starts_with_space (s : string) : bool :=
  match s with String c _ => Char.is_space c | EmptyString => false end.

(** [s.match(/(\d+)\s+/)]: capture group 1 of the first match.  At a
    position holding a digit, [\d+] takes the whole run of digits and
    [\s+] needs a white space character right after it (a shorter run
    would leave a digit there); otherwise the next position is tried. *)
Fixpoint match_digits_space (s : string) : option string :=
  match s with
  | EmptyString => None
  | String c r =>
      if Char.is_digit c
         && starts_with_space (Str.dropWhile Char.is_digit s)
      then Some (Str.takeWhile Char.is_digit s)
      else match_digits_space r
  end.

End Re.

(** [/^\d+$/.test(s)] *)
Definition all_digits (s : string) : bool :=
  Str.nonempty s && Str.forallb Char.is_digit s.

(** ** Numbers

    The numbers that the parsers compute are non-negative integers or
    [Infinity]: a numeral is read by [parseInt] and quantities are
    added with [+].  A JavaScript number is a double.  An integer below
    2^53 is kept as it is; a larger one becomes the nearest integer that
    a double holds (53 significant bits, a tie going to the even
    significand), and [Infinity] when that is 2^1024 or more. *)

Inductive number :=
| Fin (n : Z)
| Infinity.

Bind Scope Z_scope with number.

Coercion Fin : Z >-> number.

Module Number.

(** The number that holds the non-negative integer [n]. *)
Definition round (n : Z) : number :=
  if (n <? 2 ^ 53)%Z then Fin n
  else
    let e := (Z.log2 n - 52)%Z in
    let q := Z.shiftr n e in
    let r := (n - Z.shiftl q e)%Z in
    let half := Z.shiftl 1 (e - 1) in
    let q' :=
      if (r <? half)%Z then q
      else if (half <? r)%Z then (q + 1)%Z
      else if Z.even q then q else (q + 1)%Z in
    let v := Z.shiftl q' e in
    if (v <? 2 ^ 1024)%Z then Fin v else Infinity.

(** [a + b] *)
Definition add (a b : number) : number :=
  match a, b with
  | Fin x, Fin y => round (x + y)
  | _, _ => Infinity
  end.

(** [a < n] *)
Definition ltb (a : number) (n : Z) : bool :=
  match a with
  | Fin x => (x <? n)%Z
  | Infinity => false
  end.

Definition eqb (a b : number) : bool :=
  match a, b with
  | Fin x, Fin y => Z.eqb x y
  | Infinity, Infinity => true
  | _, _ => false
  end.

End Number.

(** The decimal value of the leading digits of [s]. *)
Fixpoint decimal_from (acc : Z) (s : string) : Z :=
  match s with
  | String c r =>
      if Char.is_digit c
      then decimal_from (10 * acc + Z.of_nat (Char.code c - 48)) r
      else acc
  | EmptyString => acc
  end.

Definition decimal (s : string) : Z := decimal_from 0 s.

(** [parseInt(s)] for the captures of [(\d+)]: the number that holds the
    decimal value of the digits. *)
Definition parseInt (s : string) : number := Number.round (decimal s).

(** ** [Set] of strings: a duplicate-free list in insertion order *)

Module JSet.

Definition t := list string.

Definition has (x : string) (s : t) : bool := List.existsb (String.eqb x) s.

Definition add (s : t) (x : string) : t := if has x s then s else s ++ [x].

(** [new Set(l)] *)
Definition of_list (l : list string) : t := fold_left add l [].

Definition delete (x : string) (s : t) : t :=
  filter (fun y => negb (String.eqb x y)) s.

Definition size (s : t) : nat := List.length s.

End JSet.

(** ** [Array.prototype.sort] with a comparator

    The sort is stable: elements that compare equal keep their order.
    [cmp a b > 0] puts [a] after [b]. *)

Section Sort.

Context {A : Type} (cmp : A -> A -> Z).

Fixpoint insert (x : A) (l : list A) : list A :=
  match l with
  | [] => [x]
  | y :: t => if (0 <? cmp x y)%Z then y :: insert x t else x :: l
  end.

Fixpoint sort (l : list A) : list A :=
  match l with
  | [] => []
  | x :: t => insert x (sort t)
  end.

End Sort.

(** ** Catalog and parser results *)

(** A catalog entry.  The parsers read [id], [name] and [category]; the
    other fields of the front end's [Product] ([price], [unit], [stock],
    [image]) are never looked at. *)
Record Product := { id : Z; name : string; category : string }.

(** One scored catalog entry, [{ productId, score }]. *)
Record Scored := { s_productId : Z; score : nat }.

(** The comparator [(a, b) => b.score - a.score]. *)
Definition by_score_desc (a b : Scored) : Z :=
  (Z.of_nat (score b) - Z.of_nat (score a))%Z.

(** The tables that both call sites declare with the same contents. *)

Definition STOP_WORDS : list string :=
  ["fresh"; "organic"; "whole"; "sweet"; "some"; "add"; "get"; "need"; "want";
   "please"; "a"; "an"; "the"; "and"; "kg"; "dozen"; "cup"; "cups"; "litre";
   "liter"; "per"].

Definition singularize (w : string) : string :=
  if Str.endsWith "ies" w then (Str.slice_end 3 w ++ "y")%string
  else if Str.endsWith "es" w then Str.slice_end 2 w
  else if Str.endsWith "s" w && (3 <? String.length w) then Str.slice_end 1 w
  else w.

(** [text.toLowerCase().replace(re, ' ').split(/\s+/).map(singularize)
    .filter(t => t && !STOP_WORDS.has(t))], where [re] replaces every
    character that [keep] rejects. *)
Definition tokenize_keeping (keep : ascii -> bool) (text : string) : list string :=
  filter (fun t => Str.nonempty t && negb (JSet.has t STOP_WORDS))
    (List.map singularize
       (Str.split_spaces
          (Str.map (fun c => if keep c then c else " "%char)
             (Str.toLowerCase text)))).

(** Token-overlap score of one catalog name against the tokens of a
    fragment: [nameTokens.forEach(t => { if (partTokens.has(t)) score += 1 })]. *)
Definition overlap (nameTokens partTokens : JSet.t) : nat :=
  List.length (filter (fun t => JSet.has t partTokens) nameTokens).

(** [scored.sort((a, b) => b.score - a.score)[0]] *)
Definition best_of (scored : list Scored) : option Scored :=
  List.hd_error (sort by_score_desc scored).

(** ** The voice assistant: [handleVoiceCommand] *)

Module Voice.

Record ParsedItem := { productId : Z; quantity : number }.

(** [.replace(/[^a-z\s]/g, ' ')] *)
Definition keep (c : ascii) : bool := Char.is_lower c || Char.is_space c.

Definition tokenize (text : string) : list string := tokenize_keeping keep text.

Definition separators : list string := [" and "; ", "; " plus "; " with "].

(** The two nested loops over [separators] and [parts]. *)
Definition split_parts (command : string) : list string :=
  fold_left
    (fun parts sep => flat_map (split (Re.literal sep)) parts)
    separators [command].

Definition quantityWords : list string :=
  ["one"; "two"; "three"; "four"; "five"; "six"; "seven"; "eight"; "nine"; "ten"].

(** [quantityMap[word]]; [None] is [undefined].  Every entry of
    [quantityWords] is a key. *)
Definition quantityMap (word : string) : option Z :=
  if String.eqb word "one" then Some 1%Z
  else if String.eqb word "two" then Some 2%Z
  else if String.eqb word "three" then Some 3%Z
  else if String.eqb word "four" then Some 4%Z
  else if String.eqb word "five" then Some 5%Z
  else if String.eqb word "six" then Some 6%Z
  else if String.eqb word "seven" then Some 7%Z
  else if String.eqb word "eight" then Some 8%Z
  else if String.eqb word "nine" then Some 9%Z
  else if String.eqb word "ten" then Some 10%Z
  else None.

(** [for (const word of quantityWords) if (partTokens.has(word)) { ...; break }] *)
Definition word_quantity (partTokens : JSet.t) : option Z :=
  match find (fun word => JSet.has word partTokens) quantityWords with
  | Some word => quantityMap word
  | None => None
  end.

Definition detect_quantity (trimmedPart : string) (partTokens : JSet.t) : number :=
  match Re.match_digits_space trimmedPart with
  | Some digits => parseInt digits
  | None =>
      match word_quantity partTokens with
      | Some q => Fin q
      | None => Fin 1
      end
  end.

(** [partTokens] after the quantity words and the numeric tokens have
    been deleted from it. *)
Definition product_tokens (partTokens : JSet.t) : JSet.t :=
  let without_words :=
    fold_left (fun s word => JSet.delete word s) quantityWords partTokens in
  let numericTokens := filter all_digits without_words in
  fold_left (fun s token => JSet.delete token s) numericTokens without_words.

Definition score_products (products : list Product) (partTokens : JSet.t)
  : list Scored :=
  List.map
    (fun p =>
       {| s_productId := id p;
          score := overlap (JSet.of_list (tokenize (name p))) partTokens |})
    products.

(** What one non-empty trimmed part contributes. *)
Definition parse_part (products : list Product) (trimmedPart : string)
  : option ParsedItem :=
  let partTokens := JSet.of_list (tokenize trimmedPart) in
  let quantity := detect_quantity trimmedPart partTokens in
  let partTokens := product_tokens partTokens in
  match best_of (score_products products partTokens) with
  | Some best =>
      if 0 <? score best
      then Some {| productId := s_productId best; quantity := quantity |}
      else None
  | None => None
  end.

(** Body of [for (const part of parts)]: the items so far, then the
    [items.push] of this part if it has one. *)
Definition parse_step (products : list Product)
  (items : list ParsedItem) (part : string) : list ParsedItem :=
  let trimmedPart := Str.trim part in
  if Str.nonempty trimmedPart then
    match parse_part products trimmedPart with
    | Some item => items ++ [item]
    | None => items
    end
  else items.

Definition parseMultipleItems (products : list Product) (command : string)
  : list ParsedItem :=
  fold_left (parse_step products) (split_parts command) [].

(** The cart call that [handleVoiceCommand] ends with.  [BulkAdd items]
    is [onBulkAddToCart(items)]; [AddToCart i] is [onAddToCart(i)], which
    adds one unit of product [i]; [NotFound] is the "not available"
    answer, with no cart call. *)
Inductive action :=
| BulkAdd (items : list ParsedItem)
| AddToCart (productId : Z)
| NotFound.

Definition categoryIntent : list string :=
  ["vegetable"; "fruit"; "dairy"; "staple"; "rice"; "flour"; "milk"; "yogurt";
   "banana"; "apple"; "tomato"; "spinach"].

(** [categoryMap], in key order. *)
Definition categoryMap : list (string * string) :=
  [("vegetable", "vegetables"); ("fruit", "fruits"); ("dairy", "dairy");
   ("staple", "staples")].

(** The [else if (hasCategoryOnlyIntent)] branch. *)
Definition category_fallback (products : list Product) (queryTokens : JSet.t)
  : action :=
  match find (fun kv => JSet.has (fst kv) queryTokens) categoryMap with
  | Some (targetCat, catKey) =>
      match find (fun p => String.eqb (Str.toLowerCase (category p)) catKey)
                 products with
      | Some prod => AddToCart (id prod)
      | None => NotFound
      end
  | None => NotFound
  end.

Definition handleVoiceCommand (products : list Product) (command : string)
  : action :=
  let lowerCommand := Str.toLowerCase command in
  let queryTokens := JSet.of_list (tokenize lowerCommand) in
  let multipleItems := firstn 15 (parseMultipleItems products command) in
  match multipleItems with
  | _ :: _ => BulkAdd multipleItems
  | [] =>
      let hasCategoryOnlyIntent :=
        List.existsb (fun c => JSet.has c queryTokens) categoryIntent
        && (JSet.size queryTokens <=? 2) in
      let scored := score_products products queryTokens in
      match best_of scored with
      | Some best =>
          if 0 <? score best then
            match find (fun p => Z.eqb (id p) (s_productId best)) products with
            | Some prod => AddToCart (id prod)
            | None => NotFound
            end
          else if hasCategoryOnlyIntent
               then category_fallback products queryTokens
               else NotFound
      | None =>
          if hasCategoryOnlyIntent
          then category_fallback products queryTokens
          else NotFound
      end
  end.

End Voice.

(** ** The chat input: [parseMultipleItems] of [handleChatSubmit] *)

Module Chat.

(** The values a quantity can take at run time.  [quantityMap] is an
    object literal, so [quantityMap[t]] also finds what the literal
    inherits from [Object.prototype]; the only inherited name that a
    token (lower-case letters and digits) can spell is [constructor],
    whose value is the function [Object].  Adding a function to a number
    gives a string. *)
Inductive value :=
| Num (n : number)
| ObjectFn
| Text.

Record ParsedItem := { productId : Z; quantity : value }.

Record Parsed := { items : list ParsedItem; unavailable : list string }.

(** [.replace(/[^a-z\s\d]/g, ' ')] *)
Definition keep (c : ascii) : bool :=
  Char.is_lower c || Char.is_space c || Char.is_digit c.

Definition tokenize (text : string) : list string := tokenize_keeping keep text.

(** [input.split(/\s*(?:,|\band\b|&|\+|\bplus\b|\bwith\b)\s*/i)
    .map(p => p.trim()).filter(Boolean)] *)
Definition split_parts (input : string) : list string :=
  filter Str.nonempty (List.map Str.trim (split Re.chat_separator input)).

(** [quantityMap[t]]; [None] is [undefined]. *)
Definition quantityMap (t : string) : option value :=
  if String.eqb t "one" then Some (Num 1)
  else if String.eqb t "two" then Some (Num 2)
  else if String.eqb t "three" then Some (Num 3)
  else if String.eqb t "four" then Some (Num 4)
  else if String.eqb t "five" then Some (Num 5)
  else if String.eqb t "six" then Some (Num 6)
  else if String.eqb t "seven" then Some (Num 7)
  else if String.eqb t "eight" then Some (Num 8)
  else if String.eqb t "nine" then Some (Num 9)
  else if String.eqb t "ten" then Some (Num 10)
  else if String.eqb t "eleven" then Some (Num 11)
  else if String.eqb t "twelve" then Some (Num 12)
  else if String.eqb t "constructor" then Some ObjectFn
  else None.

(** [for (const t of tokens) if (quantityMap[t] !== undefined) { ...; break }] *)
Fixpoint word_quantity (tokens : list string) : option value :=
  match tokens with
  | [] => None
  | t :: rest =>
      match quantityMap t with
      | Some v => Some v
      | None => word_quantity rest
      end
  end.

(** [quantity < 1]; a function converts to [NaN], which is below nothing. *)
Definition below_one (v : value) : bool :=
  match v with
  | Num n => Number.ltb n 1
  | _ => false
  end.

Definition detect_quantity (part : string) : value :=
  let quantity :=
    match Re.match_digits part with
    | Some digits => Num (parseInt digits)
    | None =>
        match word_quantity (tokenize part) with
        | Some v => v
        | None => Num 1
        end
    end in
  if below_one quantity then Num 1 else quantity.

Definition quantity_words : list string :=
  ["one"; "two"; "three"; "four"; "five"; "six"; "seven"; "eight"; "nine";
   "ten"; "eleven"; "twelve"].

Definition product_tokens (part : string) : JSet.t :=
  fold_left (fun s q => JSet.delete q s) quantity_words
    (JSet.of_list (filter (fun t => negb (all_digits t)) (tokenize part))).

Definition score_products (products : list Product) (partTokens : JSet.t)
  : list Scored :=
  List.map
    (fun p =>
       {| s_productId := id p;
          score := overlap (JSet.of_list (tokenize (name p))) partTokens |})
    products.

(** [aggregated: Record<number, number>]: the own properties in creation
    order.  A key is [String(id)] for a product id; different ids have
    different keys, and a key is written here as its id. *)
Definition record := list (Z * value).

Fixpoint get (r : record) (k : Z) : option value :=
  match r with
  | [] => None
  | (k', v) :: rest => if Z.eqb k k' then Some v else get rest k
  end.

(** Assignment keeps the place of an existing property and appends a
    new one. *)
Fixpoint set (r : record) (k : Z) (v : value) : record :=
  match r with
  | [] => [(k, v)]
  | (k', v') :: rest =>
      if Z.eqb k k' then (k, v) :: rest else (k', v') :: set rest k v
  end.

(** [x || 0] for a stored value: [undefined] and [0] give [0], every
    other stored value is truthy. *)
Definition or_zero (x : option value) : value :=
  match x with
  | None => Num 0
  | Some v => v
  end.

(** [+] *)
Definition plus (a b : value) : value :=
  match a, b with
  | Num x, Num y => Num (Number.add x y)
  | _, _ => Text
  end.

(** Keys that are array indices: the integers from 0 to 2^32 - 2. *)
Definition is_index (k : Z) : bool := (0 <=? k)%Z && (k <? 4294967295)%Z.

(** [Object.entries]: first the array-index keys in ascending order,
    then the other keys in creation order. *)
Definition entries (r : record) : list (Z * value) :=
  sort (fun a b => (fst a - fst b)%Z) (filter (fun kv => is_index (fst kv)) r)
  ++ filter (fun kv => negb (is_index (fst kv))) r.

(** Body of [parts.forEach(part => ...)] on the pair of [aggregated] and
    [unavailable]. *)
Definition parse_step (products : list Product)
  (st : record * list string) (part : string) : record * list string :=
  let (aggregated, unavailable) := st in
  let quantity := detect_quantity part in
  let partTokens := product_tokens part in
  match best_of (score_products products partTokens) with
  | Some best =>
      if 0 <? score best
      then (set aggregated (s_productId best)
              (plus (or_zero (get aggregated (s_productId best))) quantity),
            unavailable)
      else (aggregated, unavailable ++ [part])
  | None => (aggregated, unavailable ++ [part])
  end.

(** [parseInt(pid)] of the key [pid = String(k)] of a product id [k], an
    integer that a number holds.  Below 10^21 in absolute value the key
    is a decimal numeral, which reads back as [k].  From 10^21 on the
    key is in exponent notation, [d.ddde+N], written with the fewest
    digits that still give [k] back, and [parseInt] stops at the point:
    it returns the first digit, with the sign. *)
Fixpoint leading_digit (fuel : nat) (n : Z) : Z :=
  match fuel with
  | O => n
  | S fuel' => if (n <? 10)%Z then n else leading_digit fuel' (n / 10)
  end.

(** The decimal with the fewest significant digits that the number [x]
    is the nearest number to: the search goes from the coarsest power
    of ten down, looking at the two multiples of the power around [x]. *)
Fixpoint shortest (x : Z) (m : nat) : Z :=
  let p := (10 ^ Z.of_nat m)%Z in
  let lo := (x / p * p)%Z in
  let hi := (lo + p)%Z in
  let ok c := (0 <? c)%Z && Number.eqb (Number.round c) (Fin x) in
  if ok lo && ok hi then (if (x - lo <=? hi - x)%Z then lo else hi)
  else if ok lo then lo
  else if ok hi then hi
  else match m with
       | O => x
       | S m' => shortest x m'
       end.

Definition key_id (k : Z) : Z :=
  if (Z.abs k <? 10 ^ 21)%Z then k
  else
    let x := Z.abs k in
    let m := S (Z.to_nat (Z.log2 x)) in
    (Z.sgn k * leading_digit m (shortest x m))%Z.

(** [([pid, qty]) => ({ productId: parseInt(pid), quantity: qty })] *)
Definition to_item (kv : Z * value) : ParsedItem :=
  {| productId := key_id (fst kv); quantity := snd kv |}.

Definition parseMultipleItems (products : list Product) (input : string)
  : Parsed :=
  let (aggregated, unavailable) :=
    fold_left (parse_step products) (split_parts input) ([], []) in
  {| items := firstn 15 (List.map to_item (entries aggregated));
     unavailable := unavailable |}.

End Chat.

(** ** The rules as the specification words them

    These definitions follow the prose of the specification, not the
    code; the theorems below compare the code with them. *)

Module Spec.

(** Tokenization: lowercase; replace every character outside
    [[a-z0-9\s]] with a space; split on white-space runs; drop empty
    tokens; singularize; remove the stop words. *)
Definition keep (c : ascii) : bool :=
  Char.is_lower c || Char.is_digit c || Char.is_space c.

Definition tokenize_with (keep : ascii -> bool) (text : string) : list string :=
  filter (fun t => negb (JSet.has t STOP_WORDS))
    (List.map singularize
       (filter Str.nonempty
          (Str.split_spaces
             (Str.map (fun c => if keep c then c else " "%char)
                (Str.toLowerCase text))))).

Definition tokenize (text : string) : list string := tokenize_with keep text.

(** Segmentation: split on comma, the word "and", "&", "+", "plus" and
    "with", letter case ignored; white space around a separator does not
    count; fragments are trimmed and the empty ones discarded. *)
Definition segments (utterance : string) : list string :=
  filter Str.nonempty (List.map Str.trim (split Re.separator utterance)).

(** Selection: the product with the strictly highest score, found by
    going through the catalog in order and changing the choice only for
    a strictly higher score, so that a tie goes to the product met
    first; no product when the highest score is 0. *)
Definition better (f : Product -> nat) (best : option Product) (p : Product)
  : option Product :=
  match best with
  | Some b => if f b <? f p then Some p else Some b
  | None => Some p
  end.

Definition select (f : Product -> nat) (products : list Product) : option Product :=
  match fold_left (better f) products None with
  | Some p => if 0 <? f p then Some p else None
  | None => None
  end.

(** Quantity: the first standalone integer literal of the fragment;
    else the first token that is a number word from one to twelve; else 1. *)
Definition number_words : list (string * Z) :=
  [("one", 1); ("two", 2); ("three", 3); ("four", 4); ("five", 5); ("six", 6);
   ("seven", 7); ("eight", 8); ("nine", 9); ("ten", 10); ("eleven", 11);
   ("twelve", 12)]%Z.

Definition number_of_word (t : string) : option Z :=
  option_map snd (find (fun kv => String.eqb t (fst kv)) number_words).

Definition first_integer (fragment : string) : option Z :=
  option_map decimal (find all_digits (Str.split_spaces fragment)).

Fixpoint first_number_word (tokens : list string) : option Z :=
  match tokens with
  | [] => None
  | t :: rest =>
      match number_of_word t with
      | Some n => Some n
      | None => first_number_word rest
      end
  end.

Definition quantity (fragment : string) : Z :=
  match first_integer fragment with
  | Some n => n
  | None =>
      match first_number_word (tokenize fragment) with
      | Some n => n
      | None => 1%Z
      end
  end.

End Spec.

(** ** Catalogs of the examples *)

(** [[{id:1, name:"Fresh Tomatoes"}, {id:3, name:"Sweet Bananas"}]],
    whatever the categories. *)
Definition tomatoes_bananas (c1 c3 : string) : list Product :=
  [ {| id := 1; name := "Fresh Tomatoes"; category := c1 |};
    {| id := 3; name := "Sweet Bananas"; category := c3 |} ].

(** A catalog whose only product is named "Apples". *)
Definition only_apples (i : Z) (c : string) : list Product :=
  [ {| id := i; name := "Apples"; category := c |} ].

(** One vegetable, named "Spinach". *)
Definition one_vegetable : list Product :=
  [ {| id := 1; name := "Spinach"; category := "vegetables" |} ].

(** A product whose name holds the word "with". *)
Definition tea_with_milk : list Product :=
  [ {| id := 1; name := "Tea with Milk"; category := "dairy" |} ].

(** ** Vocabulary of the statements *)

(** [b] is the first entry of [l] with the highest score. *)
Definition first_highest (b : Scored) (l : list Scored) : Prop :=
  exists before after,
    l = before ++ b :: after
    /\ Forall (fun x => score x < score b) before
    /\ Forall (fun x => score x <= score b) after.

(** [p] is the first product of the catalog with the highest value of
    [f]: every product before it has a strictly lower value, none after
    it a higher one. *)
Definition first_best (f : Product -> nat) (p : Product)
  (products : list Product) : Prop :=
  exists before after,
    products = before ++ p :: after
    /\ Forall (fun x => f x < f p) before
    /\ Forall (fun x => f x <= f p) after.

(** Score of a catalog entry against a fragment, in each parser. *)
Definition voice_score (part : string) (p : Product) : nat :=
  overlap (JSet.of_list (Voice.tokenize (name p)))
    (Voice.product_tokens (JSet.of_list (Voice.tokenize part))).

Definition chat_score (part : string) (p : Product) : nat :=
  overlap (JSet.of_list (Chat.tokenize (name p))) (Chat.product_tokens part).

(** The non-empty trimmed parts that the voice parser looks at. *)
Definition voice_fragments (command : string) : list string :=
  filter Str.nonempty (List.map Str.trim (Voice.split_parts command)).

Definition option_list {A : Type} (o : option A) : list A :=
  match o with Some a => [a] | None => [] end.

(** The fragments that found a product in the chat parser, each with
    the product id and the quantity, in fragment order. *)
Definition chat_match (products : list Product) (part : string)
  : option (Z * Chat.value) :=
  match best_of (Chat.score_products products (Chat.product_tokens part)) with
  | Some best =>
      if 0 <? score best
      then Some (s_productId best, Chat.detect_quantity part)
      else None
  | None => None
  end.

Definition chat_matches (products : list Product) (parts : list string)
  : list (Z * Chat.value) :=
  flat_map (fun part => option_list (chat_match products part)) parts.

(** [aggregated] after the matches [ms], starting from [r]. *)
Definition aggregate (r : Chat.record) (ms : list (Z * Chat.value)) : Chat.record :=
  fold_left
    (fun r m => Chat.set r (fst m) (Chat.plus (Chat.or_zero (Chat.get r (fst m))) (snd m)))
    ms r.

(** Sum of quantities the way the code adds them up, from [0]. *)
Definition total (qs : list Chat.value) : Chat.value :=
  fold_left Chat.plus qs (Chat.Num 0).

(** The quantities matched to product [i]. *)
Definition quantities_for (i : Z) (ms : list (Z * Chat.value)) : list Chat.value :=
  List.map snd (filter (fun m => Z.eqb (fst m) i) ms).

(** The fragment holds a digit; its first maximal run of digits. *)
Definition has_digit (s : string) : bool := Str.existsb Char.is_digit s.

Definition first_digit_run (s : string) : string :=
  Str.takeWhile Char.is_digit
    (Str.dropWhile (fun c => negb (Char.is_digit c)) s).

Definition starts_with_digit (s : string) : bool :=
  match s with String c _ => Char.is_digit c | EmptyString => false end.

(** Trimmed, non-empty pieces of a split. *)
Definition normalize (pieces : list string) : list string :=
  filter Str.nonempty (List.map Str.trim pieces).

(** Put a string in front of the first piece of a split. *)
Definition prepend (w : string) (pieces : list string) : list string :=
  match pieces with
  | h :: t => (w ++ h)%string :: t
  | [] => [w]
  end.

(** Two splits that differ by white space only: the first pieces, still
    open to the left, differ by white space at their end, the other
    pieces agree once trimmed and the empty ones removed. *)
Definition same_fragments (l1 l2 : list string) : Prop :=
  exists h t1 t2 w,
    l1 = h :: t1 /\ l2 = (h ++ w)%string :: t2
    /\ Str.forallb Char.is_space w = true
    /\ normalize t1 = normalize t2.

(** [sep] occurs somewhere in [s]. *)
Fixpoint occurs (sep s : string) : bool :=
  Str.startsWith sep s
  || match s with
     | String _ r => occurs sep r
     | EmptyString => false
     end.



(** The separators of the claims. *)
Definition separator_symbols : list ascii := [","; "&"; "+"]%char.
Definition separator_words : list string := ["and"; "plus"; "with"].

(** An utterance made of separators and white space only, piece by
    piece: a white-space character, a separator symbol, or one of the
    separator words in any letter case.  Two words never touch (they
    would read as one longer word). *)
Inductive atom :=
| Blank (c : ascii)
| Symbol (c : ascii)
| Word (w : string).

Definition render_atom (a : atom) : string :=
  match a with
  | Blank c => String c EmptyString
  | Symbol c => String c EmptyString
  | Word w => w
  end.

Fixpoint render (atoms : list atom) : string :=
  match atoms with
  | [] => EmptyString
  | a :: rest => (render_atom a ++ render rest)%string
  end.

Definition atom_ok (a : atom) : bool :=
  match a with
  | Blank c => Char.is_space c
  | Symbol c => List.existsb (Ascii.eqb c) separator_symbols
  | Word w => List.existsb (String.eqb (Str.toLowerCase w)) separator_words
  end.

Definition starts_with_word (atoms : list atom) : bool :=
  match atoms with
  | Word _ :: _ => true
  | _ => false
  end.

Fixpoint words_apart (atoms : list atom) : bool :=
  match atoms with
  | [] => true
  | a :: rest =>
      negb (starts_with_word [a] && starts_with_word rest) && words_apart rest
  end.

Definition separators_only (atoms : list atom) : bool :=
  List.forallb atom_ok atoms && words_apart atoms.

(** No ASCII letter in the utterance. *)
Definition no_letter (s : string) : bool :=
  Str.forallb (fun c => negb (Char.is_lower c || Char.is_upper c)) s.

(** A quantity below 1 raised to 1. *)
Definition at_least_one (n : number) : number :=
  if Number.ltb n 1 then Fin 1 else n.

(** A product id below 10^21 in absolute value: its property key is a
    plain decimal numeral. *)
Definition plain_id (k : Z) : Prop := (Z.abs k < 10 ^ 21)%Z.

(** What the fragments select, in the words of the specification: for
    the voice parser the item of a fragment, for the chat parser its
    product id and quantity. *)
Definition voice_selected (products : list Product) (part : string)
  : list Voice.ParsedItem :=
  match Spec.select (voice_score part) products with
  | Some p =>
      [ {| Voice.productId := id p;
           Voice.quantity :=
             Voice.detect_quantity part (JSet.of_list (Voice.tokenize part)) |} ]
  | None => []
  end.

Definition chat_selected (products : list Product) (part : string)
  : list (Z * Chat.value) :=
  match Spec.select (chat_score part) products with
  | Some p => [(id p, Chat.detect_quantity part)]
  | None => []
  end.

Definition chat_unselected (products : list Product) (part : string) : bool :=
  match Spec.select (chat_score part) products with
  | Some _ => false
  | None => true
  end.

(** A quantity is in order when it is a number not below 1. *)
Definition chat_quantity_ok (v : Chat.value) : Prop :=
  match v with
  | Chat.Num (Fin n) => (1 <= n)%Z
  | Chat.Num Infinity => True
  | _ => False
  end.

(** ** The rest of the voice assistant component *)

Module Assistant.

(** [SUGGESTION_MAP], in key order. *)
Definition banana_labels : list string :=
  ["Kashmir Banana"; "Kerala Banana"; "Sweet Banana"].

Definition apple_labels : list string :=
  ["Kashmir Apple"; "Fuji Apple"; "Fresh Apples"].

Definition SUGGESTION_MAP : list (string * list string) :=
  [("banana", banana_labels); ("bananas", banana_labels);
   ("apple", apple_labels); ("apples", apple_labels)].

(** [recs] at the end of [handleVoiceCommand]:
    [Object.keys(SUGGESTION_MAP).forEach(key =>
       { if (lowerCommand.includes(key)) recs.push(...SUGGESTION_MAP[key]) })]. *)
Definition recommend (command : string) : list string :=
  let lowerCommand := Str.toLowerCase command in
  flat_map
    (fun kv => if occurs (fst kv) lowerCommand then snd kv else [])
    SUGGESTION_MAP.

(** The [recommendations] state after a command.  Only the path that
    finds nothing reaches [setRecommendations]; the three paths that
    add to the cart return before it. *)
Definition next_recommendations (products : list Product) (command : string)
  (recommendations : list string) : list string :=
  match Voice.handleVoiceCommand products command with
  | Voice.NotFound => recommend command
  | _ => recommendations
  end.

(** [s.split(' ')[0]]: the text before the first space. *)
Definition first_word (s : string) : string :=
  Str.takeWhile (fun c => negb (Ascii.eqb c " ")) s.

(** The predicate of [target] in [addSuggested]. *)
Definition suggestion_target (label : string) (p : Product) : bool :=
  occurs (first_word (Str.toLowerCase label)) (Str.toLowerCase (name p))
  || occurs (Str.toLowerCase (name p)) (Str.toLowerCase label).

(** [addSuggested(label)]: [Some i] is [onAddToCart(i)], [None] the
    "Not available" answer. *)
Definition addSuggested (products : list Product) (label : string) : option Z :=
  let target := find (suggestion_target label) products in
  let fallback :=
    find (fun p => occurs "banana" (Str.toLowerCase (name p))) products in
  match target with
  | Some prod => Some (id prod)
  | None =>
      match fallback with
      | Some prod => Some (id prod)
      | None => None
      end
  end.

(** [handleChatSubmit] of the assistant: the transcript, if there is
    one, goes before the typed text; [None] when the handler returns
    without a command. *)
Definition handleChatSubmit (products : list Product)
  (transcript chatInput : string) : option Voice.action :=
  let textToProcess := if Str.nonempty transcript then transcript else chatInput in
  if Str.nonempty (Str.trim textToProcess)
  then Some (Voice.handleVoiceCommand products textToProcess)
  else None.

End Assistant.

(** ** The rest of the customer page *)

Module Customer.

(** The category tabs. *)
Definition categories : list string :=
  ["All"; "Vegetables"; "Fruits"; "Dairy"; "Staples"].

(** [filteredProducts] *)
Definition filteredProducts (products : list Product)
  (selectedCategory searchTerm : string) : list Product :=
  filter
    (fun product =>
       let matchesCategory :=
         String.eqb selectedCategory "All"
         || String.eqb (category product) (Str.toLowerCase selectedCategory) in
       let matchesSearch :=
         occurs (Str.toLowerCase searchTerm) (Str.toLowerCase (name product)) in
       matchesCategory && matchesSearch)
    products.

(** The cart, [{[key: number]: number}]: product id and quantity, one
    entry per id. *)
Definition cart := list (Z * Z).

Fixpoint get (c : cart) (k : Z) : option Z :=
  match c with
  | [] => None
  | (k', q) :: rest => if Z.eqb k k' then Some q else get rest k
  end.

Fixpoint set (c : cart) (k : Z) (q : Z) : cart :=
  match c with
  | [] => [(k, q)]
  | (k', q') :: rest =>
      if Z.eqb k k' then (k, q) :: rest else (k', q') :: set rest k q
  end.

(** [delete cart[k]] *)
Fixpoint delete (c : cart) (k : Z) : cart :=
  match c with
  | [] => []
  | (k', q') :: rest =>
      if Z.eqb k k' then rest else (k', q') :: delete rest k
  end.

(** [x || 0] *)
Definition or_zero (x : option Z) : Z :=
  match x with Some q => q | None => 0%Z end.

(** The state update of [addToCart], run once the server has accepted
    the request: [{ ...prev, [productId]: (prev[productId] || 0) + 1 }]. *)
Definition addToCart (prev : cart) (productId : Z) : cart :=
  set prev productId (or_zero (get prev productId) + 1)%Z.

(** The state update of [bulkAddToCart] on the server's [results], each
    a product id and a quantity. *)
Definition bulkAddToCart (prev : cart) (results : list (Z * Z)) : cart :=
  fold_left
    (fun newCart result =>
       set newCart (fst result) (or_zero (get newCart (fst result)) + snd result)%Z)
    results prev.

(** The state update of [removeFromCart]:
    [if (newCart[productId] > 1) newCart[productId] -= 1;
     else delete newCart[productId]]. *)
Definition removeFromCart (prev : cart) (productId : Z) : cart :=
  match get prev productId with
  | Some q =>
      if (1 <? q)%Z then set prev productId (q - 1)%Z
      else delete prev productId
  | None => delete prev productId
  end.

(** [getCartItemCount]: [Object.values(cart).reduce((t, q) => t + q, 0)]. *)
Definition getCartItemCount (c : cart) : Z :=
  fold_left (fun total kv => (total + snd kv)%Z) c 0%Z.

(** What [handleChatSubmit] does with the chat input: the list passed
    to [bulkAddToCart], if any, and the fragments named by the "Some
    items not available" toast, if it is shown. *)
Record Submitted := {
  bulk : option (list Chat.ParsedItem);
  not_available : option string
}.

Definition handleChatSubmit (products : list Product) (chatInput : string)
  : option Submitted :=
  if Str.nonempty (Str.trim chatInput) then
    let parsed := Chat.parseMultipleItems products chatInput in
    let itemsToAdd := Chat.items parsed in
    Some {| bulk := match itemsToAdd with
                    | [] => None
                    | _ :: _ => Some itemsToAdd
                    end;
            not_available :=
              match Chat.unavailable parsed with
              | [] => None
              | _ :: _ =>
                  Some (String.concat ", " (firstn 5 (Chat.unavailable parsed)))
              end |}
  else None.

End Customer.

(** ** Relative time, [formatIST.relative] *)

Module DateUtils.

(** A time value in milliseconds; [None] is [NaN], the time value of an
    invalid date. *)
Definition time := option Z.

(** [5.5 * 60 * 60 * 1000] *)
Definition IST_OFFSET : Z := 19800000.

(** [new Date(t)]: a time value beyond 8.64e15 ms either way makes the
    date invalid. *)
Definition newDate (t : time) : time :=
  match t with
  | Some v => if (Z.abs v <=? 8640000000000000)%Z then Some v else None
  | None => None
  end.

(** [toIST(date).getTime()] *)
Definition toIST (date : time) : time :=
  newDate (option_map (fun v => (v + IST_OFFSET)%Z) date).

(** [Math.floor(x / d)] *)
Definition floor_div (x : time) (d : Z) : time :=
  option_map (fun v => (v / d)%Z) x.

(** [x < n] and [x > n]; both are false on [NaN]. *)
Definition lt (x : time) (n : Z) : bool :=
  match x with Some v => (v <? n)%Z | None => false end.

Definition gt (x : time) (n : Z) : bool :=
  match x with Some v => (n <? v)%Z | None => false end.

(** A number inside a template string. *)
Definition show (x : time) : string :=
  match x with
  | Some v => DecimalString.NilZero.string_of_int (Z.to_int v)
  | None => "NaN"
  end.

(** [`${n} unit${n > 1 ? 's' : ''} ago`] *)
Definition ago (n : time) (unit : string) : string :=
  (show n ++ " " ++ unit ++ (if gt n 1 then "s" else "") ++ " ago")%string.

(** [formatIST.relative(date)], with [now] the time value of [new Date()].
    Time values are whole milliseconds; as long as the difference stays
    below 2^53 the subtraction and the floored divisions on doubles are
    the ones on integers. *)
Definition relative (now : Z) (date : time) : string :=
  let istDate := toIST date in
  let diffInMs := option_map (fun v => (now - v)%Z) istDate in
  let seconds := floor_div diffInMs 1000 in
  let minutes := floor_div seconds 60 in
  let hours := floor_div minutes 60 in
  let days := floor_div hours 24 in
  let weeks := floor_div days 7 in
  let months := floor_div days 30 in
  let years := floor_div days 365 in
  if lt seconds 60 then "Just now"
  else if lt minutes 60 then ago minutes "minute"
  else if lt hours 24 then ago hours "hour"
  else if lt days 7 then ago days "day"
  else if lt weeks 4 then ago weeks "week"
  else if lt months 12 then ago months "month"
  else ago years "year".

End DateUtils.

(** ** Vocabulary of the further properties *)

(** Score of a catalog entry against the whole command, as the second
    half of [handleVoiceCommand] computes it. *)
Definition voice_query_tokens (command : string) : JSet.t :=
  JSet.of_list (Voice.tokenize (Str.toLowerCase command)).

Definition voice_query_score (command : string) (p : Product) : nat :=
  overlap (JSet.of_list (Voice.tokenize (name p))) (voice_query_tokens command).

(** A product id of the catalog. *)
Definition in_catalog (products : list Product) (i : Z) : Prop :=
  exists p, In p products /\ id p = i.

(** Strictly ascending integers. *)
Fixpoint ascending (l : list Z) : Prop :=
  match l with
  | [] => True
  | x :: t => Forall (fun y => (x < y)%Z) t /\ ascending t
  end.

(** A cart in order: one entry per product, every quantity at least 1. *)
Definition cart_ok (c : Customer.cart) : Prop :=
  NoDup (List.map fst c) /\ Forall (fun kv => (1 <= snd kv)%Z) c.

(** The quantities of a list of server results, in all and for one
    product. *)
Definition results_total (results : list (Z * Z)) : Z :=
  fold_right (fun r t => (snd r + t)%Z) 0%Z results.

Definition results_for (k : Z) (results : list (Z * Z)) : Z :=
  results_total (filter (fun r => Z.eqb (fst r) k) results).

(** Time values for which the differences taken by [relative] stay
    below 2^53, so that the arithmetic on doubles is exact. *)
Definition exact_now (now : Z) : Prop := (Z.abs now <= 367199254740992)%Z.

(** The milliseconds that [relative] sees between a date and now. *)
Definition elapsed (now t : Z) : Z := (now - (t + DateUtils.IST_OFFSET))%Z.

Definition valid_date (t : Z) : Prop :=
  (Z.abs (t + DateUtils.IST_OFFSET) <= 8640000000000000)%Z.

Definition day : Z := 86400000.

(** * Properties *)

(** ** Worked examples *)

(** C1. With the catalog of "Fresh Tomatoes" (id 1) and "Sweet Bananas"
    (id 3), the utterance "Add 2 tomatoes and 3 bananas" gives, in the
    voice parser and in the chat parser alike, the two items
    (1, 2) and (3, 3), in that order. *)
Theorem C1_tomatoes_and_bananas : forall c1 c3 : string,
  Voice.parseMultipleItems (tomatoes_bananas c1 c3) "Add 2 tomatoes and 3 bananas"
  = [ {| Voice.productId := 1; Voice.quantity := 2 |};
      {| Voice.productId := 3; Voice.quantity := 3 |} ]
  /\ Chat.items
       (Chat.parseMultipleItems (tomatoes_bananas c1 c3)
          "Add 2 tomatoes and 3 bananas")
     = [ {| Chat.productId := 1; Chat.quantity := Chat.Num 2 |};
         {| Chat.productId := 3; Chat.quantity := Chat.Num 3 |} ].
Proof.
  intros c1 c3. split; vm_compute; reflexivity.
Qed.

(** ** Sorting and the best match *)

Lemma drop_length_le (n : nat) (s : string) :
  String.length (Str.drop n s) <= String.length s.
Proof.
  revert s; induction n as [|n IH]; intros [|c r]; simpl; auto.
Qed.

Section SortFacts.

Context {A : Type} (cmp : A -> A -> Z).

Lemma insert_In (x y : A) (l : list A) :
  In y (insert cmp x l) <-> y = x \/ In y l.
Proof.
  induction l as [|z t IH]; simpl.
  - intuition.
  - destruct (0 <? cmp x z)%Z; simpl; rewrite ?IH; intuition.
Qed.

Lemma sort_In (y : A) (l : list A) : In y (sort cmp l) <-> In y l.
Proof.
  induction l as [|x t IH]; simpl; [tauto|].
  rewrite insert_In, IH. intuition.
Qed.

End SortFacts.

(** The head of the sorted scores, computed along the catalog: a later
    entry wins only with a strictly higher score. *)
Lemma best_of_cons (x : Scored) (t : list Scored) :
  best_of (x :: t) =
  match best_of t with
  | Some y => if score x <? score y then Some y else Some x
  | None => Some x
  end.
Proof.
  unfold best_of; simpl.
  destruct (sort by_score_desc t) as [|y t']; simpl; [reflexivity|].
  unfold by_score_desc.
  destruct (Nat.ltb_spec (score x) (score y)) as [H|H].
  - replace (0 <? Z.of_nat (score y) - Z.of_nat (score x))%Z with true
      by (symmetry; apply Z.ltb_lt; lia).
    reflexivity.
  - replace (0 <? Z.of_nat (score y) - Z.of_nat (score x))%Z with false
      by (symmetry; apply Z.ltb_ge; lia).
    reflexivity.
Qed.

Lemma best_of_In (l : list Scored) (b : Scored) :
  best_of l = Some b -> In b l.
Proof.
  unfold best_of. intros H.
  apply (sort_In by_score_desc).
  destruct (sort by_score_desc l); simpl in H; [discriminate|].
  injection H as ->. now left.
Qed.

Lemma best_of_none (l : list Scored) : best_of l = None -> l = [].
Proof.
  destruct l as [|x t]; [reflexivity|].
  rewrite best_of_cons. destruct (best_of t); [destruct (_ <? _)|]; discriminate.
Qed.

Lemma best_of_first_highest (l : list Scored) (b : Scored) :
  best_of l = Some b -> first_highest b l.
Proof.
  revert b; induction l as [|x t IH]; intros b H.
  - discriminate.
  - rewrite best_of_cons in H.
    destruct (best_of t) as [y|] eqn:Ht.
    + destruct (IH y eq_refl) as (l1 & l2 & -> & H1 & H2).
      destruct (Nat.ltb_spec (score x) (score y)) as [Hxy|Hxy];
        injection H as <-.
      * exists (x :: l1), l2. repeat split; auto.
      * exists [], (l1 ++ y :: l2). repeat split; auto.
        apply Forall_app; split.
        -- eapply Forall_impl; [|exact H1]. simpl; intros; lia.
        -- constructor; [exact Hxy|].
           eapply Forall_impl; [|exact H2]. simpl; intros; lia.
    + injection H as <-. apply best_of_none in Ht; subst t.
      exists [], []. repeat split; auto.
Qed.

Lemma first_highest_best_of (l : list Scored) (b : Scored) :
  first_highest b l -> best_of l = Some b.
Proof.
  intros (l1 & l2 & -> & H1 & H2).
  induction l1 as [|x l1 IH]; simpl.
  - rewrite best_of_cons.
    destruct (best_of l2) as [y|] eqn:Hy; [|reflexivity].
    apply best_of_In in Hy.
    rewrite Forall_forall in H2. specialize (H2 y Hy).
    destruct (Nat.ltb_spec (score b) (score y)); [lia|reflexivity].
  - inversion H1 as [|? ? Hx H1']; subst.
    rewrite best_of_cons, (IH H1').
    destruct (Nat.ltb_spec (score x) (score b)); [reflexivity|lia].
Qed.

Lemma best_of_scores (f : Product -> nat) (products : list Product) (b : Scored) :
  best_of (List.map (fun p => {| s_productId := id p; score := f p |}) products)
  = Some b ->
  exists p, first_best f p products /\ b = {| s_productId := id p; score := f p |}.
Proof.
  intros H. apply best_of_first_highest in H.
  destruct H as (l1 & l2 & E & H1 & H2).
  apply map_eq_app in E. destruct E as (before & rest & -> & <- & E).
  apply map_eq_cons in E. destruct E as (p & after & -> & <- & <-).
  exists p. split; [|reflexivity].
  exists before, after. repeat split.
  - rewrite Forall_map in H1. exact H1.
  - rewrite Forall_map in H2. exact H2.
Qed.

Lemma best_of_scores_zero (f : Product -> nat) (products : list Product) :
  match best_of (List.map (fun p => {| s_productId := id p; score := f p |}) products)
  with
  | Some b => score b = 0 -> Forall (fun p => f p = 0) products
  | None => products = []
  end.
Proof.
  destruct (best_of _) as [b|] eqn:H.
  - intros Hb. apply best_of_scores in H.
    destruct H as (p & (before & after & -> & H1 & H2) & ->). simpl in Hb.
    apply Forall_app; split; [|constructor; [exact Hb|]].
    + eapply Forall_impl; [|exact H1]. simpl; intros; lia.
    + eapply Forall_impl; [|exact H2]. simpl; intros; lia.
  - apply best_of_none in H. now apply map_eq_nil in H.
Qed.

(** ** Sets of tokens *)

Lemma has_true_iff (x : string) (s : JSet.t) : JSet.has x s = true <-> In x s.
Proof.
  unfold JSet.has. rewrite existsb_exists. split.
  - intros (y & Hy & E). apply String.eqb_eq in E. now subst.
  - intros H. exists x. split; [exact H|apply String.eqb_refl].
Qed.

Lemma fold_add_In (l : list string) (acc : JSet.t) (x : string) :
  In x (fold_left JSet.add l acc) <-> In x acc \/ In x l.
Proof.
  revert acc; induction l as [|y l IH]; intros acc; simpl; [tauto|].
  rewrite IH. unfold JSet.add.
  destruct (JSet.has y acc) eqn:Hy.
  - apply has_true_iff in Hy. intuition (subst; auto).
  - rewrite in_app_iff; simpl. intuition (subst; auto).
Qed.

Lemma of_list_In (l : list string) (x : string) : In x (JSet.of_list l) <-> In x l.
Proof. unfold JSet.of_list. rewrite fold_add_In. simpl. tauto. Qed.

Lemma fold_add_NoDup (l : list string) (acc : JSet.t) :
  NoDup acc -> NoDup (fold_left JSet.add l acc).
Proof.
  revert acc; induction l as [|y l IH]; intros acc H; simpl; [exact H|].
  apply IH. unfold JSet.add.
  destruct (JSet.has y acc) eqn:Hy; [exact H|].
  apply NoDup_app; repeat split; auto.
  - constructor; [intros []|constructor].
  - intros a Ha [<-|[]].
    apply has_true_iff in Ha. congruence.
Qed.

Lemma of_list_NoDup (l : list string) : NoDup (JSet.of_list l).
Proof. apply fold_add_NoDup. constructor. Qed.

Lemma delete_In (x y : string) (s : JSet.t) :
  In y (JSet.delete x s) <-> In y s /\ y <> x.
Proof.
  unfold JSet.delete. rewrite filter_In.
  destruct (String.eqb_spec x y); simpl; intuition congruence.
Qed.

(** The score is the number of distinct tokens that the product name
    and the fragment share. *)
Lemma overlap_counts_shared (nameTokens : list string) (partTokens : JSet.t) :
  exists shared,
    NoDup shared
    /\ (forall t, In t shared <-> In t nameTokens /\ In t partTokens)
    /\ overlap (JSet.of_list nameTokens) partTokens = List.length shared.
Proof.
  exists (filter (fun t => JSet.has t partTokens) (JSet.of_list nameTokens)).
  repeat split.
  - apply NoDup_filter, of_list_NoDup.
  - rewrite filter_In, of_list_In, has_true_iff in H; tauto.
  - rewrite filter_In, of_list_In, has_true_iff in H; tauto.
  - intros [H1 H2]. rewrite filter_In, of_list_In, has_true_iff. tauto.
Qed.

Lemma overlap_nil (nameTokens : JSet.t) : overlap nameTokens [] = 0.
Proof.
  unfold overlap. induction nameTokens as [|t l IH]; simpl; auto.
Qed.

(** ** One fragment at a time *)

Lemma voice_parse_part_some (products : list Product) (part : string)
  (item : Voice.ParsedItem) :
  Voice.parse_part products part = Some item ->
  exists p, first_best (voice_score part) p products
            /\ 0 < voice_score part p
            /\ Voice.productId item = id p.
Proof.
  unfold Voice.parse_part, Voice.score_products.
  destruct (best_of _) as [b|] eqn:Hb; [|discriminate].
  apply (best_of_scores (voice_score part)) in Hb.
  destruct Hb as (p & Hp & ->). simpl.
  destruct (Nat.ltb_spec 0 (voice_score part p)); [|discriminate].
  intros [= <-]. exists p. auto.
Qed.

Lemma voice_parse_part_none (products : list Product) (part : string) :
  Voice.parse_part products part = None ->
  Forall (fun p => voice_score part p = 0) products.
Proof.
  unfold Voice.parse_part, Voice.score_products.
  pose proof (best_of_scores_zero (voice_score part) products) as Hz.
  destruct (best_of _) as [b|] eqn:Hb.
  - destruct (Nat.ltb_spec 0 (score b)); [discriminate|].
    intros _. apply Hz. lia.
  - intros _. subst products. constructor.
Qed.

Lemma chat_parse_step_cases (products : list Product) (part : string)
  (aggregated : Chat.record) (unavailable : list string) :
  (exists p,
      first_best (chat_score part) p products
      /\ 0 < chat_score part p
      /\ Chat.parse_step products (aggregated, unavailable) part
         = (Chat.set aggregated (id p)
              (Chat.plus (Chat.or_zero (Chat.get aggregated (id p)))
                 (Chat.detect_quantity part)),
            unavailable))
  \/ (Forall (fun p => chat_score part p = 0) products
      /\ Chat.parse_step products (aggregated, unavailable) part
         = (aggregated, unavailable ++ [part])).
Proof.
  unfold Chat.parse_step, Chat.score_products.
  pose proof (best_of_scores_zero (chat_score part) products) as Hz.
  destruct (best_of _) as [b|] eqn:Hb.
  - apply (best_of_scores (chat_score part)) in Hb.
    destruct Hb as (p & Hp & ->). simpl in *.
    destruct (Nat.ltb_spec 0 (chat_score part p)).
    + left. exists p. auto.
    + right. split; [apply Hz; lia|reflexivity].
  - right. subst products. split; [constructor|reflexivity].
Qed.

(** ** The whole utterance *)

Lemma voice_fold_parts (products : list Product) (parts : list string)
  (acc : list Voice.ParsedItem) :
  fold_left (Voice.parse_step products) parts acc
  = acc ++ flat_map (fun part => option_list (Voice.parse_part products part))
             (filter Str.nonempty (List.map Str.trim parts)).
Proof.
  revert acc; induction parts as [|part parts IH]; intros acc; simpl.
  - now rewrite app_nil_r.
  - rewrite IH. unfold Voice.parse_step.
    destruct (Str.nonempty (Str.trim part)); simpl; [|reflexivity].
    destruct (Voice.parse_part products (Str.trim part)); simpl.
    + now rewrite <- app_assoc.
    + reflexivity.
Qed.

(** The voice parser gives one item per fragment that finds a product,
    in fragment order. *)
Lemma voice_items_per_fragment (products : list Product) (command : string) :
  Voice.parseMultipleItems products command
  = flat_map (fun part => option_list (Voice.parse_part products part))
      (voice_fragments command).
Proof.
  unfold Voice.parseMultipleItems. now rewrite voice_fold_parts.
Qed.

Lemma chat_parse_step_match (products : list Product) (part : string)
  (aggregated : Chat.record) (unavailable : list string) :
  Chat.parse_step products (aggregated, unavailable) part
  = match chat_match products part with
    | Some m => (aggregate aggregated [m], unavailable)
    | None => (aggregated, unavailable ++ [part])
    end.
Proof.
  unfold Chat.parse_step, chat_match.
  destruct (best_of _) as [b|]; [|reflexivity].
  destruct (0 <? score b); reflexivity.
Qed.

Lemma chat_fold_parts (products : list Product) (parts : list string)
  (aggregated : Chat.record) (unavailable : list string) :
  fold_left (Chat.parse_step products) parts (aggregated, unavailable)
  = (aggregate aggregated (chat_matches products parts),
     unavailable
     ++ filter (fun part => match chat_match products part with
                            | Some _ => false | None => true end) parts).
Proof.
  revert aggregated unavailable.
  induction parts as [|part parts IH]; intros aggregated unavailable.
  - simpl. now rewrite app_nil_r.
  - cbn [fold_left]. rewrite chat_parse_step_match.
    unfold chat_matches; cbn [flat_map filter].
    destruct (chat_match products part) as [m|]; rewrite IH.
    + reflexivity.
    + now rewrite <- app_assoc.
Qed.

Lemma chat_items_eq (products : list Product) (input : string) :
  Chat.items (Chat.parseMultipleItems products input)
  = firstn 15
      (List.map Chat.to_item
         (Chat.entries
            (aggregate [] (chat_matches products (Chat.split_parts input))))).
Proof.
  unfold Chat.parseMultipleItems. rewrite chat_fold_parts. reflexivity.
Qed.

Lemma chat_unavailable_eq (products : list Product) (input : string) :
  Chat.unavailable (Chat.parseMultipleItems products input)
  = filter (fun part => match chat_match products part with
                        | Some _ => false | None => true end)
      (Chat.split_parts input).
Proof.
  unfold Chat.parseMultipleItems. rewrite chat_fold_parts. reflexivity.
Qed.

(** *** The selection rule *)

Lemma first_best_In (f : Product -> nat) (p : Product) (products : list Product) :
  first_best f p products -> In p products.
Proof.
  intros (before & after & -> & _). apply in_or_app. right. now left.
Qed.

(** The first product with the highest score is one product. *)
Lemma first_best_unique (f : Product -> nat) (p q : Product) (l : list Product) :
  first_best f p l -> first_best f q l -> p = q.
Proof.
  intros (b1 & a1 & E1 & Hb1 & Ha1) (b2 & a2 & E2 & Hb2 & Ha2).
  rewrite E1 in E2. clear E1.
  revert b2 E2 Hb2. induction b1 as [|x b1 IH]; intros [|y b2] E2 Hb2.
  - now injection E2.
  - simpl in E2. injection E2 as E0 E2. subst y. exfalso.
    rewrite E2 in Ha1. apply Forall_app in Ha1. destruct Ha1 as [_ Ha1].
    apply Forall_inv in Ha1. apply Forall_inv in Hb2. lia.
  - simpl in E2. injection E2 as E0 E2. subst x. exfalso.
    rewrite <- E2 in Ha2. apply Forall_app in Ha2. destruct Ha2 as [_ Ha2].
    apply Forall_inv in Ha2. apply Forall_inv in Hb1. lia.
  - simpl in E2. injection E2 as E0 E2. subst y.
    apply Forall_inv_tail in Hb1. apply Forall_inv_tail in Hb2. now apply (IH Hb1 b2).
Qed.

Lemma scan_select (f : Product -> nat) (products : list Product)
  (best : option Product) (p : Product) :
  fold_left (Spec.better f) products best = Some p ->
  (best = Some p /\ Forall (fun x => f x <= f p) products)
  \/ (exists before after,
        products = before ++ p :: after
        /\ Forall (fun x => f x < f p) before
        /\ (forall b, best = Some b -> f b < f p)
        /\ Forall (fun x => f x <= f p) after).
Proof.
  revert best. induction products as [|x l IH]; intros best H; simpl in H.
  - left. split; [exact H|constructor].
  - apply IH in H.
    destruct H as [[Hb Hl]|(before & after & -> & Hbf & Hbest & Haf)].
    + unfold Spec.better in Hb. destruct best as [b|].
      * destruct (Nat.ltb_spec (f b) (f x)) as [Hlt|Hge]; injection Hb as ->.
        -- right. exists [], l. refine (conj eq_refl (conj _ (conj _ Hl))).
           ++ constructor.
           ++ intros b' E. injection E as <-. exact Hlt.
        -- left. split; [reflexivity|]. now constructor.
      * injection Hb as ->. right. exists [], l.
        refine (conj eq_refl (conj _ (conj _ Hl))); [constructor|discriminate].
    + right. exists (x :: before), after.
      assert (Hx : f x < f p /\ forall b, best = Some b -> f b < f p).
      { unfold Spec.better in Hbest. destruct best as [b|].
        - destruct (Nat.ltb_spec (f b) (f x)) as [Hlt|Hge].
          + specialize (Hbest x eq_refl). split; [exact Hbest|].
            intros b' E. injection E as <-. lia.
          + specialize (Hbest b eq_refl). split; [lia|].
            intros b' E. injection E as <-. exact Hbest.
        - split; [now apply Hbest|discriminate]. }
      refine (conj eq_refl (conj _ (conj (proj2 Hx) Haf))).
      constructor; [exact (proj1 Hx)|exact Hbf].
Qed.

Lemma scan_some (f : Product -> nat) (products : list Product) (b : Product) :
  exists p, fold_left (Spec.better f) products (Some b) = Some p.
Proof.
  revert b. induction products as [|x l IH]; intros b; simpl; [eauto|].
  destruct (f b <? f x); apply IH.
Qed.

(** What the selection of the specification gives: the first product
    with the highest score, if that score is positive. *)
Lemma select_some (f : Product -> nat) (products : list Product) (p : Product) :
  Spec.select f products = Some p -> first_best f p products /\ 0 < f p.
Proof.
  unfold Spec.select.
  destruct (fold_left _ products None) as [q|] eqn:E; [|discriminate].
  destruct (Nat.ltb_spec 0 (f q)) as [Hpos|]; [|discriminate].
  intros H. injection H as <-. split; [|exact Hpos].
  apply scan_select in E.
  destruct E as [[E _]|(before & after & -> & Hb & _ & Ha)]; [discriminate|].
  now exists before, after.
Qed.

Lemma select_none (f : Product -> nat) (products : list Product) :
  Spec.select f products = None -> Forall (fun p => f p = 0) products.
Proof.
  unfold Spec.select.
  destruct (fold_left _ products None) as [q|] eqn:E.
  - destruct (Nat.ltb_spec 0 (f q)) as [|Hz]; [discriminate|]. intros _.
    apply scan_select in E.
    destruct E as [[E _]|(before & after & -> & Hb & _ & Ha)]; [discriminate|].
    apply Forall_app; split; [|constructor; [lia|]].
    + eapply Forall_impl; [|exact Hb]. simpl; intros; lia.
    + eapply Forall_impl; [|exact Ha]. simpl; intros; lia.
  - intros _. destruct products as [|x l]; [constructor|].
    simpl in E. destruct (scan_some f l x) as (q & Hq). congruence.
Qed.

(** The head of the sorted scores is the selection of the
    specification. *)
Lemma best_of_select {B : Type} (g : Z -> B) (f : Product -> nat)
  (products : list Product) :
  match best_of (List.map (fun p => {| s_productId := id p; score := f p |}) products)
  with
  | Some best => if 0 <? score best then Some (g (s_productId best)) else None
  | None => None
  end
  = option_map (fun p => g (id p)) (Spec.select f products).
Proof.
  pose proof (best_of_scores_zero f products) as Hz.
  destruct (best_of _) as [b|] eqn:Hb.
  - apply best_of_scores in Hb. destruct Hb as (p & Hp & ->). cbn [score s_productId] in *.
    destruct (Spec.select f products) as [q|] eqn:Hs.
    + apply select_some in Hs. destruct Hs as [Hq Hpos].
      rewrite (first_best_unique f p q products Hp Hq).
      destruct (Nat.ltb_spec 0 (f q)); [reflexivity|lia].
    + apply select_none in Hs. rewrite Forall_forall in Hs.
      rewrite (Hs p (first_best_In _ _ _ Hp)). reflexivity.
  - subst products. reflexivity.
Qed.

Lemma voice_parse_part_selected (products : list Product) (part : string) :
  option_list (Voice.parse_part products part) = voice_selected products part.
Proof.
  pose proof (best_of_select
                (fun i => {| Voice.productId := i;
                             Voice.quantity :=
                               Voice.detect_quantity part
                                 (JSet.of_list (Voice.tokenize part)) |})
                (voice_score part) products) as H.
  unfold Voice.parse_part, voice_selected, Voice.score_products.
  unfold voice_score in *. cbv zeta. rewrite H.
  destruct (Spec.select _ products); reflexivity.
Qed.

Lemma chat_match_selected (products : list Product) (part : string) :
  option_list (chat_match products part) = chat_selected products part
  /\ match chat_match products part with Some _ => false | None => true end
     = chat_unselected products part.
Proof.
  pose proof (best_of_select (fun i => (i, Chat.detect_quantity part))
                (chat_score part) products) as H.
  unfold chat_match, chat_selected, chat_unselected, Chat.score_products.
  unfold chat_score in *. rewrite H.
  destruct (Spec.select _ products); split; reflexivity.
Qed.

Lemma flat_map_ext_all {A B : Type} (f g : A -> list B) (l : list A) :
  (forall x, f x = g x) -> flat_map f l = flat_map g l.
Proof.
  intros H. induction l as [|x l IH]; simpl; [reflexivity|]. now rewrite H, IH.
Qed.

Lemma filter_ext_all {A : Type} (f g : A -> bool) (l : list A) :
  (forall x, f x = g x) -> filter f l = filter g l.
Proof.
  intros H. induction l as [|x l IH]; simpl; [reflexivity|]. now rewrite H, IH.
Qed.

Lemma chat_matches_selected (products : list Product) (parts : list string) :
  chat_matches products parts = flat_map (chat_selected products) parts.
Proof.
  unfold chat_matches. apply flat_map_ext_all.
  intros part. apply chat_match_selected.
Qed.

(** Counterexample to C6 as stated: the voice parser reports the
    fragment "3 kiwis", whose top score is 0, nowhere.  Its result, a
    list of items, is the result for "2 apples" alone, and so is the
    cart call of the handler; the chat parser lists the fragment as
    unavailable. *)
Lemma C6_voice_reports_no_fragment :
  Voice.parseMultipleItems (only_apples 1 "fruits") "2 apples, 3 kiwis"
  = Voice.parseMultipleItems (only_apples 1 "fruits") "2 apples"
  /\ Voice.handleVoiceCommand (only_apples 1 "fruits") "2 apples, 3 kiwis"
     = Voice.BulkAdd [ {| Voice.productId := 1; Voice.quantity := 2 |} ]
  /\ Voice.handleVoiceCommand (only_apples 1 "fruits") "2 apples"
     = Voice.BulkAdd [ {| Voice.productId := 1; Voice.quantity := 2 |} ]
  /\ Chat.unavailable
       (Chat.parseMultipleItems (only_apples 1 "fruits") "2 apples, 3 kiwis")
     = ["3 kiwis"].
Proof.
  refine (conj _ (conj _ (conj _ _))); vm_compute; reflexivity.
Qed.

(** C6, amended.  For every fragment, each parser selects the product
    with the strictly highest token-overlap score, the first of them in
    catalog order on a tie, the score being the number of distinct
    tokens shared by the fragment and the product name; a fragment
    whose top score is 0 gives no item.  The voice parser returns the
    items of the selected products, one per fragment, in fragment
    order, and nothing else: it has no list of unmatched fragments.
    The chat parser adds the quantity of the fragment to the entry of
    the selected product, returns the first 15 entries as items, and
    reports the fragments without a selected product, in order, in its
    [unavailable] list. *)
Theorem C6_best_match_in_catalog_order :
  forall (products : list Product) (utterance : string),
    Voice.parseMultipleItems products utterance
    = flat_map (voice_selected products) (voice_fragments utterance)
    /\ Chat.items (Chat.parseMultipleItems products utterance)
       = firstn 15
           (List.map Chat.to_item
              (Chat.entries
                 (aggregate []
                    (flat_map (chat_selected products)
                       (Chat.split_parts utterance)))))
    /\ Chat.unavailable (Chat.parseMultipleItems products utterance)
       = filter (chat_unselected products) (Chat.split_parts utterance)
    /\ (forall f,
          match Spec.select f products with
          | Some p => first_best f p products /\ 0 < f p
          | None => Forall (fun p => f p = 0) products
          end)
    /\ (forall part p,
          exists shared,
            NoDup shared
            /\ (forall t, In t shared <->
                  In t (Voice.tokenize (name p))
                  /\ In t (Voice.product_tokens
                             (JSet.of_list (Voice.tokenize part))))
            /\ voice_score part p = List.length shared)
    /\ (forall part p,
          exists shared,
            NoDup shared
            /\ (forall t, In t shared <->
                  In t (Chat.tokenize (name p)) /\ In t (Chat.product_tokens part))
            /\ chat_score part p = List.length shared).
Proof.
  intros products utterance.
  refine (conj _ (conj _ (conj _ (conj _ (conj _ _))))).
  - rewrite voice_items_per_fragment. apply flat_map_ext_all.
    intros part. apply voice_parse_part_selected.
  - rewrite chat_items_eq. now rewrite chat_matches_selected.
  - rewrite chat_unavailable_eq. apply filter_ext_all.
    intros part. apply chat_match_selected.
  - intros f. destruct (Spec.select f products) as [p|] eqn:E.
    + now apply select_some.
    + now apply select_none.
  - intros part p. apply overlap_counts_shared.
  - intros part p. apply overlap_counts_shared.
Qed.

(** *** The record of aggregated quantities *)

Lemma set_keys (r : Chat.record) (k : Z) (v : Chat.value) (k' : Z) :
  In k' (List.map fst (Chat.set r k v)) <-> k' = k \/ In k' (List.map fst r).
Proof.
  induction r as [|[k0 v0] r IH]; simpl.
  - intuition.
  - destruct (Z.eqb_spec k k0); simpl.
    + subst. intuition.
    + rewrite IH. intuition.
Qed.

Lemma get_set (r : Chat.record) (k : Z) (v : Chat.value) (k' : Z) :
  Chat.get (Chat.set r k v) k' = if Z.eqb k' k then Some v else Chat.get r k'.
Proof.
  induction r as [|[k0 v0] r IH]; simpl.
  - destruct (Z.eqb_spec k' k); reflexivity.
  - destruct (Z.eqb_spec k k0) as [->|Hk]; simpl.
    + destruct (Z.eqb_spec k' k0); reflexivity.
    + rewrite IH.
      destruct (Z.eqb_spec k' k0) as [->|]; [|reflexivity].
      destruct (Z.eqb_spec k0 k); [congruence|reflexivity].
Qed.

Lemma set_NoDup (r : Chat.record) (k : Z) (v : Chat.value) :
  NoDup (List.map fst r) -> NoDup (List.map fst (Chat.set r k v)).
Proof.
  induction r as [|[k0 v0] r IH]; simpl; intros H.
  - constructor; [intros []|constructor].
  - inversion H as [|? ? Hn Hr]; subst.
    destruct (Z.eqb_spec k k0) as [->|Hk]; simpl.
    + now constructor.
    + constructor; [|now apply IH].
      rewrite set_keys. intros [E|E]; congruence.
Qed.

Lemma get_In (r : Chat.record) (k : Z) (v : Chat.value) :
  NoDup (List.map fst r) -> In (k, v) r -> Chat.get r k = Some v.
Proof.
  induction r as [|[k0 v0] r IH]; simpl; intros Hn Hin; [contradiction|].
  inversion Hn as [|? ? Hk Hr]; subst.
  destruct Hin as [[= -> ->]|Hin].
  - now rewrite Z.eqb_refl.
  - destruct (Z.eqb_spec k k0) as [->|]; [|now apply IH].
    exfalso. apply Hk. change k0 with (fst (k0, v)). now apply in_map.
Qed.

Lemma aggregate_keys (ms : list (Z * Chat.value)) (r : Chat.record) (k : Z) :
  In k (List.map fst (aggregate r ms))
  <-> In k (List.map fst r) \/ In k (List.map fst ms).
Proof.
  revert r; induction ms as [|m ms IH]; intros r; simpl; [tauto|].
  unfold aggregate in *; simpl. rewrite IH, set_keys. intuition.
Qed.

Lemma aggregate_NoDup (ms : list (Z * Chat.value)) (r : Chat.record) :
  NoDup (List.map fst r) -> NoDup (List.map fst (aggregate r ms)).
Proof.
  revert r; induction ms as [|m ms IH]; intros r H; simpl; [exact H|].
  apply IH. now apply set_NoDup.
Qed.

(** The value stored for a product is the running sum of the
    quantities of the fragments matched to it. *)
Lemma aggregate_get (ms : list (Z * Chat.value)) (r : Chat.record) (k : Z) :
  In k (List.map fst ms) ->
  Chat.get (aggregate r ms) k
  = Some (fold_left Chat.plus (quantities_for k ms) (Chat.or_zero (Chat.get r k))).
Proof.
  revert r; induction ms as [|[i q] ms IH]; intros r Hin; [contradiction|].
  unfold aggregate, quantities_for in *; simpl in *.
  destruct (in_dec Z.eq_dec k (List.map fst ms)) as [Hk|Hk].
  - rewrite (IH _ Hk), get_set.
    destruct (Z.eqb_spec k i) as [->|Hne].
    + rewrite Z.eqb_refl. reflexivity.
    + destruct (Z.eqb_spec i k); [congruence|reflexivity].
  - destruct Hin as [->|Hin]; [|contradiction].
    rewrite Z.eqb_refl; simpl.
    assert (Hnone : filter (fun m => Z.eqb (fst m) k) ms = []).
    { clear -Hk. induction ms as [|[i q'] ms IH]; simpl in *; [reflexivity|].
      destruct (Z.eqb_spec i k); [exfalso; auto|]. apply IH. tauto. }
    rewrite Hnone; simpl.
    set (r' := Chat.set r k _).
    assert (Hsame : forall ms' r0, ~ In k (List.map fst ms') ->
              Chat.get (fold_left
                (fun r m => Chat.set r (fst m)
                   (Chat.plus (Chat.or_zero (Chat.get r (fst m))) (snd m))) ms' r0) k
              = Chat.get r0 k).
    { clear. induction ms' as [|[i q'] ms' IH]; intros r0 Hn; simpl in *; [reflexivity|].
      rewrite IH by tauto. rewrite get_set.
      destruct (Z.eqb_spec k i); [exfalso; auto|reflexivity]. }
    rewrite Hsame by exact Hk. unfold r'. rewrite get_set, Z.eqb_refl. reflexivity.
Qed.

(** *** [Object.entries] *)

Lemma sort_Permutation {A : Type} (cmp : A -> A -> Z) (l : list A) :
  Permutation (sort cmp l) l.
Proof.
  induction l as [|x t IH]; simpl; [constructor|].
  assert (Hins : forall l', Permutation (insert cmp x l') (x :: l')).
  { induction l' as [|y l' IH']; simpl; [repeat constructor|].
    destruct (0 <? cmp x y)%Z.
    - eapply perm_trans; [apply perm_skip, IH'|].
      apply perm_swap.
    - apply Permutation_refl. }
  eapply perm_trans; [apply Hins|]. now constructor.
Qed.

Lemma filter_partition_Permutation {A : Type} (f : A -> bool) (l : list A) :
  Permutation (filter f l ++ filter (fun x => negb (f x)) l) l.
Proof.
  induction l as [|x t IH]; simpl; [constructor|].
  destruct (f x); simpl.
  - now constructor.
  - apply Permutation_sym, Permutation_cons_app.
    now apply Permutation_sym.
Qed.

Lemma entries_Permutation (r : Chat.record) :
  Permutation (Chat.entries r) r.
Proof.
  unfold Chat.entries.
  eapply perm_trans; [|apply (filter_partition_Permutation
                                           (fun kv => Chat.is_index (fst kv)))].
  apply Permutation_app_tail, sort_Permutation.
Qed.

Lemma entries_In (r : Chat.record) (kv : Z * Chat.value) :
  In kv (Chat.entries r) <-> In kv r.
Proof.
  split; apply Permutation_in;
    [|apply Permutation_sym]; apply entries_Permutation.
Qed.

Lemma entries_NoDup (r : Chat.record) :
  NoDup (List.map fst r) -> NoDup (List.map fst (Chat.entries r)).
Proof.
  apply Permutation_NoDup, Permutation_map,
    Permutation_sym, entries_Permutation.
Qed.

Lemma firstn_In_inv {A : Type} (n : nat) (l : list A) (x : A) :
  In x (firstn n l) -> In x l.
Proof.
  intros H. rewrite <- (firstn_skipn n l). apply in_or_app. now left.
Qed.

Lemma firstn_NoDup {A : Type} (n : nat) (l : list A) :
  NoDup l -> NoDup (firstn n l).
Proof.
  intros H. rewrite <- (firstn_skipn n l) in H.
  now apply NoDup_app_remove_r in H.
Qed.

Lemma chat_match_some (products : list Product) (part : string)
  (m : Z * Chat.value) :
  chat_match products part = Some m ->
  exists p, first_best (chat_score part) p products
            /\ 0 < chat_score part p
            /\ fst m = id p
            /\ snd m = Chat.detect_quantity part.
Proof.
  unfold chat_match, Chat.score_products.
  destruct (best_of _) as [b|] eqn:Hb; [|discriminate].
  apply (best_of_scores (chat_score part)) in Hb.
  destruct Hb as (p & Hp & ->). simpl.
  destruct (Nat.ltb_spec 0 (chat_score part p)); [|discriminate].
  intros [= <-]. exists p. auto.
Qed.

Lemma get_In_inv (r : Chat.record) (k : Z) (v : Chat.value) :
  Chat.get r k = Some v -> In (k, v) r.
Proof.
  induction r as [|[k0 v0] r IH]; simpl; [discriminate|].
  destruct (Z.eqb_spec k k0) as [->|]; [|auto].
  intros E. injection E as ->. now left.
Qed.

Lemma key_id_plain (k : Z) : plain_id k -> Chat.key_id k = k.
Proof.
  unfold plain_id, Chat.key_id. intros H. apply Z.ltb_lt in H. now rewrite H.
Qed.

(** A matched id is the id of a product of the catalog. *)
Lemma chat_matches_ids (products : list Product) (parts : list string) (k : Z) :
  In k (List.map fst (chat_matches products parts)) ->
  exists p, In p products /\ id p = k.
Proof.
  intros H. apply in_map_iff in H. destruct H as (m & E & H).
  apply in_flat_map in H. destruct H as (part & _ & H).
  destruct (chat_match products part) as [m'|] eqn:Em; simpl in H;
    [|contradiction].
  destruct H as [<-|[]].
  apply chat_match_some in Em. destruct Em as (p & Hp & _ & E' & _).
  exists p. split; [now apply first_best_In in Hp|congruence].
Qed.

Lemma chat_matches_plain (products : list Product) (parts : list string) :
  Forall (fun p => plain_id (id p)) products ->
  Forall plain_id (List.map fst (chat_matches products parts)).
Proof.
  intros H. apply Forall_forall. intros k Hk.
  apply chat_matches_ids in Hk. destruct Hk as (p & Hp & <-).
  rewrite Forall_forall in H. now apply H.
Qed.

(** An item is an entry of the record: its id is read back from the key
    of a matched product, its quantity is what the fragments of that
    product add up to. *)
Lemma chat_item_inv (products : list Product) (input : string)
  (item : Chat.ParsedItem) :
  In item (Chat.items (Chat.parseMultipleItems products input)) ->
  let ms := chat_matches products (Chat.split_parts input) in
  exists k,
    Chat.productId item = Chat.key_id k
    /\ In k (List.map fst ms)
    /\ Chat.quantity item = total (quantities_for k ms).
Proof.
  rewrite chat_items_eq. intros H ms. fold ms in H.
  apply firstn_In_inv, in_map_iff in H. destruct H as ([k v] & <- & H).
  apply (proj1 (entries_In _ _)) in H. exists k. simpl.
  assert (Hk : In k (List.map fst ms)).
  { apply (in_map fst) in H. apply (proj1 (aggregate_keys _ _ _)) in H.
    simpl in H. tauto. }
  refine (conj eq_refl (conj Hk _)).
  apply get_In in H; [|apply aggregate_NoDup; constructor].
  rewrite aggregate_get in H by exact Hk. now injection H as <-.
Qed.

Lemma chat_item_inv_plain (products : list Product) (input : string)
  (item : Chat.ParsedItem) :
  Forall (fun p => plain_id (id p)) products ->
  In item (Chat.items (Chat.parseMultipleItems products input)) ->
  let ms := chat_matches products (Chat.split_parts input) in
  In (Chat.productId item) (List.map fst ms)
  /\ Chat.quantity item = total (quantities_for (Chat.productId item) ms).
Proof.
  intros Hplain H ms. apply chat_item_inv in H. fold ms in H.
  destruct H as (k & Ek & Hk & Hq).
  pose proof (chat_matches_plain products (Chat.split_parts input) Hplain) as Hp.
  rewrite Forall_forall in Hp. rewrite (key_id_plain k (Hp k Hk)) in Ek.
  rewrite Ek. auto.
Qed.

Lemma voice_items_in_catalog (products : list Product) (command : string) :
  Forall (fun item => exists p, In p products /\ id p = Voice.productId item)
    (Voice.parseMultipleItems products command).
Proof.
  rewrite voice_items_per_fragment.
  apply Forall_forall. intros item H.
  apply in_flat_map in H. destruct H as (part & _ & H).
  destruct (Voice.parse_part products part) as [item'|] eqn:E; simpl in H;
    [|contradiction].
  destruct H as [<-|[]].
  apply voice_parse_part_some in E. destruct E as (p & Hp & _ & E).
  exists p. split; [now apply first_best_In in Hp|now symmetry].
Qed.

Lemma chat_items_from_keys (products : list Product) (input : string) :
  Forall (fun item => exists p, In p products
                                /\ Chat.key_id (id p) = Chat.productId item)
    (Chat.items (Chat.parseMultipleItems products input)).
Proof.
  apply Forall_forall. intros item H.
  apply chat_item_inv in H. destruct H as (k & Ek & Hk & _).
  apply chat_matches_ids in Hk. destruct Hk as (p & Hp & <-).
  exists p. split; [exact Hp|now symmetry].
Qed.

Lemma chat_items_in_catalog (products : list Product) (input : string) :
  Forall (fun p => plain_id (id p)) products ->
  Forall (fun item => exists p, In p products /\ id p = Chat.productId item)
    (Chat.items (Chat.parseMultipleItems products input)).
Proof.
  intros Hplain.
  pose proof (chat_items_from_keys products input) as H.
  rewrite Forall_forall in *. intros item Hitem.
  destruct (H item Hitem) as (p & Hp & E). exists p. split; [exact Hp|].
  now rewrite <- E, (key_id_plain _ (Hplain p Hp)).
Qed.

(** Counterexample to C10 as stated: the chat parser reads the id of an
    item back from a property key.  For the id 10^21 the key is
    "1e+21", of which [parseInt] reads the 1: the item has the
    product id 1, which is the id of no product of the catalog. *)
Lemma C10_chat_reads_the_key_back :
  Chat.items (Chat.parseMultipleItems (only_apples (10 ^ 21) "fruits") "apples")
  = [ {| Chat.productId := 1; Chat.quantity := Chat.Num 1 |} ]
  /\ ~ (exists p, In p (only_apples (10 ^ 21) "fruits") /\ id p = 1%Z).
Proof.
  split; [vm_compute; reflexivity|].
  intros (p & [<-|[]] & E). vm_compute in E. discriminate E.
Qed.

(** C10, amended.  Every product id in a result of the voice parser is
    the id of a product of the catalog.  In a result of the chat parser
    every product id is what [parseInt] reads back from the property
    key of a product of the catalog, which is the id of that product
    when the ids of the catalog are integers below 10^21 in absolute
    value.  With an empty catalog both parsers return no item. *)
Theorem C10_items_come_from_catalog :
  forall (products : list Product) (utterance : string),
    Forall (fun item => exists p, In p products /\ id p = Voice.productId item)
      (Voice.parseMultipleItems products utterance)
    /\ Forall (fun item => exists p, In p products
                                    /\ Chat.key_id (id p) = Chat.productId item)
         (Chat.items (Chat.parseMultipleItems products utterance))
    /\ (Forall (fun p => plain_id (id p)) products ->
        Forall (fun item => exists p, In p products /\ id p = Chat.productId item)
          (Chat.items (Chat.parseMultipleItems products utterance)))
    /\ Voice.parseMultipleItems [] utterance = []
    /\ Chat.items (Chat.parseMultipleItems [] utterance) = [].
Proof.
  intros products utterance.
  refine (conj _ (conj _ (conj _ (conj _ _)))).
  - apply voice_items_in_catalog.
  - apply chat_items_from_keys.
  - apply chat_items_in_catalog.
  - pose proof (voice_items_in_catalog [] utterance) as V.
    destruct (Voice.parseMultipleItems [] utterance); [reflexivity|].
    inversion V as [|? ? (q & [] & _)].
  - pose proof (chat_items_from_keys [] utterance) as C.
    destruct (Chat.items (Chat.parseMultipleItems [] utterance)); [reflexivity|].
    inversion C as [|? ? (q & [] & _)].
Qed.

Lemma C10_items_come_from_catalog_witness :
  Forall (fun item => exists p, In p (tomatoes_bananas "vegetables" "fruits")
                                /\ id p = Chat.productId item)
    (Chat.items
       (Chat.parseMultipleItems (tomatoes_bananas "vegetables" "fruits")
          "3 bananas and 2 tomatoes")).
Proof.
  apply (C10_items_come_from_catalog (tomatoes_bananas "vegetables" "fruits")
           "3 bananas and 2 tomatoes").
  repeat constructor; vm_compute; reflexivity.
Defined.

(** ** Aggregation *)

Lemma round_small (n : Z) : (n < 2 ^ 53)%Z -> Number.round n = Fin n.
Proof.
  intros H. unfold Number.round. apply Z.ltb_lt in H. now rewrite H.
Qed.

(** Quantities that stay below 2^53 add up as integers do. *)
Lemma total_numbers (ns : list Z) :
  Forall (fun n => (0 <= n)%Z) ns ->
  (fold_right Z.add 0 ns < 2 ^ 53)%Z ->
  total (List.map (fun n => Chat.Num (Fin n)) ns)
  = Chat.Num (Fin (fold_right Z.add 0%Z ns)).
Proof.
  unfold total. intros Hpos Hsum.
  assert (H : forall a, (0 <= a)%Z ->
             (a + fold_right Z.add 0 ns < 2 ^ 53)%Z ->
             fold_left Chat.plus (List.map (fun n => Chat.Num (Fin n)) ns)
               (Chat.Num (Fin a))
             = Chat.Num (Fin (a + fold_right Z.add 0%Z ns))).
  { clear Hsum. induction Hpos as [|n ns Hn Hns IH]; intros a Ha Hsum; simpl in *.
    - now rewrite Z.add_0_r.
    - assert (Hrest : (0 <= fold_right Z.add 0 ns)%Z).
      { clear -Hns. induction Hns; simpl; lia. }
      rewrite round_small by lia. rewrite IH by lia. do 2 f_equal. lia. }
  rewrite (H 0%Z) by lia. reflexivity.
Qed.

Lemma chat_items_NoDup (products : list Product) (input : string) :
  Forall (fun p => plain_id (id p)) products ->
  NoDup (List.map Chat.productId (Chat.items (Chat.parseMultipleItems products input))).
Proof.
  intros Hplain.
  rewrite chat_items_eq, <- firstn_map, map_map.
  apply firstn_NoDup.
  set (agg := aggregate [] (chat_matches products (Chat.split_parts input))).
  assert (E : List.map (fun x => Chat.productId (Chat.to_item x)) (Chat.entries agg)
              = List.map fst (Chat.entries agg)).
  { apply map_ext_in. intros [k v] Hkv. simpl. apply key_id_plain.
    apply (proj1 (entries_In _ _)) in Hkv. apply (in_map fst) in Hkv.
    apply (proj1 (aggregate_keys _ _ _)) in Hkv. destruct Hkv as [[]|Hkv].
    pose proof (chat_matches_plain products (Chat.split_parts input) Hplain) as Hp.
    rewrite Forall_forall in Hp. now apply Hp. }
  rewrite E. apply entries_NoDup, aggregate_NoDup. constructor.
Qed.

(** The products of the record are the matched products, each once. *)
Lemma aggregate_length (ms : list (Z * Chat.value)) :
  List.length (aggregate [] ms) = List.length (nodup Z.eq_dec (List.map fst ms)).
Proof.
  rewrite <- (length_map fst (aggregate [] ms)).
  apply Permutation_length, NoDup_Permutation.
  - apply aggregate_NoDup. constructor.
  - apply NoDup_nodup.
  - intros k. rewrite nodup_In, aggregate_keys. simpl. tauto.
Qed.

(** A matched product has its item when no more than 15 products are
    matched. *)
Lemma chat_item_of_match (products : list Product) (input : string) (k : Z) :
  let ms := chat_matches products (Chat.split_parts input) in
  In k (List.map fst ms) ->
  List.length (nodup Z.eq_dec (List.map fst ms)) <= 15 ->
  In {| Chat.productId := Chat.key_id k;
        Chat.quantity := total (quantities_for k ms) |}
    (Chat.items (Chat.parseMultipleItems products input)).
Proof.
  intros ms Hk Hlen. rewrite chat_items_eq. fold ms.
  rewrite firstn_all2.
  - apply in_map_iff. exists (k, total (quantities_for k ms)).
    split; [reflexivity|]. apply entries_In, get_In_inv.
    now rewrite aggregate_get.
  - rewrite length_map, (Permutation_length (entries_Permutation _)).
    now rewrite aggregate_length.
Qed.

(** Counterexample to C2 as stated: the voice parser answers
    "2 apples and 3 apples" with two items for the one product, of
    quantities 2 and 3, not with one item of quantity 5. *)
Lemma C2_voice_keeps_duplicates :
  Voice.parseMultipleItems (only_apples 1 "fruits") "2 apples and 3 apples"
  = [ {| Voice.productId := 1; Voice.quantity := 2 |};
      {| Voice.productId := 1; Voice.quantity := 3 |} ]
  /\ Voice.parseMultipleItems (only_apples 1 "fruits") "2 apples and 3 apples"
     <> [ {| Voice.productId := 1; Voice.quantity := 5 |} ].
Proof.
  split; vm_compute; [reflexivity|discriminate].
Qed.

(** C2, amended.  Chat parser, for a catalog whose ids are integers
    below 10^21 in absolute value: no two items of a result have the
    same product; the quantity of an item is the sum, taken in fragment
    order, of the quantities of the fragments whose best match is its
    product; and when no more than 15 products are matched, every
    matched product has its item in the result (the result keeps the
    first 15 entries).  The sum is the one JavaScript computes, which
    for quantities that stay below 2^53 is the sum of the integers.
    "2 apples and 3 apples" against a catalog holding only "Apples"
    gives one item of quantity 5.  The voice parser does not aggregate:
    it returns one item per matched fragment, in fragment order, so the
    same input gives two items, of quantities 2 and 3. *)
Theorem C2_chat_aggregates_voice_lists :
  forall (products : list Product) (utterance : string),
    let ms := chat_matches products (Chat.split_parts utterance) in
    let items := Chat.items (Chat.parseMultipleItems products utterance) in
    (Forall (fun p => plain_id (id p)) products ->
     NoDup (List.map Chat.productId items)
     /\ Forall
          (fun item =>
             In (Chat.productId item) (List.map fst ms)
             /\ Chat.quantity item = total (quantities_for (Chat.productId item) ms))
          items
     /\ (List.length (nodup Z.eq_dec (List.map fst ms)) <= 15 ->
         forall i,
           In i (List.map fst ms) ->
           In {| Chat.productId := i;
                 Chat.quantity := total (quantities_for i ms) |} items))
    /\ (forall ns,
          Forall (fun n => (0 <= n)%Z) ns ->
          (fold_right Z.add 0 ns < 2 ^ 53)%Z ->
          total (List.map (fun n => Chat.Num (Fin n)) ns)
          = Chat.Num (Fin (fold_right Z.add 0%Z ns)))
    /\ Voice.parseMultipleItems products utterance
       = flat_map (fun part => option_list (Voice.parse_part products part))
           (voice_fragments utterance)
    /\ (forall i c,
          plain_id i ->
          Chat.items (Chat.parseMultipleItems (only_apples i c) "2 apples and 3 apples")
          = [ {| Chat.productId := i; Chat.quantity := Chat.Num 5 |} ])
    /\ (forall i c,
          Voice.parseMultipleItems (only_apples i c) "2 apples and 3 apples"
          = [ {| Voice.productId := i; Voice.quantity := 2 |};
              {| Voice.productId := i; Voice.quantity := 3 |} ]).
Proof.
  intros products utterance ms items.
  refine (conj _ (conj _ (conj _ (conj _ _)))).
  - intros Hplain. refine (conj _ (conj _ _)).
    + now apply chat_items_NoDup.
    + apply Forall_forall. intros item H.
      now apply (chat_item_inv_plain products utterance item Hplain).
    + intros Hlen i Hi.
      pose proof (chat_item_of_match products utterance i Hi Hlen) as H.
      pose proof (chat_matches_plain products (Chat.split_parts utterance) Hplain)
        as Hp.
      rewrite Forall_forall in Hp. now rewrite (key_id_plain i (Hp i Hi)) in H.
  - apply total_numbers.
  - apply voice_items_per_fragment.
  - intros i c Hi. rewrite chat_items_eq.
    replace (chat_matches (only_apples i c) (Chat.split_parts "2 apples and 3 apples"))
      with [(i, Chat.Num 2); (i, Chat.Num 3)] by (vm_compute; reflexivity).
    unfold aggregate; simpl. rewrite Z.eqb_refl. unfold Chat.entries; simpl.
    unfold Chat.to_item. destruct (Chat.is_index i); simpl;
      rewrite (key_id_plain i Hi); reflexivity.
  - intros i c. vm_compute. reflexivity.
Qed.

Lemma C2_chat_aggregates_voice_lists_witness :
  Chat.items
    (Chat.parseMultipleItems (only_apples 7 "fruits") "2 apples and 3 apples")
  = [ {| Chat.productId := 7; Chat.quantity := Chat.Num 5 |} ]
  /\ NoDup
       (List.map Chat.productId
          (Chat.items
             (Chat.parseMultipleItems (tomatoes_bananas "vegetables" "fruits")
                "2 bananas, 1 tomato and 3 bananas"))).
Proof.
  split.
  - apply (C2_chat_aggregates_voice_lists [] EmptyString). vm_compute. reflexivity.
  - apply (C2_chat_aggregates_voice_lists (tomatoes_bananas "vegetables" "fruits")
             "2 bananas, 1 tomato and 3 bananas").
    repeat constructor; vm_compute; reflexivity.
Defined.

(** ** Quantities *)

(** C3 at its failing input: the voice parser takes the numeral as it
    is, so "0 apples" gives an item of quantity 0.  (The chat parser
    raises the same numeral to 1.) *)
Theorem C3_voice_zero_quantity :
  Voice.parseMultipleItems (only_apples 1 "fruits") "0 apples"
  = [ {| Voice.productId := 1; Voice.quantity := 0 |} ]
  /\ Chat.items (Chat.parseMultipleItems (only_apples 1 "fruits") "0 apples")
     = [ {| Chat.productId := 1; Chat.quantity := Chat.Num 1 |} ].
Proof.
  split; vm_compute; reflexivity.
Qed.

(** ** Category fallback *)

(** C8 at its failing input: the utterance "vegetables" is tokenized to
    "vegetabl" (the trailing "es" is cut), which is not the keyword
    "vegetable"; with a catalog holding one product of category
    "vegetables" the handler adds nothing.  The singular "vegetable"
    does reach the fallback and adds that product. *)
Theorem C8_vegetables_not_recognised :
  Voice.tokenize "vegetables" = ["vegetabl"]
  /\ Voice.handleVoiceCommand one_vegetable "vegetables" = Voice.NotFound
  /\ Voice.handleVoiceCommand one_vegetable "vegetable" = Voice.AddToCart 1.
Proof.
  repeat split; vm_compute; reflexivity.
Qed.

(** ** Strings *)

Section StringFacts.

Local Open Scope string_scope.

Lemma append_length (a b : string) :
  String.length (a ++ b) = String.length a + String.length b.
Proof. induction a as [|c a IH]; simpl; auto. Qed.

Lemma append_assoc (a b c : string) : (a ++ b) ++ c = a ++ (b ++ c).
Proof. induction a as [|x a IH]; simpl; [reflexivity|now rewrite IH]. Qed.

Lemma append_empty_r (a : string) : a ++ "" = a.
Proof. induction a as [|x a IH]; simpl; [reflexivity|now rewrite IH]. Qed.

Lemma take_drop (n : nat) (s : string) : Str.take n s ++ Str.drop n s = s.
Proof.
  revert s; induction n as [|n IH]; intros [|c s]; simpl; auto.
  now rewrite IH.
Qed.

Lemma drop_append (a b : string) : Str.drop (String.length a) (a ++ b) = b.
Proof. induction a as [|c a IH]; simpl; [now destruct b|exact IH]. Qed.

Lemma take_append (a b : string) : Str.take (String.length a) (a ++ b) = a.
Proof. induction a as [|c a IH]; simpl; [now destruct b|now rewrite IH]. Qed.

Lemma append_cancel_r (a b c : string) : a ++ c = b ++ c -> a = b.
Proof.
  revert b; induction a as [|x a IH]; intros [|y b] H; simpl in *.
  - reflexivity.
  - apply (f_equal String.length) in H. simpl in H. rewrite append_length in H. lia.
  - apply (f_equal String.length) in H. simpl in H. rewrite append_length in H. lia.
  - injection H as -> H. f_equal. now apply IH.
Qed.

(** [endsWith] is about a suffix. *)
Lemma endsWith_iff (p s : string) :
  Str.endsWith p s = true <-> exists stem, s = stem ++ p.
Proof.
  unfold Str.endsWith. rewrite andb_true_iff, Nat.leb_le, String.eqb_eq. split.
  - intros [Hl Hd]. exists (Str.take (String.length s - String.length p) s).
    rewrite <- (take_drop (String.length s - String.length p) s) at 1.
    now rewrite Hd.
  - intros [stem ->]. rewrite append_length. split; [lia|].
    replace (String.length stem + String.length p - String.length p)
      with (String.length stem) by lia.
    apply drop_append.
Qed.

Lemma slice_end_append (stem p : string) :
  Str.slice_end (String.length p) (stem ++ p) = stem.
Proof.
  unfold Str.slice_end. rewrite append_length.
  replace (String.length stem + String.length p - String.length p)
    with (String.length stem) by lia.
  apply take_append.
Qed.

Lemma endsWith_false_suffix (p q s : string) :
  Str.endsWith q s = false -> Str.endsWith (p ++ q) s = false.
Proof.
  intros H. destruct (Str.endsWith (p ++ q) s) eqn:E; [|reflexivity].
  apply endsWith_iff in E. destruct E as [stem ->].
  rewrite <- append_assoc in H.
  assert (Str.endsWith q ((stem ++ p) ++ q) = true)
    by (apply endsWith_iff; eauto).
  congruence.
Qed.

End StringFacts.

(** ** Tokenization *)

Lemma singularize_ies (stem : string) :
  singularize (stem ++ "ies")%string = (stem ++ "y")%string.
Proof.
  unfold singularize.
  replace (Str.endsWith "ies" (stem ++ "ies")%string) with true
    by (symmetry; apply endsWith_iff; eauto).
  pose proof (slice_end_append stem "ies") as E. cbn [String.length] in E.
  now rewrite E.
Qed.

Lemma singularize_es (stem : string) :
  Str.endsWith "ies" (stem ++ "es")%string = false ->
  singularize (stem ++ "es")%string = stem.
Proof.
  intros H. unfold singularize. rewrite H.
  replace (Str.endsWith "es" (stem ++ "es")%string) with true
    by (symmetry; apply endsWith_iff; eauto).
  exact (slice_end_append stem "es").
Qed.

Lemma singularize_s (stem : string) :
  Str.endsWith "es" (stem ++ "s")%string = false ->
  3 < String.length (stem ++ "s")%string ->
  singularize (stem ++ "s")%string = stem.
Proof.
  intros H Hl. unfold singularize.
  pose proof (endsWith_false_suffix "i" "es" _ H) as Hi.
  change ("i" ++ "es")%string with "ies" in Hi. rewrite Hi, H.
  replace (Str.endsWith "s" (stem ++ "s")%string) with true
    by (symmetry; apply endsWith_iff; eauto).
  apply Nat.ltb_lt in Hl. rewrite Hl. simpl.
  exact (slice_end_append stem "s").
Qed.

Lemma singularize_short (w : string) :
  Str.endsWith "es" w = false -> String.length w <= 3 -> singularize w = w.
Proof.
  intros H Hl. unfold singularize.
  pose proof (endsWith_false_suffix "i" "es" _ H) as Hi.
  change ("i" ++ "es")%string with "ies" in Hi. rewrite Hi, H.
  replace (3 <? String.length w) with false
    by (symmetry; apply Nat.ltb_ge; exact Hl).
  now rewrite andb_false_r.
Qed.

Lemma singularize_other (w : string) :
  Str.endsWith "s" w = false -> singularize w = w.
Proof.
  intros H. unfold singularize.
  pose proof (endsWith_false_suffix "ie" "s" _ H) as Hi.
  pose proof (endsWith_false_suffix "e" "s" _ H) as He.
  change ("ie" ++ "s")%string with "ies" in Hi.
  change ("e" ++ "s")%string with "es" in He.
  now rewrite Hi, He, H.
Qed.

Lemma filter_after_singularize (stop : string -> bool) (l : list string) :
  filter (fun t => Str.nonempty t && negb (stop t)) (List.map singularize l)
  = filter Str.nonempty
      (filter (fun t => negb (stop t))
         (List.map singularize (filter Str.nonempty l))).
Proof.
  induction l as [|t l IH]; simpl; [reflexivity|].
  destruct t as [|c t]; simpl.
  - change (singularize "") with "". simpl. exact IH.
  - destruct (stop (singularize (String c t))); simpl.
    + rewrite andb_false_r. exact IH.
    + rewrite andb_true_r. destruct (Str.nonempty _); now rewrite IH.
Qed.

Lemma tokenize_keeping_spec (keep : ascii -> bool) (text : string) :
  tokenize_keeping keep text = filter Str.nonempty (Spec.tokenize_with keep text).
Proof. apply filter_after_singularize. Qed.

(** The voice tokenizer is the chat tokenizer on the text with its
    digits blanked. *)
Lemma voice_tokenize_blanks_digits (text : string) :
  Voice.tokenize text
  = Chat.tokenize (Str.map (fun c => if Char.is_digit c then " "%char else c) text).
Proof.
  unfold Voice.tokenize, Chat.tokenize, tokenize_keeping. do 3 f_equal.
  unfold Str.toLowerCase.
  induction text as [|c text IH]; simpl; [reflexivity|].
  rewrite IH. f_equal.
  destruct c as [[] [] [] [] [] [] [] []]; reflexivity.
Qed.

(** Counterexample to C5 as stated: the voice tokenizer replaces the
    digit of "7up" by a space and yields the token "up"; the rule of
    the claim keeps digits and yields "7up". *)
Lemma C5_voice_blanks_digits :
  Voice.tokenize "7up" = ["up"] /\ Voice.tokenize "7up" <> Spec.tokenize "7up".
Proof.
  split; vm_compute; [reflexivity|discriminate].
Qed.

(** C5, amended.  The chat tokenizer is the pipeline of the claim
    (lowercase, blank every character outside [[a-z0-9\s]], split on
    white-space runs, drop empty tokens, singularize, remove stop
    words), with the empty tokens dropped after singularization as
    well, so that a word "es" leaves no token.  The voice tokenizer is
    the same pipeline with the character class [[a-z\s]]: it blanks
    digits too.  Singularization turns a trailing "ies" into "y", else
    cuts a trailing "es", else cuts a trailing "s" from a token longer
    than 3, and leaves every other token as it is. *)
Theorem C5_tokenize_pipeline :
  forall text : string,
    Chat.tokenize text = filter Str.nonempty (Spec.tokenize text)
    /\ Voice.tokenize text
       = filter Str.nonempty (Spec.tokenize_with Voice.keep text)
    /\ Voice.tokenize text
       = Chat.tokenize
           (Str.map (fun c => if Char.is_digit c then " "%char else c) text)
    /\ (forall stem, singularize (stem ++ "ies")%string = (stem ++ "y")%string)
    /\ (forall stem,
          Str.endsWith "ies" (stem ++ "es")%string = false ->
          singularize (stem ++ "es")%string = stem)
    /\ (forall stem,
          Str.endsWith "es" (stem ++ "s")%string = false ->
          3 < String.length (stem ++ "s")%string ->
          singularize (stem ++ "s")%string = stem)
    /\ (forall w,
          Str.endsWith "es" w = false -> String.length w <= 3 ->
          singularize w = w)
    /\ (forall w, Str.endsWith "s" w = false -> singularize w = w).
Proof.
  intros text.
  refine (conj _ (conj _ (conj _ (conj _ (conj _ (conj _ (conj _ _))))))).
  - unfold Chat.tokenize, Spec.tokenize.
    rewrite tokenize_keeping_spec. unfold Spec.tokenize_with. do 5 f_equal.
    induction (Str.toLowerCase text) as [|c s IH]; simpl; [reflexivity|].
    rewrite IH. f_equal. unfold Chat.keep, Spec.keep.
    destruct (Char.is_lower c), (Char.is_space c), (Char.is_digit c); reflexivity.
  - apply tokenize_keeping_spec.
  - apply voice_tokenize_blanks_digits.
  - apply singularize_ies.
  - apply singularize_es.
  - apply singularize_s.
  - apply singularize_short.
  - apply singularize_other.
Qed.

Lemma C5_tokenize_pipeline_witness :
  Chat.tokenize "Fresh Tomatoes" = ["tomato"]
  /\ singularize "tomatoes" = "tomato"
  /\ singularize "bananas" = "banana"
  /\ singularize "gas" = "gas"
  /\ singularize "milk" = "milk".
Proof.
  pose proof (C5_tokenize_pipeline "Fresh Tomatoes")
    as (Hc & _ & _ & _ & Hes & Hs & Hshort & Hother).
  refine (conj _ (conj _ (conj _ (conj _ _)))).
  - rewrite Hc. reflexivity.
  - apply (Hes "tomato"). reflexivity.
  - apply (Hs "banana"); [reflexivity|simpl; lia].
  - apply Hshort; [reflexivity|simpl; lia].
  - apply Hother. reflexivity.
Defined.

(** ** Quantity detection *)

Lemma match_digits_first_run (s : string) :
  Re.match_digits s = if has_digit s then Some (first_digit_run s) else None.
Proof.
  unfold has_digit, first_digit_run.
  induction s as [|c r IH]; [reflexivity|].
  cbn [Re.match_digits Str.existsb Str.dropWhile].
  destruct (Char.is_digit c) eqn:Hc; [reflexivity|exact IH].
Qed.

Lemma space_not_digit (c : ascii) : Char.is_space c = true -> Char.is_digit c = false.
Proof. destruct c as [[] [] [] [] [] [] [] []]; (reflexivity || discriminate). Qed.

Lemma takeWhile_run (f : ascii -> bool) (run rest : string) :
  Str.forallb f run = true ->
  match rest with String c _ => f c = false | EmptyString => True end ->
  Str.takeWhile f (run ++ rest)%string = run
  /\ Str.dropWhile f (run ++ rest)%string = rest.
Proof.
  intros Hrun Hrest. induction run as [|c run IH]; simpl.
  - destruct rest as [|c rest]; [auto|]. simpl. now rewrite Hrest.
  - simpl in Hrun. apply andb_true_iff in Hrun. destruct Hrun as [Hc Hrun].
    rewrite Hc. destruct (IH Hrun) as [-> ->]. auto.
Qed.

Lemma all_digits_inv (ds : string) :
  all_digits ds = true ->
  Str.forallb Char.is_digit ds = true /\ exists d ds', ds = String d ds'.
Proof.
  unfold all_digits. intros H. apply andb_true_iff in H. destruct H as [Hn Hd].
  split; [exact Hd|]. destruct ds; [discriminate|eauto].
Qed.

(** A run of digits that white space follows is what [(\d+)\s+] captures. *)
Lemma match_digits_space_found (pre ds post : string) :
  has_digit pre = false -> all_digits ds = true ->
  Re.starts_with_space post = true ->
  Re.match_digits_space (pre ++ ds ++ post)%string = Some ds.
Proof.
  intros Hpre Hds Hpost.
  apply all_digits_inv in Hds. destruct Hds as (Hd & d & ds' & ->).
  assert (Hrest : match post with String c _ => Char.is_digit c = false
                              | EmptyString => True end).
  { destruct post as [|c post]; [exact I|]. now apply space_not_digit. }
  destruct (takeWhile_run _ _ _ Hd Hrest) as [Ht Hdr].
  induction pre as [|c pre IH].
  - cbn [append] in *. cbn [Re.match_digits_space].
    simpl in Hd. apply andb_true_iff in Hd. destruct Hd as [Hd0 _].
    rewrite Hd0. cbn [append] in Ht, Hdr. rewrite Hdr, Hpost, Ht. reflexivity.
  - unfold has_digit in Hpre. simpl in Hpre.
    apply orb_false_iff in Hpre. destruct Hpre as [Hc Hpre].
    cbn [append Re.match_digits_space]. rewrite Hc. simpl. now apply IH.
Qed.

(** A run of digits that no white space follows is passed over. *)
Lemma match_digits_space_skipped (pre ds post : string) :
  has_digit pre = false -> Str.forallb Char.is_digit ds = true ->
  Re.starts_with_space post = false -> starts_with_digit post = false ->
  Re.match_digits_space (pre ++ ds ++ post)%string = Re.match_digits_space post.
Proof.
  intros Hpre Hd Hsp Hdg.
  assert (Hrest : match post with String c _ => Char.is_digit c = false
                              | EmptyString => True end).
  { destruct post as [|c post]; [exact I|exact Hdg]. }
  induction pre as [|c pre IH].
  - cbn [append]. clear Hpre.
    induction ds as [|d ds IHd]; [reflexivity|].
    pose proof (takeWhile_run _ _ _ Hd Hrest) as [_ Hdr].
    simpl in Hd. apply andb_true_iff in Hd. destruct Hd as [Hd0 Hd].
    cbn [append Re.match_digits_space]. cbn [append] in Hdr.
    rewrite Hdr, Hsp, andb_false_r. now apply IHd.
  - unfold has_digit in Hpre. simpl in Hpre.
    apply orb_false_iff in Hpre. destruct Hpre as [Hc Hpre].
    cbn [append Re.match_digits_space]. rewrite Hc. simpl. now apply IH.
Qed.

Lemma match_digits_space_none (s : string) :
  has_digit s = false -> Re.match_digits_space s = None.
Proof.
  unfold has_digit. induction s as [|c s IH]; [reflexivity|]. simpl.
  intros H. apply orb_false_iff in H. destruct H as [Hc Hs].
  rewrite Hc. simpl. now apply IH.
Qed.

(** The chat map has the twelve number words as keys, and finds
    [constructor] as well. *)
Lemma chat_quantityMap_keys (t : string) :
  Chat.quantityMap t
  = match Spec.number_of_word t with
    | Some n => Some (Chat.Num n)
    | None => if String.eqb t "constructor" then Some Chat.ObjectFn else None
    end.
Proof.
  unfold Chat.quantityMap, Spec.number_of_word, Spec.number_words.
  cbn [find fst snd].
  repeat (match goal with
          | |- context [String.eqb t ?w] => destruct (String.eqb t w); [reflexivity|]
          end).
  reflexivity.
Qed.

(** The voice map has the ten number words from one to ten as keys. *)
Lemma voice_quantityMap_keys (t : string) :
  Voice.quantityMap t
  = if JSet.has t Voice.quantityWords then Spec.number_of_word t else None.
Proof.
  unfold Voice.quantityMap, Spec.number_of_word, Spec.number_words, JSet.has,
    Voice.quantityWords.
  cbn [find fst snd List.existsb].
  repeat (match goal with
          | |- context [String.eqb t ?w] =>
              destruct (String.eqb t w); [reflexivity|]
          end).
  reflexivity.
Qed.

Lemma chat_word_quantity_not_below_one (tokens : list string) (v : Chat.value) :
  Chat.word_quantity tokens = Some v -> Chat.below_one v = false.
Proof.
  induction tokens as [|t tokens IH]; simpl; [discriminate|].
  destruct (Chat.quantityMap t) as [u|] eqn:E; [|exact IH].
  intros [= <-]. unfold Chat.quantityMap in E.
  repeat (match type of E with
          | context [String.eqb t ?w] =>
              destruct (String.eqb t w); [injection E as <-; reflexivity|]
          end).
  discriminate.
Qed.

Lemma chat_detect_quantity_rule (part : string) :
  Chat.detect_quantity part
  = if has_digit part
    then Chat.Num (at_least_one (parseInt (first_digit_run part)))
    else match Chat.word_quantity (Chat.tokenize part) with
         | Some v => v
         | None => Chat.Num 1
         end.
Proof.
  unfold Chat.detect_quantity. rewrite match_digits_first_run.
  destruct (has_digit part).
  - unfold Chat.below_one, at_least_one.
    destruct (Number.ltb (parseInt (first_digit_run part)) 1); reflexivity.
  - destruct (Chat.word_quantity (Chat.tokenize part)) as [v|] eqn:E; [|reflexivity].
    now rewrite (chat_word_quantity_not_below_one _ _ E).
Qed.

(** Without the token "constructor", the word that counts is the first
    number word from one to twelve. *)
Lemma chat_word_quantity_words (tokens : list string) :
  ~ In "constructor" tokens ->
  Chat.word_quantity tokens
  = option_map (fun n => Chat.Num (Fin n)) (Spec.first_number_word tokens).
Proof.
  induction tokens as [|t tokens IH]; intros Hc; simpl; [reflexivity|].
  rewrite chat_quantityMap_keys.
  destruct (Spec.number_of_word t) as [n|]; [reflexivity|].
  destruct (String.eqb_spec t "constructor") as [->|_].
  - exfalso. apply Hc. now left.
  - apply IH. intros H. apply Hc. now right.
Qed.

Lemma voice_word_quantity_rule (partTokens : JSet.t) :
  Voice.word_quantity partTokens
  = match find (fun word => JSet.has word partTokens) Voice.quantityWords with
    | Some word => Spec.number_of_word word
    | None => None
    end.
Proof.
  unfold Voice.word_quantity.
  destruct (find _ Voice.quantityWords) as [w|] eqn:E; [|reflexivity].
  apply find_some in E. destruct E as [Hin _].
  rewrite voice_quantityMap_keys.
  apply has_true_iff in Hin. now rewrite Hin.
Qed.

(** *** Numerals *)

Lemma digit_value (c : ascii) :
  Char.is_digit c = true -> (0 <= Z.of_nat (Char.code c - 48) <= 9)%Z.
Proof.
  unfold Char.is_digit, Char.between. intros H.
  apply andb_true_iff in H. destruct H as [H1 H2].
  apply Nat.leb_le in H1. apply Nat.leb_le in H2. lia.
Qed.

Lemma decimal_from_bound (s : string) (acc : Z) :
  (0 <= acc)%Z ->
  (0 <= decimal_from acc s < (acc + 1) * 10 ^ Z.of_nat (String.length s))%Z.
Proof.
  revert acc. induction s as [|c r IH]; intros acc Hacc.
  - simpl. lia.
  - cbn [decimal_from String.length]. rewrite Nat2Z.inj_succ, Z.pow_succ_r by lia.
    assert (Hp : (0 < 10 ^ Z.of_nat (String.length r))%Z)
      by (apply Z.pow_pos_nonneg; lia).
    destruct (Char.is_digit c) eqn:Hc.
    + pose proof (digit_value c Hc) as Hd.
      specialize (IH (10 * acc + Z.of_nat (Char.code c - 48))%Z ltac:(lia)).
      nia.
    + nia.
Qed.

(** A numeral of up to 15 digits is read exactly. *)
Lemma parseInt_exact (ds : string) :
  String.length ds <= 15 -> parseInt ds = Fin (decimal ds).
Proof.
  intros H. unfold parseInt. apply round_small.
  pose proof (decimal_from_bound ds 0%Z ltac:(lia)) as Hb. fold (decimal ds) in Hb.
  assert (Hle : (10 ^ Z.of_nat (String.length ds) <= 10 ^ 15)%Z)
    by (apply Z.pow_le_mono_r; lia).
  assert (H15 : (10 ^ 15 < 2 ^ 53)%Z) by reflexivity.
  lia.
Qed.

(** Counterexample to C4 as stated: the voice parser knows the number
    words up to ten only, so "twelve apples" gets quantity 1 where the
    rule of the claim gives 12. *)
Lemma C4_voice_stops_at_ten :
  Voice.detect_quantity "twelve apples"
    (JSet.of_list (Voice.tokenize "twelve apples")) = 1%Z
  /\ Spec.quantity "twelve apples" = 12%Z.
Proof.
  split; vm_compute; reflexivity.
Qed.

(** C4, amended.  Chat parser: the quantity is the number that
    [parseInt] reads from the first run of digits of the fragment,
    standing alone or inside a word: its decimal value, exactly so for
    a run of up to 15 digits; a value of 0 is raised to 1.  A fragment
    without digit (and without the token "constructor") takes the
    value of its first token that is a number word from one to twelve;
    otherwise the quantity is 1.  Voice parser: the quantity is the
    number read from the first run of digits that white space follows,
    when it is 1 or more, a run that nothing or another character
    follows being passed over; failing a numeral, it is the value of
    the first of the words one, two, ..., ten, in this order, found
    among the tokens of the fragment; otherwise 1.  In both parsers
    "2 three apples" has quantity 2. *)
Theorem C4_quantity_rules :
  (forall part,
      has_digit part = true ->
      Chat.detect_quantity part
      = Chat.Num (at_least_one (parseInt (first_digit_run part))))
  /\ (forall ds, String.length ds <= 15 -> parseInt ds = Fin (decimal ds))
  /\ (forall part,
        has_digit part = false ->
        ~ In "constructor" (Chat.tokenize part) ->
        Chat.detect_quantity part
        = Chat.Num
            (Fin match Spec.first_number_word (Chat.tokenize part) with
                 | Some n => n
                 | None => 1%Z
                 end))
  /\ (forall pre ds post partTokens,
        has_digit pre = false -> all_digits ds = true ->
        Re.starts_with_space post = true ->
        (1 <= decimal ds)%Z ->
        Voice.detect_quantity (pre ++ ds ++ post)%string partTokens = parseInt ds)
  /\ (forall pre ds post partTokens,
        has_digit pre = false -> Str.forallb Char.is_digit ds = true ->
        Re.starts_with_space post = false -> starts_with_digit post = false ->
        Voice.detect_quantity (pre ++ ds ++ post)%string partTokens
        = Voice.detect_quantity post partTokens)
  /\ (forall part partTokens,
        has_digit part = false ->
        Voice.detect_quantity part partTokens
        = Fin match find (fun word => JSet.has word partTokens) Voice.quantityWords with
              | Some word =>
                  match Spec.number_of_word word with Some n => n | None => 1%Z end
              | None => 1%Z
              end)
  /\ Voice.detect_quantity "2 three apples"
       (JSet.of_list (Voice.tokenize "2 three apples")) = 2%Z
  /\ Chat.detect_quantity "2 three apples" = Chat.Num 2.
Proof.
  refine (conj _ (conj _ (conj _ (conj _ (conj _ (conj _ (conj _ _))))))).
  - intros part H. now rewrite chat_detect_quantity_rule, H.
  - apply parseInt_exact.
  - intros part Hd Hc.
    rewrite chat_detect_quantity_rule, Hd, (chat_word_quantity_words _ Hc).
    destruct (Spec.first_number_word (Chat.tokenize part)); reflexivity.
  - intros pre ds post partTokens Hpre Hds Hpost _. unfold Voice.detect_quantity.
    now rewrite (match_digits_space_found pre ds post Hpre Hds Hpost).
  - intros pre ds post partTokens Hpre Hds Hsp Hdg. unfold Voice.detect_quantity.
    now rewrite (match_digits_space_skipped pre ds post Hpre Hds Hsp Hdg).
  - intros part partTokens Hpart. unfold Voice.detect_quantity.
    rewrite (match_digits_space_none part Hpart), voice_word_quantity_rule.
    destruct (find _ Voice.quantityWords) as [w|]; [|reflexivity].
    destruct (Spec.number_of_word w); reflexivity.
  - vm_compute. reflexivity.
  - vm_compute. reflexivity.
Qed.

Lemma C4_quantity_rules_witness :
  Chat.detect_quantity "pack of12 eggs" = Chat.Num 12
  /\ parseInt "000123456789012" = 123456789012%Z
  /\ Chat.detect_quantity "Eleven eggs" = Chat.Num 11
  /\ Voice.detect_quantity "add 12 eggs" [] = 12%Z
  /\ Voice.detect_quantity "eggs 12" ["three"] = Voice.detect_quantity "" ["three"]
  /\ Voice.detect_quantity "ten or two eggs" ["ten"; "or"; "two"; "egg"] = 2%Z.
Proof.
  destruct C4_quantity_rules as (Hnum & Hexact & Hwords & Hfound & Hskip & Hword & _).
  refine (conj _ (conj _ (conj _ (conj _ (conj _ _))))).
  - now rewrite (Hnum "pack of12 eggs" eq_refl).
  - rewrite (Hexact "000123456789012"); [reflexivity|simpl; lia].
  - rewrite (Hwords "Eleven eggs" eq_refl); [reflexivity|].
    vm_compute. intros [E|[E|[]]]; discriminate E.
  - apply (Hfound "add " "12" " eggs" []); try reflexivity. vm_compute. discriminate.
  - apply (Hskip "eggs " "12" "" ["three"]); reflexivity.
  - now rewrite (Hword "ten or two eggs" ["ten"; "or"; "two"; "egg"] eq_refl).
Defined.

(** ** Quantities of the chat parser *)

Lemma chat_word_quantity_values (tokens : list string) (v : Chat.value) :
  Chat.word_quantity tokens = Some v ->
  chat_quantity_ok v \/ (v = Chat.ObjectFn /\ In "constructor" tokens).
Proof.
  induction tokens as [|t tokens IH]; simpl; [discriminate|].
  destruct (Chat.quantityMap t) as [u|] eqn:E.
  - intros [= <-]. rewrite chat_quantityMap_keys in E.
    destruct (Spec.number_of_word t) as [n|] eqn:En.
    + injection E as <-. left. simpl.
      unfold Spec.number_of_word in En.
      destruct (find _ Spec.number_words) as [[w k]|] eqn:Ef; [|discriminate En].
      injection En as <-. apply find_some in Ef. destruct Ef as [Hin _].
      simpl in Hin.
      repeat (destruct Hin as [[= _ <-]|Hin]; [lia|]). contradiction.
    + destruct (String.eqb_spec t "constructor") as [->|]; [|discriminate E].
      injection E as <-. right. auto.
  - intros H. destruct (IH H) as [Hok|[Hv Hin]]; auto.
Qed.

Lemma at_least_one_ok (n : number) : chat_quantity_ok (Chat.Num (at_least_one n)).
Proof.
  unfold at_least_one. destruct n as [x|]; simpl; [|exact I].
  destruct (Z.ltb_spec x 1); simpl; lia.
Qed.

(** The quantity of a fragment is a number not below 1, unless the
    fragment has no digit and its first token that the quantity map
    knows is "constructor". *)
Lemma chat_detect_quantity_values (part : string) :
  chat_quantity_ok (Chat.detect_quantity part)
  \/ (Chat.detect_quantity part = Chat.ObjectFn
      /\ has_digit part = false /\ In "constructor" (Chat.tokenize part)).
Proof.
  rewrite chat_detect_quantity_rule.
  destruct (has_digit part).
  - left. apply at_least_one_ok.
  - destruct (Chat.word_quantity (Chat.tokenize part)) as [v|] eqn:E.
    + destruct (chat_word_quantity_values _ _ E) as [Hok|[-> Hin]]; auto.
    + left. simpl. lia.
Qed.

Lemma round_ok (n : Z) :
  (1 <= n)%Z -> chat_quantity_ok (Chat.Num (Number.round n)).
Proof.
  intros Hn. unfold Number.round.
  destruct (Z.ltb_spec n (2 ^ 53)) as [|Hbig]; [exact Hn|].
  set (e := (Z.log2 n - 52)%Z).
  assert (He : (0 <= e)%Z).
  { assert (53 <= Z.log2 n)%Z by (apply Z.log2_le_pow2; lia). unfold e. lia. }
  assert (Hq : (1 <= Z.shiftr n e)%Z).
  { rewrite Z.shiftr_div_pow2 by exact He.
    apply Z.div_le_lower_bound; [apply Z.pow_pos_nonneg; lia|].
    rewrite Z.mul_1_r.
    transitivity (2 ^ Z.log2 n)%Z.
    - apply Z.pow_le_mono_r; unfold e; lia.
    - apply Z.log2_spec. lia. }
  match goal with
  | |- chat_quantity_ok (Chat.Num (if (Z.shiftl ?q e <? _)%Z then _ else _)) =>
      assert (Hq' : (1 <= q)%Z)
        by (repeat match goal with
                   | |- context [if ?b then _ else _] => destruct b
                   end; lia);
      destruct (Z.shiftl q e <? 2 ^ 1024)%Z; [|exact I];
      cbn [chat_quantity_ok]; rewrite Z.shiftl_mul_pow2 by exact He;
      assert (0 < 2 ^ e)%Z by (apply Z.pow_pos_nonneg; lia); nia
  end.
Qed.

Lemma plus_ok (a q : Chat.value) :
  a = Chat.Num 0 \/ chat_quantity_ok a ->
  chat_quantity_ok q -> chat_quantity_ok (Chat.plus a q).
Proof.
  intros Ha Hq.
  destruct q as [[y|]| |]; try contradiction; simpl in Hq.
  - destruct Ha as [->|Ha].
    + cbn [Chat.plus Number.add]. apply round_ok. lia.
    + destruct a as [[x|]| |]; try contradiction; simpl in Ha; [|exact I].
      cbn [Chat.plus Number.add]. apply round_ok. lia.
  - destruct Ha as [->|Ha]; [exact I|].
    destruct a as [[x|]| |]; try contradiction; exact I.
Qed.

Lemma fold_plus_ok (qs : list Chat.value) (a : Chat.value) :
  chat_quantity_ok a -> Forall chat_quantity_ok qs ->
  chat_quantity_ok (fold_left Chat.plus qs a).
Proof.
  intros Ha H. revert a Ha. induction H as [|q qs Hq _ IH]; intros a Ha; simpl.
  - exact Ha.
  - apply IH. apply plus_ok; auto.
Qed.

(** Where no fragment takes its quantity from the token "constructor",
    every item of the chat parser has a number not below 1 as
    quantity. *)
Lemma chat_quantities_at_least_one (products : list Product) (utterance : string) :
  Forall (fun part => has_digit part = true
                      \/ ~ In "constructor" (Chat.tokenize part))
    (Chat.split_parts utterance) ->
  Forall (fun item => chat_quantity_ok (Chat.quantity item))
    (Chat.items (Chat.parseMultipleItems products utterance)).
Proof.
  intros Hparts. apply Forall_forall. intros item Hitem.
  apply chat_item_inv in Hitem. destruct Hitem as (k & _ & Hin & ->).
  set (ms := chat_matches products (Chat.split_parts utterance)) in *.
  assert (Hms : Forall (fun m => chat_quantity_ok (snd m)) ms).
  { apply Forall_forall. intros m Hm. unfold ms, chat_matches in Hm.
    apply in_flat_map in Hm. destruct Hm as (part & Hpart & Hm).
    destruct (chat_match products part) as [m'|] eqn:E; simpl in Hm; [|contradiction].
    destruct Hm as [<-|[]].
    apply chat_match_some in E. destruct E as (_ & _ & _ & _ & ->).
    rewrite Forall_forall in Hparts. specialize (Hparts part Hpart).
    destruct (chat_detect_quantity_values part) as [Hok|(_ & Hd & Hc)]; [exact Hok|].
    destruct Hparts as [Hp|Hp]; [congruence|contradiction]. }
  assert (Hqs : Forall chat_quantity_ok (quantities_for k ms)).
  { unfold quantities_for. apply Forall_map, Forall_forall. intros m Hm.
    apply filter_In in Hm. rewrite Forall_forall in Hms. now apply Hms. }
  assert (Hne : quantities_for k ms <> []).
  { unfold quantities_for.
    apply in_map_iff in Hin. destruct Hin as (m & Em & Hm).
    assert (Hf : In m (filter (fun m0 => Z.eqb (fst m0) k) ms)).
    { apply filter_In. split; [exact Hm|]. now apply Z.eqb_eq. }
    destruct (filter _ ms); [contradiction|discriminate]. }
  unfold total. destruct (quantities_for k ms) as [|q qs]; [contradiction|].
  inversion Hqs as [|? ? Hq Hrest]; subst. cbn [fold_left].
  apply fold_plus_ok; [|exact Hrest].
  apply plus_ok; [now left|exact Hq].
Qed.

(** The token "constructor" in a fragment without digit leaves the
    number domain: the quantity of the item is then a string. *)
Lemma chat_constructor_quantity :
  Chat.items (Chat.parseMultipleItems (only_apples 1 "fruits") "constructor apples")
  = [ {| Chat.productId := 1; Chat.quantity := Chat.Text |} ].
Proof. vm_compute. reflexivity. Qed.

(** ** Splitting *)

Section SplitFacts.

Variable m : option ascii -> string -> option nat.

Lemma split_by_nil (prev : option ascii) :
  split_by m prev EmptyString = [EmptyString].
Proof. now simp split_by. Qed.

Lemma split_by_cons (prev : option ascii) (c : ascii) (r : string) :
  split_by m prev (String c r)
  = match m prev (String c r) with
    | Some (S n) =>
        EmptyString :: split_by m (Str.last (Some c) (Str.take n r)) (Str.drop n r)
    | _ => Str.cons_head c (split_by m (Some c) r)
    end.
Proof.
  simp split_by. destruct (m prev (String c r)) as [[|n]|]; reflexivity.
Qed.

(** The pieces are made of characters of the input. *)
Lemma split_by_chars (f : ascii -> bool) (n : nat) :
  forall (s : string) (prev : option ascii),
    String.length s <= n ->
    Str.forallb f s = true ->
    Forall (fun piece => Str.forallb f piece = true) (split_by m prev s).
Proof.
  induction n as [|n IH]; intros s prev Hlen Hs.
  - destruct s; [|simpl in Hlen; lia]. rewrite split_by_nil. now repeat constructor.
  - destruct s as [|c r]; [rewrite split_by_nil; now repeat constructor|].
    simpl in Hlen, Hs. apply andb_true_iff in Hs. destruct Hs as [Hc Hr].
    rewrite split_by_cons.
    assert (Hhead : Forall (fun piece => Str.forallb f piece = true)
                      (Str.cons_head c (split_by m (Some c) r))).
    { specialize (IH r (Some c) ltac:(lia) Hr).
      destruct (split_by m (Some c) r) as [|h t]; simpl.
      - repeat constructor. simpl. now rewrite Hc.
      - inversion IH; subst. constructor; [simpl; now rewrite Hc|assumption]. }
    destruct (m prev (String c r)) as [[|k]|]; try exact Hhead.
    constructor; [reflexivity|].
    apply IH.
    + pose proof (drop_length_le k r). lia.
    + clear -Hr. revert r Hr. induction k as [|k IHk]; intros [|x r] Hr; simpl; auto.
      simpl in Hr. apply andb_true_iff in Hr. now apply IHk.
Qed.

End SplitFacts.

(** ** White space and [trim] *)

Section TrimFacts.

Local Open Scope string_scope.

Lemma forallb_append (f : ascii -> bool) (a b : string) :
  Str.forallb f (a ++ b) = Str.forallb f a && Str.forallb f b.
Proof.
  induction a as [|c a IH]; simpl; [reflexivity|].
  now rewrite IH, andb_assoc.
Qed.

Lemma takeWhile_dropWhile (f : ascii -> bool) (s : string) :
  Str.takeWhile f s ++ Str.dropWhile f s = s.
Proof.
  induction s as [|c s IH]; simpl; [reflexivity|].
  destruct (f c); simpl; [now rewrite IH|reflexivity].
Qed.

Lemma takeWhile_forallb (f : ascii -> bool) (s : string) :
  Str.forallb f (Str.takeWhile f s) = true.
Proof.
  induction s as [|c s IH]; simpl; [reflexivity|].
  destruct (f c) eqn:E; simpl; [now rewrite E|reflexivity].
Qed.

Lemma dropWhile_head (f : ascii -> bool) (s : string) :
  match Str.dropWhile f s with
  | String c _ => f c = false
  | EmptyString => True
  end.
Proof.
  induction s as [|c s IH]; simpl; [exact I|].
  destruct (f c) eqn:E; [exact IH|exact E].
Qed.

Lemma trimEnd_spaces (w : string) :
  Str.forallb Char.is_space w = true -> Str.trimEnd w = "".
Proof.
  induction w as [|c w IH]; simpl; [reflexivity|].
  intros H. apply andb_true_iff in H. destruct H as [Hc Hw].
  now rewrite (IH Hw), Hc.
Qed.

Lemma trimEnd_append_spaces (s w : string) :
  Str.forallb Char.is_space w = true -> Str.trimEnd (s ++ w) = Str.trimEnd s.
Proof.
  intros Hw. induction s as [|c s IH]; simpl.
  - now apply trimEnd_spaces.
  - now rewrite IH.
Qed.

Lemma trimStart_spaces_append (w s : string) :
  Str.forallb Char.is_space w = true -> Str.trimStart (w ++ s) = Str.trimStart s.
Proof.
  unfold Str.trimStart. induction w as [|c w IH]; simpl; [reflexivity|].
  intros H. apply andb_true_iff in H. destruct H as [Hc Hw].
  rewrite Hc. now apply IH.
Qed.

Lemma trimStart_append_spaces (s w : string) :
  Str.forallb Char.is_space w = true ->
  exists w', Str.forallb Char.is_space w' = true
             /\ Str.trimStart (s ++ w) = Str.trimStart s ++ w'.
Proof.
  intros Hw. unfold Str.trimStart. induction s as [|c s IH]; simpl.
  - exists "". split; [reflexivity|].
    clear -Hw. induction w as [|c w IH]; simpl; [reflexivity|].
    simpl in Hw. apply andb_true_iff in Hw. destruct Hw as [Hc Hw].
    rewrite Hc. now apply IH.
  - destruct (Char.is_space c); [exact IH|].
    exists w. split; [exact Hw|reflexivity].
Qed.

(** White space around a fragment does not survive [trim]. *)
Lemma trim_padding (w1 s w2 : string) :
  Str.forallb Char.is_space w1 = true -> Str.forallb Char.is_space w2 = true ->
  Str.trim (w1 ++ s ++ w2) = Str.trim s.
Proof.
  intros H1 H2. unfold Str.trim.
  rewrite (trimStart_spaces_append _ _ H1).
  destruct (trimStart_append_spaces s w2 H2) as (w' & Hw' & ->).
  now apply trimEnd_append_spaces.
Qed.

Lemma trim_spaces (w : string) :
  Str.forallb Char.is_space w = true -> Str.trim w = "".
Proof.
  intros H. rewrite <- (append_empty_r w).
  change (w ++ "") with (w ++ "" ++ "").
  rewrite (trim_padding w "" "" H eq_refl). reflexivity.
Qed.


Lemma trimEnd_head (c : ascii) (s : string) :
  Char.is_space c = false -> exists t, Str.trimEnd (String c s) = String c t.
Proof.
  intros Hc. simpl. destruct (Str.trimEnd s); rewrite ?Hc; eauto.
Qed.


End TrimFacts.

(** ** The separators of the chat parser *)

Lemma upper_not_space (c : ascii) : Char.is_upper c = true -> Char.is_space c = false.
Proof. destruct c as [[] [] [] [] [] [] [] []]; (reflexivity || discriminate). Qed.

Lemma eqb_nocase_space (p c : ascii) :
  Char.eqb_nocase p c = true -> Char.is_space p = false -> Char.is_space c = false.
Proof.
  unfold Char.eqb_nocase. intros H Hp.
  apply orb_true_iff in H. destruct H as [H|H].
  - apply Ascii.eqb_eq in H. now subst.
  - apply andb_true_iff in H. destruct H as [H _]. now apply upper_not_space.
Qed.

Lemma startsWith_nocase_length (w s : string) :
  Str.startsWith_nocase w s = true -> String.length w <= String.length s.
Proof.
  revert s; induction w as [|a w IH]; intros [|c s] H; simpl in *;
    try lia; try discriminate.
  apply andb_true_iff in H. destruct H as [_ H]. apply IH in H. lia.
Qed.

Lemma symbol_some (p : ascii) (s : string) (n : nat) :
  Re.symbol p s = Some n -> exists r, s = String p r /\ n = 1.
Proof.
  destruct s as [|c r]; simpl; [discriminate|].
  destruct (Ascii.eqb_spec p c); [|discriminate].
  intros [= <-]. subst. eauto.
Qed.

Lemma word_some (w : string) (prev : option ascii) (s : string) (n : nat) :
  Re.word w prev s = Some n ->
  n = String.length w
  /\ Re.word_boundary prev (Str.head s) = true
  /\ Str.startsWith_nocase w s = true
  /\ Re.word_boundary (Str.last prev (Str.take n s)) (Str.head (Str.drop n s)) = true.
Proof.
  unfold Re.word.
  destruct (Re.word_boundary prev (Str.head s)); [|discriminate].
  destruct (Str.startsWith_nocase w s); [|discriminate].
  destruct (Re.word_boundary _ _) eqn:E; [|discriminate].
  intros [= <-]. auto.
Qed.

Lemma word_some_shape (a : ascii) (w : string) (prev : option ascii)
  (s : string) (n : nat) :
  Char.is_space a = false ->
  Re.word (String a w) prev s = Some n ->
  exists c r k, s = String c r /\ Char.is_space c = false
                /\ n = S k /\ k <= String.length r.
Proof.
  intros Ha H. apply word_some in H. destruct H as (-> & _ & H & _).
  pose proof (startsWith_nocase_length _ _ H) as Hl.
  destruct s as [|c r]; [discriminate|].
  simpl in H. apply andb_true_iff in H. destruct H as [Hc _].
  exists c, r, (String.length w). simpl in Hl.
  repeat split; [|lia]. now apply (eqb_nocase_space a c).
Qed.

(** A separator starts with a character that is not white space and
    takes at least that character. *)
Lemma separator_some (prev : option ascii) (s : string) (n : nat) :
  Re.separator prev s = Some n ->
  exists c r k, s = String c r /\ Char.is_space c = false
                /\ n = S k /\ k <= String.length r.
Proof.
  assert (Hsym : forall p, Char.is_space p = false -> Re.symbol p s = Some n ->
            exists c r k, s = String c r /\ Char.is_space c = false
                          /\ n = S k /\ k <= String.length r).
  { intros p Hp H. apply symbol_some in H. destruct H as (r & -> & ->).
    exists p, r, 0. repeat split; [exact Hp|lia]. }
  unfold Re.separator, Re.orelse.
  destruct (Re.symbol "," s) eqn:E1; [intros [= <-]; now apply (Hsym ","%char)|].
  destruct (Re.word "and" prev s) eqn:E2;
    [intros [= <-]; now apply (word_some_shape "a"%char "nd" _ _ _ eq_refl E2)|].
  destruct (Re.symbol "&" s) eqn:E3; [intros [= <-]; now apply (Hsym "&"%char)|].
  destruct (Re.symbol "+" s) eqn:E4; [intros [= <-]; now apply (Hsym "+"%char)|].
  destruct (Re.word "plus" prev s) eqn:E5;
    [intros [= <-]; now apply (word_some_shape "p"%char "lus" _ _ _ eq_refl E5)|].
  intros E6. now apply (word_some_shape "w"%char "ith" _ _ _ eq_refl E6).
Qed.

Lemma separator_at_space (prev : option ascii) (c : ascii) (r : string) :
  Char.is_space c = true -> Re.separator prev (String c r) = None.
Proof.
  intros Hc. destruct (Re.separator prev (String c r)) as [n|] eqn:E; [|reflexivity].
  apply separator_some in E. destruct E as (c' & r' & k & [= <- <-] & Hc' & _).
  congruence.
Qed.

Lemma chat_separator_at_space (prev : option ascii) (c : ascii) (r : string) :
  Char.is_space c = true ->
  Re.chat_separator prev (String c r) = option_map S (Re.chat_separator (Some c) r).
Proof.
  intros Hc. unfold Re.chat_separator.
  cbn [Str.takeWhile Str.dropWhile]. rewrite Hc. cbn [Str.last].
  destruct (Re.separator _ _); reflexivity.
Qed.

Lemma chat_separator_at_other (prev : option ascii) (c : ascii) (r : string) :
  Char.is_space c = false ->
  Re.chat_separator prev (String c r)
  = match Re.separator prev (String c r) with
    | Some n =>
        Some (n + String.length
                    (Str.takeWhile Char.is_space (Str.drop n (String c r))))
    | None => None
    end.
Proof.
  intros Hc. unfold Re.chat_separator.
  cbn [Str.takeWhile Str.dropWhile]. rewrite Hc. cbn [Str.last String.length].
  destruct (Re.separator _ _); reflexivity.
Qed.

Lemma chat_separator_some (prev : option ascii) (s : string) (n : nat) :
  Re.chat_separator prev s = Some n ->
  exists c r k, s = String c r /\ n = S k.
Proof.
  unfold Re.chat_separator.
  destruct (Re.separator _ _) as [j|] eqn:E; [|discriminate].
  apply separator_some in E. destruct E as (c' & r' & k & E & _ & -> & _).
  intros [= <-].
  destruct s as [|c r]; [discriminate|].
  exists c, r. rewrite Nat.add_succ_r. simpl. eauto.
Qed.

(** ** White space around a separator does not count *)

Lemma drop_add (a b : nat) (s : string) :
  Str.drop (a + b) s = Str.drop b (Str.drop a s).
Proof.
  revert s; induction a as [|a IH]; intros s; simpl; [reflexivity|].
  destruct s as [|c s]; [now destruct b|apply IH].
Qed.

Lemma take_add (a b : nat) (s : string) :
  Str.take (a + b) s = (Str.take a s ++ Str.take b (Str.drop a s))%string.
Proof.
  revert s; induction a as [|a IH]; intros s; simpl; [reflexivity|].
  destruct s as [|c s]; simpl; [now destruct b|now rewrite IH].
Qed.

Lemma last_append (d : option ascii) (a b : string) :
  Str.last d (a ++ b)%string = Str.last (Str.last d a) b.
Proof. revert d; induction a as [|c a IH]; intros d; simpl; auto. Qed.

Lemma split_by_nonempty (m : option ascii -> string -> option nat)
  (prev : option ascii) (s : string) :
  exists h t, split_by m prev s = h :: t.
Proof.
  destruct s as [|c r]; [rewrite split_by_nil; eauto|].
  rewrite split_by_cons.
  destruct (m prev (String c r)) as [[|k]|]; eauto;
    destruct (split_by m (Some c) r); simpl; eauto.
Qed.

Lemma cons_head_prepend (c : ascii) (w : string) (pieces : list string) :
  Str.cons_head c (prepend w pieces) = prepend (String c w) pieces.
Proof. destruct pieces; reflexivity. Qed.

(** Splitting on the bare separators walks through a run of white space. *)
Lemma split_separator_spaces (w rest : string) (prev : option ascii) :
  Str.forallb Char.is_space w = true ->
  split_by Re.separator prev (w ++ rest)%string
  = prepend w (split_by Re.separator (Str.last prev w) rest).
Proof.
  revert prev; induction w as [|c w IH]; intros prev Hw.
  - simpl. destruct (split_by_nonempty Re.separator prev rest) as (h & t & ->).
    reflexivity.
  - simpl in Hw. apply andb_true_iff in Hw. destruct Hw as [Hc Hw].
    cbn [append Str.last]. rewrite split_by_cons, (separator_at_space _ _ _ Hc).
    rewrite (IH _ Hw). apply cons_head_prepend.
Qed.

Lemma same_fragments_cons_head (c : ascii) (l1 l2 : list string) :
  same_fragments l1 l2 ->
  same_fragments (Str.cons_head c l1) (Str.cons_head c l2).
Proof.
  intros (h & t1 & t2 & w & -> & -> & Hw & Hn).
  exists (String c h), t1, t2, w. auto.
Qed.

Lemma split_chat_separator_same (n : nat) :
  forall (s : string) (prev : option ascii),
    String.length s <= n ->
    same_fragments (split_by Re.chat_separator prev s)
      (split_by Re.separator prev s).
Proof.
  induction n as [|n IH]; intros s prev Hlen.
  - destruct s; [|simpl in Hlen; lia]. rewrite !split_by_nil.
    exists EmptyString, [], [], EmptyString. auto.
  - destruct s as [|c r].
    { rewrite !split_by_nil. exists EmptyString, [], [], EmptyString. auto. }
    simpl in Hlen. rewrite !split_by_cons.
    destruct (Char.is_space c) eqn:Hc.
    + rewrite (chat_separator_at_space _ _ _ Hc), (separator_at_space _ _ _ Hc).
      pose proof (IH r (Some c) ltac:(lia)) as Hr.
      destruct (Re.chat_separator (Some c) r) as [k|] eqn:Ek; cbn [option_map].
      * destruct (chat_separator_some _ _ _ Ek) as (c' & r' & k' & -> & ->).
        rewrite split_by_cons, Ek in Hr. cbn [Str.take Str.drop Str.last].
        destruct Hr as (h & t1 & t2 & w & [= <- <-] & -> & Hw & Hn).
        refine (ex_intro _ EmptyString (ex_intro _ _ (ex_intro _ t2
                 (ex_intro _ (String c w)
                    (conj eq_refl (conj eq_refl (conj _ Hn))))))).
        simpl. now rewrite Hc, Hw.
      * now apply same_fragments_cons_head.
    + rewrite (chat_separator_at_other _ _ _ Hc).
      destruct (Re.separator prev (String c r)) as [j|] eqn:Ej.
      * destruct (separator_some _ _ _ Ej) as (c0 & r0 & j' & [= <- <-] & _ & -> & Hj).
        cbn [Str.drop Nat.add].
        set (d := Str.drop j' r).
        set (w' := Str.takeWhile Char.is_space d).
        set (rest := Str.dropWhile Char.is_space d).
        assert (Hd : d = (w' ++ rest)%string)
          by (symmetry; apply takeWhile_dropWhile).
        assert (Hw' : Str.forallb Char.is_space w' = true)
          by apply takeWhile_forallb.
        assert (Hdrop : Str.drop (j' + String.length w') r = rest).
        { rewrite drop_add. fold d. rewrite Hd. apply drop_append. }
        assert (Htake : Str.take (j' + String.length w') r
                        = (Str.take j' r ++ w')%string).
        { rewrite take_add. fold d. rewrite Hd. now rewrite take_append. }
        rewrite Hdrop, Htake, last_append.
        assert (Hbare : split_by Re.separator (Str.last (Some c) (Str.take j' r)) d
                        = prepend w'
                            (split_by Re.separator
                               (Str.last (Str.last (Some c) (Str.take j' r)) w')
                               rest)).
        { rewrite Hd at 1. now apply split_separator_spaces. }
        rewrite Hbare.
        assert (Hrest : String.length rest <= n).
        { rewrite <- Hdrop. pose proof (drop_length_le (j' + String.length w') r). lia. }
        destruct (IH rest (Str.last (Str.last (Some c) (Str.take j' r)) w') Hrest)
          as (h & t1 & t2 & w & -> & -> & Hw & Hn).
        exists EmptyString, (h :: t1), ((w' ++ h ++ w)%string :: t2), EmptyString.
        repeat split.
        unfold normalize in *. cbn [List.map].
        rewrite (trim_padding w' h w Hw' Hw). cbn [filter]. now rewrite Hn.
      * apply same_fragments_cons_head. apply IH. lia.
Qed.

(** The fragments of the chat parser are those of a split on the bare
    separators, trimmed, the empty ones dropped. *)
Lemma chat_split_parts_segments (s : string) :
  Chat.split_parts s = Spec.segments s.
Proof.
  unfold Chat.split_parts, Spec.segments, split.
  destruct (split_chat_separator_same (String.length s) s None (le_n _))
    as (h & t1 & t2 & w & -> & -> & Hw & Hn).
  unfold normalize in Hn. cbn [List.map filter].
  pose proof (trim_padding EmptyString h w eq_refl Hw) as Ht.
  cbn [append] in Ht. rewrite Ht, Hn. reflexivity.
Qed.

(** ** Which texts are separators *)

Lemma nocase_lower (p c : ascii) :
  Char.eqb_nocase p c = true -> Char.is_lower p = true -> Char.toLowerCase c = p.
Proof.
  unfold Char.eqb_nocase. intros H Hp.
  apply orb_true_iff in H. destruct H as [H|H].
  - apply Ascii.eqb_eq in H. subst c.
    destruct p as [[] [] [] [] [] [] [] []]; (reflexivity || discriminate).
  - apply andb_true_iff in H. destruct H as [_ H].
    apply Ascii.eqb_eq in H. now symmetry.
Qed.

Lemma startsWith_nocase_lower (w s : string) :
  Str.forallb Char.is_lower w = true ->
  Str.startsWith_nocase w s = true ->
  Str.toLowerCase (Str.take (String.length w) s) = w.
Proof.
  revert s; induction w as [|a w IH]; intros s Hw H; [reflexivity|].
  destruct s as [|c s]; [discriminate|]. simpl in *.
  apply andb_true_iff in Hw. destruct Hw as [Ha Hw].
  apply andb_true_iff in H. destruct H as [Hc H].
  unfold Str.toLowerCase in *; simpl.
  now rewrite (nocase_lower a c Hc Ha), (IH s Hw H).
Qed.


Lemma separator_symbol (prev : option ascii) (c : ascii) (r : string) :
  In c separator_symbols -> Re.separator prev (String c r) = Some 1.
Proof.
  intros [<-|[<-|[<-|[]]]]; unfold Re.separator, Re.orelse, Re.word; simpl;
    rewrite ?andb_false_r; reflexivity.
Qed.

Lemma word_none (w : string) (prev : option ascii) (s : string) :
  Str.startsWith_nocase w s = false -> Re.word w prev s = None.
Proof.
  intros H. unfold Re.word. now rewrite H, andb_false_r.
Qed.

Lemma word_found (w : string) (prev : option ascii) (s : string) :
  Re.word_boundary prev (Str.head s) = true ->
  Str.startsWith_nocase w s = true ->
  Re.word_boundary (Str.last prev (Str.take (String.length w) s))
    (Str.head (Str.drop (String.length w) s)) = true ->
  Re.word w prev s = Some (String.length w).
Proof.
  intros H1 H2 H3. unfold Re.word. now rewrite H1, H2, H3.
Qed.

Lemma lower_letter_nocase (c : ascii) :
  Char.is_lower (Char.toLowerCase c) = true ->
  Char.eqb_nocase (Char.toLowerCase c) c = true /\ Char.is_word c = true.
Proof.
  destruct c as [[] [] [] [] [] [] [] []]; vm_compute;
    first [split; reflexivity | intros H; discriminate H].
Qed.

Lemma lower_letter_is_word (c : ascii) :
  Char.is_lower (Char.toLowerCase c) = true -> Char.is_word c = true.
Proof. intros H. now apply lower_letter_nocase. Qed.

Lemma separator_word_shape (w : string) :
  In (Str.toLowerCase w) separator_words ->
  exists c w', w = String c w'
               /\ Re.is_word_opt (Str.last (Some c) w') = true.
Proof.
  assert (Hall : forall v d, Str.forallb Char.is_lower (Str.toLowerCase v) = true ->
                             Re.is_word_opt d = true ->
                             Re.is_word_opt (Str.last d v) = true).
  { induction v as [|x v IH]; intros d Hv Hd; [exact Hd|].
    simpl in Hv. apply andb_true_iff in Hv. destruct Hv as [Hx Hv].
    simpl. apply IH; [exact Hv|]. simpl. now apply lower_letter_is_word. }
  intros Hin.
  assert (Hl : Str.forallb Char.is_lower (Str.toLowerCase w) = true).
  { destruct Hin as [<-|[<-|[<-|[]]]]; reflexivity. }
  destruct w as [|c w'].
  - destruct Hin as [E|[E|[E|[]]]]; discriminate E.
  - exists c, w'. split; [reflexivity|].
    simpl in Hl. apply andb_true_iff in Hl. destruct Hl as [Hc Hw].
    apply Hall; [exact Hw|]. simpl. now apply lower_letter_is_word.
Qed.

Lemma str_map_length (f : ascii -> ascii) (s : string) :
  String.length (Str.map f s) = String.length s.
Proof. induction s as [|c s IH]; simpl; auto. Qed.

Lemma startsWith_nocase_own (w rest : string) :
  Str.forallb Char.is_lower (Str.toLowerCase w) = true ->
  Str.startsWith_nocase (Str.toLowerCase w) (w ++ rest)%string = true.
Proof.
  unfold Str.toLowerCase. induction w as [|c w IH]; simpl; [reflexivity|].
  intros H. apply andb_true_iff in H. destruct H as [Hc Hw].
  now rewrite (proj1 (lower_letter_nocase c Hc)), (IH Hw).
Qed.

Lemma symbol_not_letter (p c : ascii) (r : string) :
  Char.is_lower (Char.toLowerCase c) = true -> Char.is_lower p = false ->
  Char.toLowerCase p = p ->
  Re.symbol p (String c r) = None.
Proof.
  intros Hc Hp Hl. simpl. destruct (Ascii.eqb_spec p c) as [<-|]; [|reflexivity].
  rewrite Hl in Hc. congruence.
Qed.

(** A word that spells something else is not matched. *)
Lemma word_other (p : string) (prev : option ascii) (w rest : string) :
  Str.forallb Char.is_lower p = true ->
  String.length p <= String.length w ->
  Str.take (String.length p) (Str.toLowerCase w) <> p ->
  Re.word p prev (w ++ rest)%string = None.
Proof.
  intros Hp Hl Hne. apply word_none.
  destruct (Str.startsWith_nocase p (w ++ rest)%string) eqn:E; [|reflexivity].
  apply (startsWith_nocase_lower p _ Hp) in E. exfalso. apply Hne. rewrite <- E.
  clear -Hl. unfold Str.toLowerCase.
  revert w Hl. generalize (String.length p) as n.
  induction n as [|n IH]; intros [|c w] Hl; simpl in *; try reflexivity; try lia.
  f_equal. apply IH. lia.
Qed.

(** One of the three words, in any letter case, between two characters
    that are not word characters (or at an end of the input), is a
    separator. *)
Lemma separator_word (prev : option ascii) (w rest : string) :
  In (Str.toLowerCase w) separator_words ->
  Re.is_word_opt prev = false -> Re.is_word_opt (Str.head rest) = false ->
  Re.separator prev (w ++ rest)%string = Some (String.length w).
Proof.
  intros Hin Hprev Hnext.
  assert (Hlow : Str.forallb Char.is_lower (Str.toLowerCase w) = true).
  { destruct Hin as [<-|[<-|[<-|[]]]]; reflexivity. }
  destruct (separator_word_shape w Hin) as (c & w' & Ew & Hlast).
  assert (Hc : Char.is_lower (Char.toLowerCase c) = true).
  { subst w. simpl in Hlow. now apply andb_true_iff in Hlow. }
  assert (Hfound : Re.word (Str.toLowerCase w) prev (w ++ rest)%string
                   = Some (String.length w)).
  { rewrite <- (str_map_length Char.toLowerCase w).
    apply word_found.
    - subst w. simpl. unfold Re.word_boundary. rewrite Hprev. simpl.
      now rewrite (proj2 (lower_letter_nocase c Hc)).
    - now apply startsWith_nocase_own.
    - unfold Str.toLowerCase. rewrite str_map_length, take_append, drop_append.
      subst w. simpl. unfold Re.word_boundary. now rewrite Hlast, Hnext. }
  assert (Hsym : forall p, Char.is_lower p = false -> Char.toLowerCase p = p ->
                           Re.symbol p (w ++ rest)%string = None).
  { intros p Hp Hl. subst w. now apply symbol_not_letter. }
  assert (Hlen : String.length (Str.toLowerCase w) = String.length w)
    by apply str_map_length.
  unfold Re.separator, Re.orelse.
  rewrite !Hsym by reflexivity.
  destruct Hin as [E|[E|[E|[]]]]; rewrite <- E in Hfound, Hlen.
  - now rewrite Hfound.
  - rewrite (word_other "and"), Hfound;
      [reflexivity|reflexivity|simpl in *; lia|rewrite <- E; discriminate].
  - rewrite (word_other "and"), (word_other "plus"), Hfound;
      [reflexivity|reflexivity|simpl in *; lia|rewrite <- E; discriminate
      |reflexivity|simpl in *; lia|rewrite <- E; discriminate].
Qed.

(** ** Fragments *)




(** ** The literal separators of the voice parser *)
























(** ** Utterances made of separators and white space *)

Lemma space_not_word (c : ascii) : Char.is_space c = true -> Char.is_word c = false.
Proof. destruct c as [[] [] [] [] [] [] [] []]; (reflexivity || discriminate). Qed.

Lemma render_head_not_word (atoms : list atom) :
  List.forallb atom_ok atoms = true -> starts_with_word atoms = false ->
  Re.is_word_opt (Str.head (render atoms)) = false.
Proof.
  destruct atoms as [|[c|c|w] rest]; simpl; intros Hok Hw;
    try reflexivity; try discriminate.
  - apply andb_true_iff in Hok. destruct Hok as [Hc _]. now apply space_not_word.
  - apply andb_true_iff in Hok. destruct Hok as [Hc _].
    unfold separator_symbols in Hc. simpl in Hc.
    repeat (apply orb_true_iff in Hc; destruct Hc as [Hc|Hc];
            [apply Ascii.eqb_eq in Hc; subst c; reflexivity|]).
    discriminate.
Qed.

Lemma cons_head_spaces (c : ascii) (pieces : list string) :
  Char.is_space c = true ->
  Forall (fun p => Str.forallb Char.is_space p = true) pieces ->
  Forall (fun p => Str.forallb Char.is_space p = true) (Str.cons_head c pieces).
Proof.
  intros Hc H. destruct pieces as [|h t]; simpl.
  - repeat constructor. simpl. now rewrite Hc.
  - inversion H; subst. constructor; [simpl; now rewrite Hc|assumption].
Qed.

(** Split on the bare separators, such an utterance leaves nothing but
    white space. *)
Lemma split_separators_only (atoms : list atom) :
  List.forallb atom_ok atoms = true -> words_apart atoms = true ->
  forall prev,
    Re.is_word_opt prev = false \/ starts_with_word atoms = false ->
    Forall (fun p => Str.forallb Char.is_space p = true)
      (split_by Re.separator prev (render atoms)).
Proof.
  induction atoms as [|a rest IH]; intros Hok Hap prev Hprev.
  - simpl. rewrite split_by_nil. now repeat constructor.
  - cbn [List.forallb] in Hok. apply andb_true_iff in Hok.
    destruct Hok as [Ha Hok].
    cbn [words_apart] in Hap. apply andb_true_iff in Hap.
    destruct Hap as [Hadj Hap].
    specialize (IH Hok Hap).
    destruct a as [c|c|w]; cbn [render render_atom append].
    + simpl in Ha. rewrite split_by_cons, (separator_at_space _ _ _ Ha).
      apply cons_head_spaces; [exact Ha|].
      apply IH. left. simpl. now apply space_not_word.
    + cbn [atom_ok] in Ha.
      assert (Hin : In c separator_symbols).
      { apply existsb_exists in Ha. destruct Ha as (x & Hx & E).
        apply Ascii.eqb_eq in E. now subst. }
      rewrite split_by_cons, (separator_symbol _ _ _ Hin). cbn [Str.take Str.drop Str.last].
      constructor; [reflexivity|]. apply IH. left.
      destruct Hin as [<-|[<-|[<-|[]]]]; reflexivity.
    + cbn [atom_ok] in Ha.
      assert (Hin : In (Str.toLowerCase w) separator_words).
      { apply existsb_exists in Ha. destruct Ha as (x & Hx & E).
        apply String.eqb_eq in E. now rewrite E. }
      assert (Hrest : starts_with_word rest = false).
      { simpl in Hadj. now apply negb_true_iff in Hadj. }
      assert (Hp : Re.is_word_opt prev = false).
      { destruct Hprev as [H|H]; [exact H|discriminate H]. }
      pose proof (separator_word prev w (render rest) Hin Hp
                    (render_head_not_word rest Hok Hrest)) as Hsep.
      destruct (separator_word_shape w Hin) as (c & w' & -> & Hlast).
      cbn [append] in *. rewrite split_by_cons, Hsep. cbn [String.length].
      rewrite take_append, drop_append.
      constructor; [reflexivity|]. apply IH. right. exact Hrest.
Qed.

Lemma normalize_spaces (pieces : list string) :
  Forall (fun p => Str.forallb Char.is_space p = true) pieces ->
  normalize pieces = [].
Proof.
  unfold normalize. induction 1 as [|p l Hp _ IH]; simpl; [reflexivity|].
  now rewrite (trim_spaces p Hp).
Qed.

Lemma chat_split_parts_separators_only (atoms : list atom) :
  separators_only atoms = true -> Chat.split_parts (render atoms) = [].
Proof.
  unfold separators_only. intros H. apply andb_true_iff in H. destruct H as [Hok Hap].
  rewrite chat_split_parts_segments. unfold Spec.segments, split.
  apply normalize_spaces. apply split_separators_only; auto.
Qed.

(** ** Utterances without letters *)

Lemma forallb_impl (f g : ascii -> bool) (s : string) :
  (forall c, f c = true -> g c = true) ->
  Str.forallb f s = true -> Str.forallb g s = true.
Proof.
  intros Hfg. induction s as [|c s IH]; simpl; [reflexivity|].
  intros H. apply andb_true_iff in H. destruct H as [Hc Hs].
  now rewrite (Hfg c Hc), (IH Hs).
Qed.

Lemma forallb_map (f : ascii -> bool) (h : ascii -> ascii) (s : string) :
  Str.forallb f (Str.map h s) = Str.forallb (fun c => f (h c)) s.
Proof. induction s as [|c s IH]; simpl; [reflexivity|now rewrite IH]. Qed.

Lemma forallb_dropWhile (f g : ascii -> bool) (s : string) :
  Str.forallb f s = true -> Str.forallb f (Str.dropWhile g s) = true.
Proof.
  induction s as [|c s IH]; simpl; [reflexivity|].
  intros H. destruct (g c); [|exact H].
  apply andb_true_iff in H. now apply IH.
Qed.

Lemma forallb_trimEnd (f : ascii -> bool) (s : string) :
  Str.forallb f s = true -> Str.forallb f (Str.trimEnd s) = true.
Proof.
  induction s as [|c s IH]; simpl; [reflexivity|].
  intros H. apply andb_true_iff in H. destruct H as [Hc Hs].
  specialize (IH Hs).
  destruct (Str.trimEnd s).
  - destruct (Char.is_space c); simpl; [reflexivity|now rewrite Hc].
  - simpl in IH |- *. now rewrite Hc, IH.
Qed.

Lemma forallb_trim (f : ascii -> bool) (s : string) :
  Str.forallb f s = true -> Str.forallb f (Str.trim s) = true.
Proof.
  intros H. unfold Str.trim, Str.trimStart.
  now apply forallb_trimEnd, forallb_dropWhile.
Qed.

(** The pieces between runs of white space hold no white space. *)
Lemma split_spaces_pieces (f : ascii -> bool) (s : string) :
  Str.forallb f s = true ->
  Forall (fun p => Str.forallb (fun c => f c && negb (Char.is_space c)) p = true)
    (Str.split_spaces s).
Proof.
  induction s as [|c s IH]; intros H.
  - now repeat constructor.
  - simpl in H. apply andb_true_iff in H. destruct H as [Hc Hs].
    specialize (IH Hs). cbn [Str.split_spaces].
    destruct (Char.is_space c) eqn:Ec.
    + destruct s as [|c' s']; [now constructor|].
      destruct (Char.is_space c'); [exact IH|now constructor].
    + destruct (Str.split_spaces s) as [|h t]; simpl.
      * repeat constructor. simpl. now rewrite Hc, Ec.
      * inversion IH; subst. constructor; [|assumption].
        simpl. now rewrite Hc, Ec.
Qed.

Lemma voice_blank_letterless (c : ascii) :
  negb (Char.is_lower c || Char.is_upper c) = true ->
  Char.is_space
    (if Voice.keep (Char.toLowerCase c) then Char.toLowerCase c else " "%char) = true.
Proof.
  destruct c as [[] [] [] [] [] [] [] []]; vm_compute;
    first [reflexivity | intros H; discriminate H].
Qed.

Lemma chat_blank_letterless (c : ascii) :
  negb (Char.is_lower c || Char.is_upper c) = true ->
  (fun x => Char.is_space x || Char.is_digit x)
    (if Chat.keep (Char.toLowerCase c) then Char.toLowerCase c else " "%char) = true.
Proof.
  destruct c as [[] [] [] [] [] [] [] []]; vm_compute;
    first [reflexivity | intros H; discriminate H].
Qed.

Lemma forallb_never (p : string) :
  Str.forallb (fun c => Char.is_space c && negb (Char.is_space c)) p = true ->
  p = EmptyString.
Proof.
  destruct p as [|c p]; [reflexivity|]. simpl.
  destruct (Char.is_space c); discriminate.
Qed.

Lemma voice_tokenize_letterless (s : string) :
  no_letter s = true -> Voice.tokenize s = [].
Proof.
  intros H. unfold Voice.tokenize, tokenize_keeping.
  set (blanked := Str.map _ (Str.toLowerCase s)).
  assert (Hb : Str.forallb Char.is_space blanked = true).
  { unfold blanked, Str.toLowerCase. rewrite !forallb_map.
    eapply forallb_impl; [|exact H]. apply voice_blank_letterless. }
  apply split_spaces_pieces in Hb.
  induction Hb as [|p l Hp _ IH]; [reflexivity|].
  apply forallb_never in Hp. subst p. exact IH.
Qed.

Lemma digits_no_s (t : string) :
  Str.forallb Char.is_digit t = true -> Str.endsWith "s" t = false.
Proof.
  intros H. destruct (Str.endsWith "s" t) eqn:E; [|reflexivity].
  apply endsWith_iff in E. destruct E as [stem ->].
  rewrite forallb_append in H. apply andb_true_iff in H. destruct H as [_ H].
  discriminate H.
Qed.

(** Without letters the chat tokenizer yields numerals only. *)
Lemma chat_tokenize_letterless (s : string) :
  no_letter s = true ->
  Forall (fun t => all_digits t = true) (Chat.tokenize s).
Proof.
  intros H. unfold Chat.tokenize, tokenize_keeping.
  set (blanked := Str.map _ (Str.toLowerCase s)).
  assert (Hb : Str.forallb (fun x => Char.is_space x || Char.is_digit x) blanked = true).
  { unfold blanked, Str.toLowerCase. rewrite !forallb_map.
    eapply forallb_impl; [|exact H]. apply chat_blank_letterless. }
  apply split_spaces_pieces in Hb.
  induction Hb as [|p l Hp _ IH]; [constructor|].
  assert (Hd : Str.forallb Char.is_digit p = true).
  { eapply forallb_impl; [|exact Hp]. intros c Hc. simpl in Hc.
    destruct (Char.is_space c); [discriminate Hc|]. simpl in Hc.
    now rewrite andb_true_r in Hc. }
  cbn [List.map filter]. rewrite (singularize_other p (digits_no_s p Hd)).
  destruct (Str.nonempty p && negb (JSet.has p STOP_WORDS)) eqn:E; [|exact IH].
  constructor; [|exact IH].
  apply andb_true_iff in E. destruct E as [E _].
  unfold all_digits. now rewrite E, Hd.
Qed.

Lemma filter_all_digits (tokens : list string) :
  Forall (fun t => all_digits t = true) tokens ->
  filter (fun t => negb (all_digits t)) tokens = [].
Proof.
  induction 1 as [|t l Ht _ IH]; simpl; [reflexivity|]. now rewrite Ht.
Qed.

Lemma best_of_all_zero (l : list Scored) :
  Forall (fun x => score x = 0) l ->
  match best_of l with
  | Some b => (0 <? score b) = false
  | None => True
  end.
Proof.
  intros H. destruct (best_of l) as [b|] eqn:E; [|exact I].
  apply best_of_In in E. rewrite Forall_forall in H.
  now rewrite (H b E).
Qed.

Lemma voice_part_without_tokens (products : list Product) (part : string) :
  Voice.tokenize part = [] -> Voice.parse_part products part = None.
Proof.
  intros H. unfold Voice.parse_part. rewrite H.
  change (Voice.product_tokens (JSet.of_list [])) with (@nil string).
  assert (Hz : Forall (fun x => score x = 0) (Voice.score_products products [])).
  { unfold Voice.score_products. apply Forall_map, Forall_forall.
    intros p _. simpl. apply overlap_nil. }
  apply best_of_all_zero in Hz.
  destruct (best_of _) as [b|]; [now rewrite Hz|reflexivity].
Qed.

Lemma chat_part_without_tokens (products : list Product) (part : string) :
  Chat.product_tokens part = [] -> chat_match products part = None.
Proof.
  intros H. unfold chat_match. rewrite H.
  assert (Hz : Forall (fun x => score x = 0) (Chat.score_products products [])).
  { unfold Chat.score_products. apply Forall_map, Forall_forall.
    intros p _. simpl. apply overlap_nil. }
  apply best_of_all_zero in Hz.
  destruct (best_of _) as [b|]; [now rewrite Hz|reflexivity].
Qed.

Lemma flat_map_nil {A B : Type} (f : A -> list B) (l : list A) :
  Forall (fun x => f x = []) l -> flat_map f l = [].
Proof.
  induction 1 as [|x l Hx _ IH]; simpl; [reflexivity|]. now rewrite Hx, IH.
Qed.

Lemma voice_split_parts_chars (f : ascii -> bool) (command : string) :
  Str.forallb f command = true ->
  Forall (fun p => Str.forallb f p = true) (Voice.split_parts command).
Proof.
  intros H. unfold Voice.split_parts.
  assert (Hgen : forall seps parts,
             Forall (fun p => Str.forallb f p = true) parts ->
             Forall (fun p => Str.forallb f p = true)
               (fold_left
                  (fun parts sep => flat_map (split (Re.literal sep)) parts)
                  seps parts)).
  { induction seps as [|sep seps IH]; intros parts Hp; [exact Hp|].
    simpl. apply IH. apply Forall_flat_map.
    eapply Forall_impl; [|exact Hp]. intros p Hpf.
    now apply (split_by_chars _ f (String.length p)). }
  apply Hgen. now repeat constructor.
Qed.

Lemma normalize_chars (f : ascii -> bool) (pieces : list string) :
  Forall (fun p => Str.forallb f p = true) pieces ->
  Forall (fun p => Str.forallb f p = true) (normalize pieces).
Proof.
  intros H. unfold normalize. apply Forall_forall. intros x Hx.
  apply filter_In in Hx. destruct Hx as [Hx _].
  apply in_map_iff in Hx. destruct Hx as (y & <- & Hy).
  rewrite Forall_forall in H. now apply forallb_trim, H.
Qed.

Lemma voice_letterless (products : list Product) (utterance : string) :
  no_letter utterance = true -> Voice.parseMultipleItems products utterance = [].
Proof.
  intros H. rewrite voice_items_per_fragment. apply flat_map_nil.
  pose proof (normalize_chars _ _ (voice_split_parts_chars _ _ H)) as Hf.
  eapply Forall_impl; [|exact Hf]. intros part Hp. simpl.
  now rewrite (voice_part_without_tokens products part
                 (voice_tokenize_letterless part Hp)).
Qed.

Lemma chat_letterless (products : list Product) (utterance : string) :
  no_letter utterance = true ->
  Chat.items (Chat.parseMultipleItems products utterance) = [].
Proof.
  intros H. rewrite chat_items_eq.
  assert (Hm : chat_matches products (Chat.split_parts utterance) = []).
  { unfold chat_matches. apply flat_map_nil.
    assert (Hf : Forall (fun p => no_letter p = true) (Chat.split_parts utterance)).
    { apply (normalize_chars _ (split Re.chat_separator utterance)).
      now apply (split_by_chars _ _ (String.length utterance)). }
    eapply Forall_impl; [|exact Hf]. intros part Hp. simpl.
    rewrite (chat_part_without_tokens products part); [reflexivity|].
    unfold Chat.product_tokens.
    now rewrite (filter_all_digits _ (chat_tokenize_letterless part Hp)). }
  rewrite Hm. reflexivity.
Qed.

(** ** Empty results *)

Lemma voice_empty_catalog (utterance : string) :
  Voice.parseMultipleItems [] utterance = [].
Proof.
  rewrite voice_items_per_fragment. apply flat_map_nil, Forall_forall.
  intros part _. reflexivity.
Qed.

Lemma chat_empty_catalog (utterance : string) :
  Chat.items (Chat.parseMultipleItems [] utterance) = [].
Proof.
  rewrite chat_items_eq.
  replace (chat_matches [] (Chat.split_parts utterance)) with (@nil (Z * Chat.value));
    [reflexivity|].
  symmetry. apply flat_map_nil, Forall_forall. intros part _. reflexivity.
Qed.

(** Counterexample to C9 as stated: "with" is one of the separators of
    the claim, yet the voice parser, which splits on " with " between
    spaces only and does not count "with" as a stop word, matches the
    utterance "with" against the product "Tea with Milk". *)
Lemma C9_voice_matches_with :
  Voice.parseMultipleItems tea_with_milk "with"
  = [ {| Voice.productId := 1; Voice.quantity := 1 |} ]
  /\ Voice.parseMultipleItems tea_with_milk "with" <> [].
Proof.
  split; vm_compute; [reflexivity|discriminate].
Qed.

(** C9, amended.  Both parsers are total functions of the utterance
    and the catalog and raise no error.  Both return no item for the
    empty utterance, for every utterance when the catalog is empty, and
    for every utterance that holds no letter (white space, commas, "&",
    "+", digits and other signs).  The chat parser moreover returns no
    item and no unavailable fragment for every utterance made only of
    its separators, the words "and", "plus" and "with" in any letter
    case included, and white space.  The voice parser does not: a
    separator word that does not stand between two spaces stays in its
    fragment, and "plus" and "with" are not stop words. *)
Theorem C9_empty_results :
  (forall products,
      Voice.parseMultipleItems products "" = []
      /\ Chat.parseMultipleItems products ""
         = {| Chat.items := []; Chat.unavailable := [] |})
  /\ (forall utterance,
        Voice.parseMultipleItems [] utterance = []
        /\ Chat.items (Chat.parseMultipleItems [] utterance) = [])
  /\ (forall products utterance,
        no_letter utterance = true ->
        Voice.parseMultipleItems products utterance = []
        /\ Chat.items (Chat.parseMultipleItems products utterance) = [])
  /\ (forall products atoms,
        separators_only atoms = true ->
        Chat.parseMultipleItems products (render atoms)
        = {| Chat.items := []; Chat.unavailable := [] |}).
Proof.
  refine (conj _ (conj _ (conj _ _))).
  - intros products. split; reflexivity.
  - intros utterance. split; [apply voice_empty_catalog|apply chat_empty_catalog].
  - intros products utterance H. split; [now apply voice_letterless|now apply chat_letterless].
  - intros products atoms H. unfold Chat.parseMultipleItems.
    now rewrite (chat_split_parts_separators_only atoms H).
Qed.

Lemma C9_empty_results_witness :
  Voice.parseMultipleItems tea_with_milk " , & + 12 " = []
  /\ Chat.items (Chat.parseMultipleItems tea_with_milk " , & + 12 ") = []
  /\ Chat.parseMultipleItems tea_with_milk " ,And PLUS&with"
     = {| Chat.items := []; Chat.unavailable := [] |}.
Proof.
  destruct C9_empty_results as (_ & _ & Hletters & Hseps).
  destruct (Hletters tea_with_milk " , & + 12 " eq_refl) as [Hv Hc].
  refine (conj Hv (conj Hc _)).
  exact (Hseps tea_with_milk
           [Blank " "; Symbol ","; Word "And"; Blank " "; Word "PLUS";
            Symbol "&"; Word "with"] eq_refl).
Defined.

(** * Further properties *)

(** ** The voice handler *)

Lemma find_same_id (products : list Product) (p : Product) :
  In p products ->
  exists prod, find (fun q => Z.eqb (id q) (id p)) products = Some prod
               /\ id prod = id p /\ In prod products.
Proof.
  induction products as [|q l IH]; intros H; [contradiction|].
  simpl. destruct (Z.eqb_spec (id q) (id p)) as [E|E].
  - exists q. split; [reflexivity|]. split; [exact E|now left].
  - destruct H as [->|H]; [congruence|].
    destruct (IH H) as (prod & Hf & Hi & Hin). exists prod. auto.
Qed.

(** What the handler does once no fragment has found a product. *)
Lemma voice_handler_after_no_item (products : list Product) (command : string) :
  Voice.parseMultipleItems products command = [] ->
  (exists p,
      first_best (voice_query_score command) p products
      /\ 0 < voice_query_score command p
      /\ Voice.handleVoiceCommand products command = Voice.AddToCart (id p))
  \/ (Forall (fun p => voice_query_score command p = 0) products
      /\ Voice.handleVoiceCommand products command
         = if List.existsb (fun c => JSet.has c (voice_query_tokens command))
                Voice.categoryIntent
              && (JSet.size (voice_query_tokens command) <=? 2)
           then Voice.category_fallback products (voice_query_tokens command)
           else Voice.NotFound).
Proof.
  intros Hnone. unfold Voice.handleVoiceCommand. rewrite Hnone. cbn [firstn].
  fold (voice_query_tokens command).
  unfold Voice.score_products.
  pose proof (best_of_scores_zero (voice_query_score command) products) as Hz.
  change (fun p : Product =>
            {| s_productId := id p;
               score := overlap (JSet.of_list (Voice.tokenize (name p)))
                          (voice_query_tokens command) |})
    with (fun p : Product =>
            {| s_productId := id p; score := voice_query_score command p |}).
  destruct (best_of _) as [b|] eqn:Hb.
  - apply (best_of_scores (voice_query_score command)) in Hb.
    destruct Hb as (p & Hp & ->). cbn [score s_productId] in *.
    destruct (Nat.ltb_spec 0 (voice_query_score command p)) as [Hpos|Hzero].
    + left. exists p. repeat split; auto.
      destruct (find_same_id products p (first_best_In _ _ _ Hp))
        as (prod & -> & -> & _).
      reflexivity.
    + right. split; [apply Hz; lia|reflexivity].
  - right. subst products. split; [constructor|reflexivity].
Qed.

(** X1. Whatever the command, the voice handler only ever adds products
    of the catalog: a bulk call carries the first 15 items of the
    parser, at least one and at most 15, and a single add happens only
    when no fragment found a product. *)
Theorem voice_handler_cart_calls :
  forall (products : list Product) (command : string),
    match Voice.handleVoiceCommand products command with
    | Voice.BulkAdd items =>
        items = firstn 15 (Voice.parseMultipleItems products command)
        /\ 1 <= List.length items <= 15
        /\ Forall (fun item => in_catalog products (Voice.productId item)) items
    | Voice.AddToCart i =>
        Voice.parseMultipleItems products command = []
        /\ in_catalog products i
    | Voice.NotFound => Voice.parseMultipleItems products command = []
    end.
Proof.
  intros products command.
  destruct (Voice.parseMultipleItems products command) as [|item items] eqn:E.
  - destruct (voice_handler_after_no_item products command E)
      as [(p & Hp & _ & ->)|(_ & ->)].
    + split; [reflexivity|]. exists p. split; [|reflexivity].
      now apply first_best_In in Hp.
    + destruct (_ && _); [|reflexivity].
      unfold Voice.category_fallback.
      destruct (find _ Voice.categoryMap) as [[k v]|]; [|reflexivity].
      destruct (find _ products) as [prod|] eqn:Ef; [|reflexivity].
      split; [reflexivity|]. apply find_some in Ef. exists prod. tauto.
  - pose proof (voice_items_in_catalog products command) as Hin. rewrite E in Hin.
    unfold Voice.handleVoiceCommand. rewrite E.
    remember (firstn 15 (item :: items)) as l eqn:El.
    assert (Hl : l <> []) by (subst l; discriminate).
    destruct l as [|x l']; [contradiction|].
    split; [reflexivity|]. split.
    + split; [simpl; lia|]. rewrite El. apply firstn_le_length.
    + rewrite El. apply Forall_forall. intros y Hy.
      apply firstn_In_inv in Hy. rewrite Forall_forall in Hin. now apply Hin.
Qed.

Lemma category_keys_intended (tokens : JSet.t) :
  find (fun kv => JSet.has (fst kv) tokens) Voice.categoryMap <> None ->
  List.existsb (fun c => JSet.has c tokens) Voice.categoryIntent = true.
Proof.
  unfold Voice.categoryMap, Voice.categoryIntent. cbn [find List.existsb fst].
  destruct (JSet.has "vegetable" tokens); [reflexivity|].
  destruct (JSet.has "fruit" tokens); [reflexivity|].
  destruct (JSet.has "dairy" tokens); [reflexivity|].
  destruct (JSet.has "staple" tokens); [reflexivity|].
  intros H. now contradiction H.
Qed.

(** X2. When no fragment has found a product and no product name shares
    a token with the command, the outcome is decided by the number of
    tokens and the four keys of [categoryMap] alone: with more than two
    tokens nothing is added; otherwise the first key among vegetable,
    fruit, dairy, staple that is a token selects the first product
    whose lower-cased category is the mapped one.  The other words of
    [categoryIntent] (rice, flour, milk, ...) change nothing. *)
Theorem voice_category_fallback_rule :
  forall (products : list Product) (command : string),
    Voice.parseMultipleItems products command = [] ->
    Forall (fun p => voice_query_score command p = 0) products ->
    Voice.handleVoiceCommand products command
    = if JSet.size (voice_query_tokens command) <=? 2
      then Voice.category_fallback products (voice_query_tokens command)
      else Voice.NotFound.
Proof.
  intros products command Hnone Hzero.
  destruct (voice_handler_after_no_item products command Hnone)
    as [(p & Hp & Hpos & _)|(_ & ->)].
  - apply first_best_In in Hp. rewrite Forall_forall in Hzero.
    specialize (Hzero p Hp). lia.
  - destruct (JSet.size (voice_query_tokens command) <=? 2);
      [|now rewrite andb_false_r].
    rewrite andb_true_r.
    destruct (List.existsb _ Voice.categoryIntent) eqn:Ei; [reflexivity|].
    unfold Voice.category_fallback.
    destruct (find _ Voice.categoryMap) as [[k v]|] eqn:Ef; [|reflexivity].
    assert (Hne : find (fun kv => JSet.has (fst kv) (voice_query_tokens command))
                    Voice.categoryMap <> None) by (rewrite Ef; discriminate).
    apply category_keys_intended in Hne. congruence.
Qed.

Lemma voice_category_fallback_rule_witness :
  Voice.handleVoiceCommand
    [ {| id := 5; name := "Amul Butter"; category := "Dairy" |};
      {| id := 2; name := "Basmati"; category := "staples" |} ] "some dairy"
  = Voice.AddToCart 5.
Proof.
  rewrite voice_category_fallback_rule.
  - reflexivity.
  - reflexivity.
  - repeat constructor.
Defined.

(** X3. A product whose name shares a token with the whole command is
    added even when no fragment found it (a quantity word in a product
    name is cut from the fragment but not from the command): the
    handler then adds, once, the first product of the catalog with the
    highest score against the command. *)
Theorem voice_whole_command_match :
  forall (products : list Product) (command : string) (p : Product),
    Voice.parseMultipleItems products command = [] ->
    first_best (voice_query_score command) p products ->
    0 < voice_query_score command p ->
    Voice.handleVoiceCommand products command = Voice.AddToCart (id p).
Proof.
  intros products command p Hnone Hp Hpos.
  destruct (voice_handler_after_no_item products command Hnone)
    as [(q & Hq & _ & ->)|(Hzero & _)].
  - now rewrite (first_best_unique _ _ _ _ Hp Hq).
  - apply first_best_In in Hp. rewrite Forall_forall in Hzero.
    specialize (Hzero p Hp). lia.
Qed.

Lemma voice_whole_command_match_witness :
  Voice.handleVoiceCommand
    [ {| id := 9; name := "Seven Up"; category := "drinks" |} ] "seven"
  = Voice.AddToCart 9.
Proof.
  apply (voice_whole_command_match
           [ {| id := 9; name := "Seven Up"; category := "drinks" |} ] "seven"
           {| id := 9; name := "Seven Up"; category := "drinks" |}).
  - reflexivity.
  - exists [], []. repeat split; constructor.
  - vm_compute. lia.
Defined.

Lemma lower_keeps_letterless (s : string) :
  no_letter s = true -> no_letter (Str.toLowerCase s) = true.
Proof.
  unfold no_letter, Str.toLowerCase. rewrite forallb_map.
  apply forallb_impl. intros c.
  destruct c as [[] [] [] [] [] [] [] []]; vm_compute;
    first [reflexivity | intros H; discriminate H].
Qed.

Lemma voice_scores_without_tokens (products : list Product) (command : string) :
  voice_query_tokens command = [] ->
  Forall (fun p => voice_query_score command p = 0) products.
Proof.
  intros H. apply Forall_forall. intros p _.
  unfold voice_query_score. rewrite H. apply overlap_nil.
Qed.

(** X4. With an empty catalog, and for a command that holds no letter,
    the voice handler adds nothing. *)
Theorem voice_handler_nothing_to_add :
  (forall command, Voice.handleVoiceCommand [] command = Voice.NotFound)
  /\ (forall products command,
        no_letter command = true ->
        Voice.handleVoiceCommand products command = Voice.NotFound).
Proof.
  split.
  - intros command.
    destruct (voice_handler_after_no_item [] command (voice_empty_catalog command))
      as [(p & Hp & _)|(_ & ->)].
    + apply first_best_In in Hp. contradiction.
    + destruct (_ && _); [|reflexivity].
      unfold Voice.category_fallback.
      destruct (find _ Voice.categoryMap) as [[k v]|]; reflexivity.
  - intros products command H.
    assert (Ht : voice_query_tokens command = []).
    { unfold voice_query_tokens.
      now rewrite (voice_tokenize_letterless _ (lower_keeps_letterless _ H)). }
    destruct (voice_handler_after_no_item products command
                (voice_letterless products command H))
      as [(p & Hp & Hpos & _)|(_ & ->)].
    + apply first_best_In in Hp.
      pose proof (voice_scores_without_tokens products command Ht) as Hz.
      rewrite Forall_forall in Hz. specialize (Hz p Hp). lia.
    + rewrite Ht. reflexivity.
Qed.

Lemma voice_handler_nothing_to_add_witness :
  Voice.handleVoiceCommand tea_with_milk "12, 3 & 4 !" = Voice.NotFound.
Proof.
  apply (proj2 voice_handler_nothing_to_add). reflexivity.
Defined.

(** ** Recommendations *)

Lemma startsWith_prefix (p q s : string) :
  Str.startsWith (p ++ q)%string s = true -> Str.startsWith p s = true.
Proof.
  revert s; induction p as [|a p IH]; intros s H; [reflexivity|].
  destruct s as [|c s]; [discriminate H|].
  simpl in *. apply andb_true_iff in H. destruct H as [-> H]. now apply IH.
Qed.

Lemma occurs_prefix (p q s : string) :
  occurs (p ++ q)%string s = true -> occurs p s = true.
Proof.
  induction s as [|c s IH]; cbn [occurs]; intros H.
  - apply orb_true_iff in H. destruct H as [H|H]; [|discriminate H].
    now rewrite (startsWith_prefix _ _ _ H).
  - apply orb_true_iff in H. destruct H as [H|H].
    + now rewrite (startsWith_prefix _ _ _ H).
    + rewrite (IH H). apply orb_true_r.
Qed.

(** X5. The recommendations computed after an unsuccessful command are
    empty exactly when the lower-cased command holds neither "banana"
    nor "apple"; every label comes from the two fixed lists. *)
Theorem recommend_empty_iff :
  forall command : string,
    (Assistant.recommend command = []
     <-> occurs "banana" (Str.toLowerCase command) = false
         /\ occurs "apple" (Str.toLowerCase command) = false)
    /\ Forall (fun label => In label (Assistant.banana_labels ++ Assistant.apple_labels))
         (Assistant.recommend command).
Proof.
  intros command. unfold Assistant.recommend, Assistant.SUGGESTION_MAP.
  cbn [flat_map fst snd].
  pose proof (occurs_prefix "banana" "s" (Str.toLowerCase command)) as Hb.
  pose proof (occurs_prefix "apple" "s" (Str.toLowerCase command)) as Ha.
  change ("banana" ++ "s")%string with "bananas" in Hb.
  change ("apple" ++ "s")%string with "apples" in Ha.
  destruct (occurs "banana" _), (occurs "bananas" _),
    (occurs "apple" _), (occurs "apples" _);
    try (specialize (Hb eq_refl); discriminate Hb);
    try (specialize (Ha eq_refl); discriminate Ha);
    cbv [Assistant.banana_labels Assistant.apple_labels app];
    (split;
     [split;
      [intros H; first [discriminate H | split; reflexivity]
      |intros [H1 H2]; first [discriminate H1 | discriminate H2 | reflexivity]]
     |repeat (constructor; [simpl; tauto|]); constructor]).
Qed.

(** X6. A command that holds the plural "bananas" matches the keys
    "banana" and "bananas" both, so each banana label is recommended
    twice; likewise "apples" for the apple labels. *)
Theorem recommend_plural_twice :
  forall command : string,
    (occurs "bananas" (Str.toLowerCase command) = true ->
     Forall (fun label =>
               count_occ string_dec (Assistant.recommend command) label = 2)
       Assistant.banana_labels)
    /\ (occurs "apples" (Str.toLowerCase command) = true ->
        Forall (fun label =>
                  count_occ string_dec (Assistant.recommend command) label = 2)
          Assistant.apple_labels).
Proof.
  intros command. unfold Assistant.recommend, Assistant.SUGGESTION_MAP.
  cbn [flat_map fst snd].
  pose proof (occurs_prefix "banana" "s" (Str.toLowerCase command)) as Hb.
  pose proof (occurs_prefix "apple" "s" (Str.toLowerCase command)) as Ha.
  change ("banana" ++ "s")%string with "bananas" in Hb.
  change ("apple" ++ "s")%string with "apples" in Ha.
  destruct (occurs "banana" _), (occurs "bananas" _),
    (occurs "apple" _), (occurs "apples" _);
    try (specialize (Hb eq_refl); discriminate Hb);
    try (specialize (Ha eq_refl); discriminate Ha);
    cbv [Assistant.banana_labels Assistant.apple_labels app];
    (split; intros H; try discriminate H;
     repeat (constructor; [reflexivity|]); constructor).
Qed.

Lemma recommend_plural_twice_witness :
  count_occ string_dec (Assistant.recommend "Two Bananas please") "Kerala Banana" = 2
  /\ count_occ string_dec (Assistant.recommend "green apples") "Fuji Apple" = 2.
Proof.
  split.
  - pose proof (proj1 (recommend_plural_twice "Two Bananas please") eq_refl) as H.
    apply Forall_inv_tail, Forall_inv in H. exact H.
  - pose proof (proj2 (recommend_plural_twice "green apples") eq_refl) as H.
    apply Forall_inv_tail, Forall_inv in H. exact H.
Defined.

(** ** Suggested products *)

(** X7. A click on a suggestion only ever adds a product of the
    catalog, and it answers "Not available" only when no product name
    relates to the label and no product name holds "banana": with one
    banana product in the catalog every suggestion, apple labels
    included, adds something. *)
Theorem addSuggested_outcome :
  forall (products : list Product) (label : string),
    match Assistant.addSuggested products label with
    | Some i => in_catalog products i
    | None =>
        Forall (fun p => Assistant.suggestion_target label p = false
                         /\ occurs "banana" (Str.toLowerCase (name p)) = false)
          products
    end.
Proof.
  intros products label. unfold Assistant.addSuggested.
  destruct (find (Assistant.suggestion_target label) products) as [prod|] eqn:Et.
  - apply find_some in Et. exists prod. split; [apply Et|reflexivity].
  - destruct (find (fun p => occurs "banana" (Str.toLowerCase (name p))) products)
      as [prod|] eqn:Ef.
    + apply find_some in Ef. exists prod. split; [apply Ef|reflexivity].
    + apply Forall_forall. intros p Hp. split.
      * exact (find_none _ _ Et p Hp).
      * exact (find_none _ _ Ef p Hp).
Qed.

Lemma find_first {A : Type} (f : A -> bool) (before after : list A) (x : A) :
  Forall (fun y => f y = false) before -> f x = true ->
  find f (before ++ x :: after) = Some x.
Proof.
  intros Hb Hx. induction Hb as [|y l Hy _ IH]; simpl.
  - now rewrite Hx.
  - now rewrite Hy.
Qed.

(** X8. A suggestion adds the first product, in catalog order, that is a
    target of the label: a product whose lower-cased name holds the
    first word of the lower-cased label, or whose lower-cased name is
    held by the lower-cased label.  For a name that holds the first
    word, the rest of the label plays no part: "Kashmir Apple" adds a
    product named "Kashmir Banana" when no target comes before it. *)
Theorem addSuggested_first_word :
  forall (before after : list Product) (p : Product) (label : string),
    Forall (fun q => Assistant.suggestion_target label q = false) before ->
    occurs (Assistant.first_word (Str.toLowerCase label))
      (Str.toLowerCase (name p)) = true
    \/ occurs (Str.toLowerCase (name p)) (Str.toLowerCase label) = true ->
    Assistant.addSuggested (before ++ p :: after) label = Some (id p).
Proof.
  intros before after p label Hb Hp. unfold Assistant.addSuggested.
  rewrite (find_first (Assistant.suggestion_target label) before after p Hb);
    [reflexivity|].
  unfold Assistant.suggestion_target. apply orb_true_iff. exact Hp.
Qed.

Lemma addSuggested_first_word_witness :
  Assistant.addSuggested
    [ {| id := 2; name := "Kashmir Banana"; category := "fruits" |};
      {| id := 1; name := "Apple"; category := "fruits" |} ] "Kashmir Apple"
  = Some 2%Z
  /\ Assistant.addSuggested
       [ {| id := 1; name := "Apple"; category := "fruits" |};
         {| id := 2; name := "Kashmir Banana"; category := "fruits" |} ]
       "Kashmir Apple"
     = Some 1%Z.
Proof.
  split.
  - apply (addSuggested_first_word []
             [ {| id := 1; name := "Apple"; category := "fruits" |} ]
             {| id := 2; name := "Kashmir Banana"; category := "fruits" |}
             "Kashmir Apple").
    + constructor.
    + left. reflexivity.
  - apply (addSuggested_first_word []
             [ {| id := 2; name := "Kashmir Banana"; category := "fruits" |} ]
             {| id := 1; name := "Apple"; category := "fruits" |}
             "Kashmir Apple").
    + constructor.
    + right. reflexivity.
Defined.

(** ** The chat handler *)

Lemma dropWhile_empty (f : ascii -> bool) (s : string) :
  Str.dropWhile f s = EmptyString -> Str.forallb f s = true.
Proof.
  induction s as [|c s IH]; simpl; [reflexivity|].
  destruct (f c); [exact IH|discriminate].
Qed.

Lemma trim_empty (s : string) :
  Str.trim s = EmptyString -> Str.forallb Char.is_space s = true.
Proof.
  unfold Str.trim, Str.trimStart. intros H. apply dropWhile_empty.
  pose proof (dropWhile_head Char.is_space s) as Hh.
  destruct (Str.dropWhile Char.is_space s) as [|c r]; [reflexivity|].
  destruct (trimEnd_head c r Hh) as [t Et]. congruence.
Qed.

(** Input that is white space only has no fragment. *)
Lemma chat_blank_input (products : list Product) (input : string) :
  Str.trim input = EmptyString ->
  Chat.parseMultipleItems products input
  = {| Chat.items := []; Chat.unavailable := [] |}.
Proof.
  intros H. apply trim_empty in H.
  assert (Hp : Chat.split_parts input = []).
  { apply normalize_spaces.
    now apply (split_by_chars _ _ (String.length input)). }
  unfold Chat.parseMultipleItems. now rewrite Hp.
Qed.

(** X9. The chat handler calls the bulk add with the parser's items as
    they are, and only when there is at least one: the call carries
    between 1 and 15 items and, for a catalog whose ids are integers
    below 10^21 in absolute value, no two of them are for the same
    product and all of them are for products of the catalog.  Input of
    white space only is dropped before parsing, and parsing it would
    have given nothing. *)
Theorem chat_submit_bulk_call :
  forall (products : list Product) (chatInput : string),
    match Customer.handleChatSubmit products chatInput with
    | None =>
        Str.trim chatInput = EmptyString
        /\ Chat.parseMultipleItems products chatInput
           = {| Chat.items := []; Chat.unavailable := [] |}
    | Some r =>
        match Customer.bulk r with
        | Some items =>
            items = Chat.items (Chat.parseMultipleItems products chatInput)
            /\ 1 <= List.length items <= 15
            /\ (Forall (fun p => plain_id (id p)) products ->
                NoDup (List.map Chat.productId items)
                /\ Forall (fun item => in_catalog products (Chat.productId item))
                     items)
        | None => Chat.items (Chat.parseMultipleItems products chatInput) = []
        end
    end.
Proof.
  intros products chatInput. unfold Customer.handleChatSubmit.
  destruct (Str.trim chatInput) as [|c t] eqn:Et; cbn [Str.nonempty].
  - split; [reflexivity|]. now apply chat_blank_input.
  - cbn [Customer.bulk].
    pose proof (chat_items_NoDup products chatInput) as Hn.
    pose proof (chat_items_in_catalog products chatInput) as Hc.
    assert (Hl : List.length (Chat.items (Chat.parseMultipleItems products chatInput))
                 <= 15).
    { rewrite chat_items_eq. apply firstn_le_length. }
    destruct (Chat.items (Chat.parseMultipleItems products chatInput)) as [|x l];
      [reflexivity|].
    refine (conj eq_refl (conj _ _)); [cbn [List.length] in *; lia|].
    intros Hplain. split; [now apply Hn|now apply Hc].
Qed.

Lemma chat_submit_bulk_call_witness :
  let items :=
    Chat.items
      (Chat.parseMultipleItems (tomatoes_bananas "vegetables" "fruits")
         "3 bananas, 2 tomatoes and a banana") in
  Customer.handleChatSubmit (tomatoes_bananas "vegetables" "fruits")
    "3 bananas, 2 tomatoes and a banana"
  = Some {| Customer.bulk := Some items; Customer.not_available := None |}
  /\ NoDup (List.map Chat.productId items)
  /\ Forall
       (fun item =>
          in_catalog (tomatoes_bananas "vegetables" "fruits") (Chat.productId item))
       items.
Proof.
  intros items.
  assert (E : Customer.handleChatSubmit (tomatoes_bananas "vegetables" "fruits")
                "3 bananas, 2 tomatoes and a banana"
              = Some {| Customer.bulk := Some items;
                        Customer.not_available := None |})
    by (vm_compute; reflexivity).
  split; [exact E|].
  pose proof (chat_submit_bulk_call (tomatoes_bananas "vegetables" "fruits")
                "3 bananas, 2 tomatoes and a banana") as H.
  rewrite E in H. cbn [Customer.bulk] in H. destruct H as (_ & _ & H).
  apply H. repeat constructor; vm_compute; reflexivity.
Defined.

(** *** Order of the items *)

Lemma insert_keys_ascending (x : Z * Chat.value) (l : list (Z * Chat.value)) :
  ~ In (fst x) (List.map fst l) ->
  ascending (List.map fst l) ->
  ascending (List.map fst (insert (fun a b => (fst a - fst b)%Z) x l)).
Proof.
  induction l as [|y t IH]; intros Hn Ha; simpl.
  - split; [constructor|exact I].
  - simpl in Hn, Ha. destruct Ha as [Hy Ht].
    destruct (Z.ltb_spec 0 (fst x - fst y)) as [H|H]; simpl.
    + split.
      * apply Forall_forall. intros k Hk.
        apply in_map_iff in Hk. destruct Hk as (z & <- & Hz).
        apply insert_In in Hz. destruct Hz as [->|Hz]; [lia|].
        rewrite Forall_forall in Hy. apply Hy. now apply in_map.
      * apply IH; [tauto|exact Ht].
    + assert (Hlt : (fst x < fst y)%Z)
        by (assert (fst x <> fst y) by (intros E; apply Hn; left; now symmetry); lia).
      split; [|split; assumption].
      constructor; [exact Hlt|].
      eapply Forall_impl; [|exact Hy]. simpl; intros; lia.
Qed.

Lemma sort_keys_ascending (l : list (Z * Chat.value)) :
  NoDup (List.map fst l) ->
  ascending (List.map fst (sort (fun a b => (fst a - fst b)%Z) l)).
Proof.
  induction l as [|x t IH]; intros Hn; simpl; [exact I|].
  simpl in Hn. inversion Hn as [|? ? Hx Ht]; subst.
  apply insert_keys_ascending; [|now apply IH].
  intros H. apply Hx.
  apply in_map_iff in H. destruct H as (z & E & Hz).
  apply sort_In in Hz. rewrite <- E. now apply in_map.
Qed.

Lemma filter_all {A : Type} (f : A -> bool) (l : list A) :
  Forall (fun x => f x = true) l ->
  filter f l = l /\ filter (fun x => negb (f x)) l = [].
Proof.
  induction 1 as [|x t Hx _ [IH1 IH2]]; simpl; [auto|].
  rewrite Hx. simpl. now rewrite IH1, IH2.
Qed.

Lemma ascending_app (a b : list Z) :
  ascending (a ++ b) ->
  ascending a /\ forall x y, In x a -> In y b -> (x < y)%Z.
Proof.
  induction a as [|k a IH]; simpl; intros H.
  - split; [exact I|contradiction].
  - destruct H as [Hk Ha]. destruct (IH Ha) as [IH1 IH2].
    apply Forall_app in Hk. destruct Hk as [Hka Hkb].
    repeat split; auto.
    intros x y [<-|Hx] Hy; [|now apply IH2].
    rewrite Forall_forall in Hkb. now apply Hkb.
Qed.

Lemma index_plain (k : Z) : Chat.is_index k = true -> plain_id k.
Proof.
  unfold Chat.is_index, plain_id. intros H.
  apply andb_true_iff in H. destruct H as [H1 H2].
  apply Z.leb_le in H1. apply Z.ltb_lt in H2.
  assert (4294967295 < 10 ^ 21)%Z by reflexivity. lia.
Qed.

(** X10. When the product ids are array indices (integers from 0 to
    2^32 - 2, as database keys are), the items of the chat parser come
    in strictly ascending order of product id, not in the order of the
    fragments; and when more than 15 products are matched the 15
    smallest ids are kept: a matched product that is missing from the
    result has an id above all 15 that are returned. *)
Theorem chat_items_ascending_ids :
  forall (products : list Product) (input : string),
    Forall (fun p => Chat.is_index (id p) = true) products ->
    let ids :=
      List.map Chat.productId (Chat.items (Chat.parseMultipleItems products input))
    in
    ascending ids
    /\ forall part m,
         In part (Chat.split_parts input) ->
         chat_match products part = Some m ->
         In (fst m) ids
         \/ (List.length ids = 15 /\ Forall (fun i => (i < fst m)%Z) ids).
Proof.
  intros products input Hidx ids.
  set (ms := chat_matches products (Chat.split_parts input)).
  set (agg := aggregate [] ms).
  assert (Hkeys : Forall (fun kv => Chat.is_index (fst kv) = true) agg).
  { apply Forall_forall. intros kv Hkv.
    apply (in_map fst) in Hkv. apply (proj1 (aggregate_keys _ _ _)) in Hkv.
    destruct Hkv as [[]|Hkv].
    apply in_map_iff in Hkv. destruct Hkv as (m & Em & Hm).
    apply in_flat_map in Hm. destruct Hm as (part & _ & Hm).
    destruct (chat_match products part) as [m'|] eqn:E; simpl in Hm; [|contradiction].
    destruct Hm as [<-|[]].
    apply chat_match_some in E. destruct E as (p & Hp & _ & E & _).
    apply first_best_In in Hp. rewrite Forall_forall in Hidx.
    rewrite <- Em, E. now apply Hidx. }
  assert (Hent : Chat.entries agg = sort (fun a b => (fst a - fst b)%Z) agg).
  { unfold Chat.entries.
    destruct (filter_all (fun kv => Chat.is_index (fst kv)) agg Hkeys) as [-> ->].
    apply app_nil_r. }
  assert (Hids : ids = firstn 15 (List.map fst (Chat.entries agg))).
  { unfold ids. rewrite chat_items_eq. fold ms. fold agg.
    rewrite <- firstn_map, map_map. f_equal.
    apply map_ext_in. intros [k v] Hkv. simpl.
    apply key_id_plain, index_plain.
    apply (proj1 (entries_In _ _)) in Hkv.
    rewrite Forall_forall in Hkeys. exact (Hkeys _ Hkv). }
  assert (Hasc : ascending (List.map fst (Chat.entries agg))).
  { rewrite Hent. apply sort_keys_ascending, aggregate_NoDup. constructor. }
  rewrite <- (firstn_skipn 15 (List.map fst (Chat.entries agg))) in Hasc.
  rewrite <- Hids in Hasc. apply ascending_app in Hasc. destruct Hasc as [Ha Hlt].
  split; [exact Ha|].
  intros part m Hpart Hm.
  assert (Hin : In (fst m) (List.map fst (Chat.entries agg))).
  { assert (Hms : In m ms).
    { unfold ms, chat_matches. apply in_flat_map. exists part.
      split; [exact Hpart|]. rewrite Hm. now left. }
    assert (Hk : In (fst m) (List.map fst agg)).
    { apply aggregate_keys. right. now apply in_map. }
    apply in_map_iff in Hk. destruct Hk as (kv & E & Hkv).
    rewrite <- E. apply in_map. now apply entries_In. }
  rewrite <- (firstn_skipn 15 (List.map fst (Chat.entries agg))) in Hin.
  rewrite <- Hids in Hin. apply in_app_or in Hin. destruct Hin as [Hin|Hin];
    [now left|right].
  split.
  - rewrite Hids. apply firstn_length_le.
    destruct (Nat.le_gt_cases 15 (List.length (List.map fst (Chat.entries agg))))
      as [H|H]; [exact H|].
    rewrite skipn_all2 in Hin by lia. contradiction.
  - apply Forall_forall. intros i Hi. now apply Hlt.
Qed.

Lemma chat_items_ascending_ids_witness :
  List.map Chat.productId
    (Chat.items
       (Chat.parseMultipleItems (tomatoes_bananas "vegetables" "fruits")
          "3 bananas and 2 tomatoes"))
  = [1%Z; 3%Z]
  /\ ascending [1%Z; 3%Z].
Proof.
  split; [reflexivity|].
  change [1%Z; 3%Z]
    with (List.map Chat.productId
            (Chat.items
               (Chat.parseMultipleItems (tomatoes_bananas "vegetables" "fruits")
                  "3 bananas and 2 tomatoes"))).
  exact (proj1 (chat_items_ascending_ids
                  (tomatoes_bananas "vegetables" "fruits")
                  "3 bananas and 2 tomatoes"
                  ltac:(repeat constructor))).
Defined.

(** *** Every fragment is accounted for *)

Lemma chat_fragments_split (products : list Product) (parts : list string) :
  List.length
    (filter (fun part => match chat_match products part with
                         | Some _ => false | None => true end) parts)
  + List.length (chat_matches products parts)
  = List.length parts.
Proof.
  unfold chat_matches. induction parts as [|part parts IH]; simpl; [reflexivity|].
  destruct (chat_match products part); simpl; lia.
Qed.

Lemma filter_same_length {A : Type} (f : A -> bool) (l : list A) :
  List.length (filter f l) = List.length l -> filter f l = l.
Proof.
  induction l as [|x t IH]; simpl; [reflexivity|].
  destruct (f x); simpl; intros H.
  - f_equal. apply IH. lia.
  - pose proof (filter_length_le f t). lia.
Qed.

(** X11. The chat parser accounts for every fragment: a fragment either
    is reported in [unavailable] or is matched to a product, so the
    result has no item exactly when every fragment of the input is
    reported unavailable; and there are never more items than matched
    fragments. *)
Theorem chat_fragments_accounted :
  forall (products : list Product) (input : string),
    let r := Chat.parseMultipleItems products input in
    List.length (Chat.unavailable r)
    + List.length (chat_matches products (Chat.split_parts input))
    = List.length (Chat.split_parts input)
    /\ (Chat.items r = [] <-> Chat.unavailable r = Chat.split_parts input)
    /\ List.length (Chat.items r)
       <= List.length (chat_matches products (Chat.split_parts input)).
Proof.
  intros products input r. unfold r.
  rewrite chat_unavailable_eq, chat_items_eq.
  set (parts := Chat.split_parts input).
  set (ms := chat_matches products parts).
  pose proof (chat_fragments_split products parts) as Hsplit. fold ms in Hsplit.
  assert (Hkeys : forall k, In k (List.map fst (Chat.entries (aggregate [] ms)))
                            <-> In k (List.map fst ms)).
  { intros k. split; intros H.
    - apply in_map_iff in H. destruct H as (kv & E & H).
      apply (proj1 (entries_In _ _)) in H. apply (in_map fst) in H.
      apply (proj1 (aggregate_keys _ _ _)) in H. rewrite E in H.
      now destruct H as [[]|H].
    - assert (Hk : In k (List.map fst (aggregate [] ms)))
        by (apply aggregate_keys; now right).
      apply in_map_iff in Hk. destruct Hk as (kv & E & Hk).
      rewrite <- E. apply in_map. now apply entries_In. }
  split; [exact Hsplit|]. split.
  - split; intros H.
    + apply filter_same_length.
      destruct ms as [|m ms'] eqn:Ems; [simpl in Hsplit; lia|]. exfalso.
      assert (Hin : In (fst m) (List.map fst (Chat.entries (aggregate [] (m :: ms')))))
        by (apply Hkeys; now left).
      destruct (Chat.entries (aggregate [] (m :: ms'))); [contradiction|discriminate H].
    + rewrite H in Hsplit.
      destruct ms as [|m ms']; [reflexivity|simpl in Hsplit; lia].
  - rewrite length_firstn, length_map.
    assert (Hle : List.length (List.map fst (Chat.entries (aggregate [] ms)))
                  <= List.length (List.map fst ms)).
    { apply NoDup_incl_length.
      - apply entries_NoDup, aggregate_NoDup. constructor.
      - intros k Hk. now apply Hkeys. }
    rewrite !length_map in Hle. lia.
Qed.

(** X12. When nothing is matched, the "Some items not available" notice
    names the fragments of the input themselves, the first five of
    them; it is missing only when the input has no fragment at all. *)
Theorem chat_submit_nothing_matched :
  forall (products : list Product) (chatInput : string) (r : Customer.Submitted),
    Customer.handleChatSubmit products chatInput = Some r ->
    Customer.bulk r = None ->
    Customer.not_available r
    = match Chat.split_parts chatInput with
      | [] => None
      | _ :: _ =>
          Some (String.concat ", " (firstn 5 (Chat.split_parts chatInput)))
      end.
Proof.
  intros products chatInput r. unfold Customer.handleChatSubmit.
  destruct (Str.nonempty (Str.trim chatInput)); [|discriminate].
  intros E; injection E as <-. cbn [Customer.bulk Customer.not_available].
  destruct (Chat.items (Chat.parseMultipleItems products chatInput)) eqn:Ei;
    [intros _|discriminate].
  pose proof (chat_fragments_split products (Chat.split_parts chatInput)) as Hs.
  rewrite <- chat_unavailable_eq in Hs.
  assert (Hm : chat_matches products (Chat.split_parts chatInput) = []).
  { rewrite chat_items_eq in Ei.
    destruct (chat_matches products (Chat.split_parts chatInput)) as [|m ms] eqn:Em;
      [reflexivity|exfalso].
    assert (Hk : In (fst m) (List.map fst (aggregate [] (m :: ms))))
      by (apply aggregate_keys; right; now left).
    apply in_map_iff in Hk. destruct Hk as (kv & _ & Hk).
    apply (proj2 (entries_In _ _)) in Hk.
    destruct (Chat.entries (aggregate [] (m :: ms))); [contradiction|discriminate Ei]. }
  rewrite Hm in Hs. cbn [List.length] in Hs. rewrite Nat.add_0_r in Hs.
  rewrite chat_unavailable_eq in *.
  apply filter_same_length in Hs. now rewrite Hs.
Qed.

Lemma chat_submit_nothing_matched_witness :
  let r := {| Customer.bulk := None;
              Customer.not_available := Some "two kiwis, 3 mangoes" |} in
  Customer.handleChatSubmit tea_with_milk "two kiwis, 3 mangoes" = Some r
  /\ Customer.not_available r = Some "two kiwis, 3 mangoes".
Proof.
  intros r. split; [reflexivity|].
  rewrite (chat_submit_nothing_matched tea_with_milk "two kiwis, 3 mangoes" r
             eq_refl eq_refl).
  reflexivity.
Defined.

(** ** The cart *)

Lemma cart_get_set (c : Customer.cart) (k q k' : Z) :
  Customer.get (Customer.set c k q) k'
  = if Z.eqb k' k then Some q else Customer.get c k'.
Proof.
  induction c as [|[k0 q0] c IH]; simpl.
  - reflexivity.
  - destruct (Z.eqb_spec k k0) as [->|Hk]; simpl.
    + destruct (Z.eqb_spec k' k0); reflexivity.
    + rewrite IH. destruct (Z.eqb_spec k' k0) as [->|]; [|reflexivity].
      destruct (Z.eqb_spec k0 k); [congruence|reflexivity].
Qed.

Lemma cart_count_from (c : Customer.cart) (a : Z) :
  fold_left (fun total kv => (total + snd kv)%Z) c a
  = (a + Customer.getCartItemCount c)%Z.
Proof.
  unfold Customer.getCartItemCount. revert a.
  induction c as [|kv c IH]; intros a; simpl; [lia|].
  rewrite (IH (a + snd kv)%Z), (IH (snd kv)). lia.
Qed.

Lemma cart_count_cons (kv : Z * Z) (c : Customer.cart) :
  Customer.getCartItemCount (kv :: c)
  = (snd kv + Customer.getCartItemCount c)%Z.
Proof.
  unfold Customer.getCartItemCount at 1. simpl. apply cart_count_from.
Qed.

Lemma cart_count_set (c : Customer.cart) (k q : Z) :
  Customer.getCartItemCount (Customer.set c k q)
  = (Customer.getCartItemCount c - Customer.or_zero (Customer.get c k) + q)%Z.
Proof.
  induction c as [|[k0 q0] c IH]; cbn [Customer.set Customer.get].
  - rewrite cart_count_cons. simpl. unfold Customer.getCartItemCount. simpl. lia.
  - destruct (Z.eqb k k0); rewrite !cart_count_cons; simpl; [lia|].
    rewrite IH. lia.
Qed.

Lemma cart_count_delete (c : Customer.cart) (k : Z) :
  Customer.getCartItemCount (Customer.delete c k)
  = (Customer.getCartItemCount c - Customer.or_zero (Customer.get c k))%Z.
Proof.
  induction c as [|[k0 q0] c IH]; cbn [Customer.delete Customer.get].
  - simpl. unfold Customer.getCartItemCount. simpl. lia.
  - destruct (Z.eqb k k0); rewrite !cart_count_cons; simpl; [lia|].
    rewrite IH. lia.
Qed.

Lemma cart_set_keys (c : Customer.cart) (k q k' : Z) :
  In k' (List.map fst (Customer.set c k q))
  <-> k' = k \/ In k' (List.map fst c).
Proof.
  induction c as [|[k0 q0] c IH]; simpl.
  - intuition.
  - destruct (Z.eqb_spec k k0) as [->|Hk]; simpl; [intuition|].
    rewrite IH. intuition.
Qed.

Lemma cart_set_NoDup (c : Customer.cart) (k q : Z) :
  NoDup (List.map fst c) -> NoDup (List.map fst (Customer.set c k q)).
Proof.
  induction c as [|[k0 q0] c IH]; simpl; intros H.
  - constructor; [intros []|constructor].
  - inversion H as [|? ? Hn Hc]; subst.
    destruct (Z.eqb_spec k k0) as [->|Hk]; simpl.
    + now constructor.
    + constructor; [|now apply IH].
      rewrite cart_set_keys. intros [E|E]; [congruence|contradiction].
Qed.

Lemma cart_set_In (c : Customer.cart) (k q : Z) (kv : Z * Z) :
  In kv (Customer.set c k q) -> kv = (k, q) \/ In kv c.
Proof.
  induction c as [|[k0 q0] c IH]; simpl.
  - intros [<-|[]]. now left.
  - destruct (Z.eqb k k0); simpl; intros [<-|H]; auto.
    destruct (IH H); auto.
Qed.

Lemma cart_delete_In (c : Customer.cart) (k : Z) (kv : Z * Z) :
  In kv (Customer.delete c k) -> In kv c.
Proof.
  induction c as [|[k0 q0] c IH]; simpl; [tauto|].
  destruct (Z.eqb k k0); simpl; intuition.
Qed.

Lemma cart_delete_NoDup (c : Customer.cart) (k : Z) :
  NoDup (List.map fst c) -> NoDup (List.map fst (Customer.delete c k)).
Proof.
  induction c as [|[k0 q0] c IH]; simpl; intros H; [constructor|].
  inversion H as [|? ? Hn Hc]; subst.
  destruct (Z.eqb k k0); simpl; [exact Hc|].
  constructor; [|now apply IH].
  intros Hin. apply Hn.
  apply in_map_iff in Hin. destruct Hin as (kv & E & Hin).
  apply cart_delete_In in Hin. rewrite <- E. now apply in_map.
Qed.

Lemma cart_get_In (c : Customer.cart) (k q : Z) :
  Customer.get c k = Some q -> In (k, q) c.
Proof.
  induction c as [|[k0 q0] c IH]; simpl; [discriminate|].
  destruct (Z.eqb_spec k k0) as [->|]; [|auto].
  intros E; injection E as ->. now left.
Qed.

Lemma cart_ok_set (c : Customer.cart) (k q : Z) :
  cart_ok c -> (1 <= q)%Z -> cart_ok (Customer.set c k q).
Proof.
  intros [Hn Hq] H. split; [now apply cart_set_NoDup|].
  apply Forall_forall. intros kv Hkv.
  apply cart_set_In in Hkv. destruct Hkv as [->|Hkv]; [exact H|].
  rewrite Forall_forall in Hq. now apply Hq.
Qed.

Lemma cart_ok_delete (c : Customer.cart) (k : Z) :
  cart_ok c -> cart_ok (Customer.delete c k).
Proof.
  intros [Hn Hq]. split; [now apply cart_delete_NoDup|].
  apply Forall_forall. intros kv Hkv.
  apply cart_delete_In in Hkv. rewrite Forall_forall in Hq. now apply Hq.
Qed.

Lemma cart_ok_quantity (c : Customer.cart) (k : Z) :
  cart_ok c -> (0 <= Customer.or_zero (Customer.get c k))%Z.
Proof.
  intros [_ Hq]. destruct (Customer.get c k) as [q|] eqn:E; simpl; [|lia].
  apply cart_get_In in E. rewrite Forall_forall in Hq.
  specialize (Hq _ E). simpl in Hq. lia.
Qed.

(** X13. A cart that has one entry per product and no quantity below 1
    stays so through [addToCart] and [removeFromCart], and through
    [bulkAddToCart] as long as the server's results carry quantities of
    at least 1. *)
Theorem cart_stays_in_order :
  forall (c : Customer.cart),
    cart_ok c ->
    (forall productId, cart_ok (Customer.addToCart c productId))
    /\ (forall productId, cart_ok (Customer.removeFromCart c productId))
    /\ (forall results,
          Forall (fun r => (1 <= snd r)%Z) results ->
          cart_ok (Customer.bulkAddToCart c results)).
Proof.
  intros c Hc. refine (conj _ (conj _ _)).
  - intros productId. unfold Customer.addToCart.
    apply cart_ok_set; [exact Hc|].
    pose proof (cart_ok_quantity c productId Hc). lia.
  - intros productId. unfold Customer.removeFromCart.
    destruct (Customer.get c productId) as [q|]; [|now apply cart_ok_delete].
    destruct (Z.ltb_spec 1 q); [|now apply cart_ok_delete].
    apply cart_ok_set; [exact Hc|lia].
  - intros results. unfold Customer.bulkAddToCart. revert c Hc.
    induction results as [|r results IH]; intros c Hc Hr; simpl; [exact Hc|].
    inversion Hr as [|? ? H1 H2]; subst.
    apply IH; [|exact H2].
    apply cart_ok_set; [exact Hc|].
    pose proof (cart_ok_quantity c (fst r) Hc). lia.
Qed.

Lemma cart_stays_in_order_witness :
  cart_ok (Customer.removeFromCart [(4, 2); (7, 1)]%Z 7)
  /\ cart_ok (Customer.bulkAddToCart [(4, 2); (7, 1)]%Z [(7, 3); (9, 1); (9, 2)]%Z).
Proof.
  assert (H : cart_ok [(4, 2); (7, 1)]%Z).
  { split.
    - repeat constructor; simpl; intuition discriminate.
    - repeat constructor; simpl; lia. }
  destruct (cart_stays_in_order _ H) as (_ & Hr & Hb).
  split; [apply Hr|apply Hb].
  repeat constructor; simpl; lia.
Defined.

(** X14. The item count of the cart follows the updates: one more after
    [addToCart], the sum of the results' quantities more after
    [bulkAddToCart]; [removeFromCart] takes 1 off for a product held
    more than once, the whole quantity of an entry that holds 1 or
    less, and nothing for a product that is not in the cart. *)
Theorem cart_item_count :
  forall (c : Customer.cart),
    (forall productId,
        Customer.getCartItemCount (Customer.addToCart c productId)
        = (Customer.getCartItemCount c + 1)%Z)
    /\ (forall results,
          Customer.getCartItemCount (Customer.bulkAddToCart c results)
          = (Customer.getCartItemCount c + results_total results)%Z)
    /\ (forall productId,
          Customer.getCartItemCount (Customer.removeFromCart c productId)
          = match Customer.get c productId with
            | Some q =>
                if (1 <? q)%Z then (Customer.getCartItemCount c - 1)%Z
                else (Customer.getCartItemCount c - q)%Z
            | None => Customer.getCartItemCount c
            end).
Proof.
  intros c. refine (conj _ (conj _ _)).
  - intros productId. unfold Customer.addToCart. rewrite cart_count_set. lia.
  - intros results. unfold Customer.bulkAddToCart. revert c.
    induction results as [|r results IH]; intros c; simpl; [lia|].
    rewrite IH, cart_count_set. lia.
  - intros productId. unfold Customer.removeFromCart.
    destruct (Customer.get c productId) as [q|] eqn:E.
    + destruct (1 <? q)%Z.
      * rewrite cart_count_set, E. simpl. lia.
      * rewrite cart_count_delete, E. reflexivity.
    + rewrite cart_count_delete, E. simpl. lia.
Qed.

Lemma cart_set_absent (c : Customer.cart) (k q : Z) :
  Customer.get c k = None -> Customer.set c k q = c ++ [(k, q)].
Proof.
  induction c as [|[k0 q0] c IH]; simpl; [reflexivity|].
  destruct (Z.eqb k k0); [discriminate|]. intros H. now rewrite IH.
Qed.

Lemma cart_delete_last (c : Customer.cart) (k q : Z) :
  Customer.get c k = None -> Customer.delete (c ++ [(k, q)]) k = c.
Proof.
  induction c as [|[k0 q0] c IH]; simpl.
  - now rewrite Z.eqb_refl.
  - destruct (Z.eqb k k0); [discriminate|]. intros H. now rewrite IH.
Qed.

Lemma cart_set_back (c : Customer.cart) (k q a : Z) :
  Customer.get c k = Some q -> Customer.set (Customer.set c k a) k q = c.
Proof.
  induction c as [|[k0 q0] c IH]; simpl; [discriminate|].
  destruct (Z.eqb_spec k k0) as [->|Hk]; simpl.
  - intros E; injection E as ->. now rewrite Z.eqb_refl.
  - destruct (Z.eqb_spec k k0); [contradiction|]. intros H. now rewrite IH.
Qed.

Lemma cart_set_length (c : Customer.cart) (k q a : Z) :
  Customer.get c k = Some q ->
  List.length (Customer.set c k a) = List.length c.
Proof.
  induction c as [|[k0 q0] c IH]; simpl; [discriminate|].
  destruct (Z.eqb k k0); simpl; [reflexivity|]. intros H. now rewrite IH.
Qed.

Lemma cart_delete_length (c : Customer.cart) (k q : Z) :
  Customer.get c k = Some q ->
  S (List.length (Customer.delete c k)) = List.length c.
Proof.
  induction c as [|[k0 q0] c IH]; simpl; [discriminate|].
  destruct (Z.eqb k k0); simpl; [reflexivity|]. intros H. now rewrite IH.
Qed.

(** X15. Removing a product right after adding it gives the cart back
    exactly when the cart did not hold the product with a quantity
    below 1: from an entry of quantity 0 (or less) the two steps delete
    the entry. *)
Theorem cart_add_then_remove :
  forall (c : Customer.cart) (productId : Z),
    Customer.removeFromCart (Customer.addToCart c productId) productId = c
    <-> (forall q, Customer.get c productId = Some q -> (1 <= q)%Z).
Proof.
  intros c productId.
  unfold Customer.removeFromCart, Customer.addToCart.
  rewrite cart_get_set, Z.eqb_refl.
  destruct (Customer.get c productId) as [q|] eqn:E; cbn [Customer.or_zero].
  - destruct (Z.ltb_spec 1 (q + 1)) as [H|H].
    + replace (q + 1 - 1)%Z with q by lia.
      rewrite (cart_set_back _ _ _ _ E).
      split; [|reflexivity]. intros _ q' Eq. injection Eq as <-. lia.
    + split.
      * intros Hd. apply (f_equal (@List.length _)) in Hd.
        pose proof (cart_delete_length (Customer.set c productId (q + 1)) productId
                      (q + 1)) as Hl.
        rewrite cart_get_set, Z.eqb_refl in Hl. specialize (Hl eq_refl).
        rewrite (cart_set_length _ _ _ _ E) in Hl. lia.
      * intros Hq. specialize (Hq q eq_refl). lia.
  - simpl. rewrite (cart_set_absent _ _ _ E), (cart_delete_last _ _ _ E).
    split; [discriminate|reflexivity].
Qed.

Lemma cart_add_then_remove_witness :
  Customer.removeFromCart (Customer.addToCart [(4, 2); (7, 1)]%Z 7) 7
  = [(4, 2); (7, 1)]%Z.
Proof.
  apply (proj2 (cart_add_then_remove [(4, 2); (7, 1)]%Z 7)).
  intros q E. injection E as <-. lia.
Defined.

Lemma results_for_cons (k : Z) (r : Z * Z) (results : list (Z * Z)) :
  results_for k (r :: results)
  = ((if Z.eqb (fst r) k then snd r else 0) + results_for k results)%Z.
Proof.
  unfold results_for. simpl. destruct (Z.eqb (fst r) k); reflexivity.
Qed.

Lemma results_for_absent (k : Z) (results : list (Z * Z)) :
  List.existsb (fun r => Z.eqb (fst r) k) results = false ->
  results_for k results = 0%Z.
Proof.
  induction results as [|r results IH]; [reflexivity|].
  rewrite results_for_cons. simpl.
  destruct (Z.eqb (fst r) k); [discriminate|]. intros H. now rewrite IH.
Qed.

(** X16. After [bulkAddToCart] a product named by one of the results
    holds its former quantity (0 if it was not in the cart) plus the
    quantities of all the results that name it; every other product
    holds what it held. *)
Theorem cart_bulk_lookup :
  forall (results : list (Z * Z)) (c : Customer.cart) (k : Z),
    Customer.get (Customer.bulkAddToCart c results) k
    = if List.existsb (fun r => Z.eqb (fst r) k) results
      then Some (Customer.or_zero (Customer.get c k) + results_for k results)%Z
      else Customer.get c k.
Proof.
  unfold Customer.bulkAddToCart.
  induction results as [|r results IH]; intros c k; cbn [fold_left List.existsb];
    [reflexivity|].
  rewrite IH, cart_get_set, results_for_cons.
  rewrite (Z.eqb_sym k (fst r)).
  destruct (Z.eqb_spec (fst r) k) as [->|Hk]; cbn [orb Customer.or_zero].
  - destruct (List.existsb _ results) eqn:Ee; f_equal; [lia|].
    rewrite (results_for_absent _ _ Ee). lia.
  - destruct (List.existsb _ results); [f_equal; lia|reflexivity].
Qed.

(** ** The product list of the shop page *)

Lemma occurs_empty (s : string) : occurs "" s = true.
Proof. destruct s; reflexivity. Qed.

Lemma char_toLowerCase_idempotent (c : ascii) :
  Char.toLowerCase (Char.toLowerCase c) = Char.toLowerCase c.
Proof. destruct c as [[] [] [] [] [] [] [] []]; vm_compute; reflexivity. Qed.

Lemma toLowerCase_idempotent (s : string) :
  Str.toLowerCase (Str.toLowerCase s) = Str.toLowerCase s.
Proof.
  unfold Str.toLowerCase. induction s as [|c s IH]; simpl; [reflexivity|].
  now rewrite char_toLowerCase_idempotent, IH.
Qed.

Lemma filter_all_true {A : Type} (f : A -> bool) (l : list A) :
  (forall x, f x = true) -> filter f l = l.
Proof.
  intros H. induction l as [|x l IH]; simpl; [reflexivity|].
  now rewrite H, IH.
Qed.

(** X17. With the tab "All" and an empty search term the shop page lists
    the whole catalog; the search term is taken without regard to letter
    case; and under any other tab a product is listed only if its
    category is the lower-cased tab name, so that a product whose
    category holds an upper-case letter appears under "All" only. *)
Theorem filtered_products_tabs :
  forall (products : list Product),
    Customer.filteredProducts products "All" "" = products
    /\ (forall selectedCategory searchTerm,
          Customer.filteredProducts products selectedCategory
            (Str.toLowerCase searchTerm)
          = Customer.filteredProducts products selectedCategory searchTerm)
    /\ (forall selectedCategory searchTerm p,
          selectedCategory <> "All" ->
          In p (Customer.filteredProducts products selectedCategory searchTerm) ->
          category p = Str.toLowerCase selectedCategory
          /\ Str.toLowerCase (category p) = category p).
Proof.
  intros products. refine (conj _ (conj _ _)).
  - unfold Customer.filteredProducts. apply filter_all_true.
    intros p. cbn. apply occurs_empty.
  - intros selectedCategory searchTerm. unfold Customer.filteredProducts.
    now rewrite toLowerCase_idempotent.
  - intros selectedCategory searchTerm p Hsel Hin.
    unfold Customer.filteredProducts in Hin. apply filter_In in Hin.
    destruct Hin as [_ Hin]. apply andb_true_iff in Hin. destruct Hin as [Hc _].
    destruct (String.eqb_spec selectedCategory "All"); [contradiction|].
    simpl in Hc. apply String.eqb_eq in Hc.
    split; [exact Hc|]. rewrite Hc. apply toLowerCase_idempotent.
Qed.

Lemma filtered_products_tabs_witness :
  Customer.filteredProducts (tomatoes_bananas "Vegetables" "fruits") "Fruits" "BAN"
  = [ {| id := 3; name := "Sweet Bananas"; category := "fruits" |} ]
  /\ Customer.filteredProducts (tomatoes_bananas "Vegetables" "fruits")
       "Vegetables" ""
     = []
  /\ "fruits" = Str.toLowerCase "Fruits".
Proof.
  refine (conj eq_refl (conj eq_refl _)).
  apply (proj2 (proj2 (filtered_products_tabs
                         (tomatoes_bananas "Vegetables" "fruits")))
           "Fruits" "BAN"
           {| id := 3; name := "Sweet Bananas"; category := "fruits" |}).
  - discriminate.
  - left. reflexivity.
Defined.

Lemma find_head_filter {A : Type} (f g : A -> bool) (l : list A) :
  Forall (fun x => f x = g x) l -> find f l = List.head (filter g l).
Proof.
  induction 1 as [|x l Hx _ IH]; simpl; [reflexivity|].
  rewrite <- Hx. destruct (f x); [reflexivity|exact IH].
Qed.

(** X18. In a catalog whose categories are written in lower case, the
    product that the voice handler adds for a bare category word is the
    first product that the shop page lists under the matching tab:
    each key of [categoryMap] leads to one of the tabs Vegetables,
    Fruits, Dairy, Staples. *)
Theorem voice_category_first_of_tab :
  forall (products : list Product) (queryTokens : JSet.t),
    Forall (fun p => Str.toLowerCase (category p) = category p) products ->
    match find (fun kv => JSet.has (fst kv) queryTokens) Voice.categoryMap with
    | None => Voice.category_fallback products queryTokens = Voice.NotFound
    | Some (_, catKey) =>
        exists tab,
          In tab Customer.categories /\ tab <> "All"
          /\ Str.toLowerCase tab = catKey
          /\ Voice.category_fallback products queryTokens
             = match Customer.filteredProducts products tab "" with
               | p :: _ => Voice.AddToCart (id p)
               | [] => Voice.NotFound
               end
    end.
Proof.
  intros products queryTokens Hlow. unfold Voice.category_fallback.
  destruct (find _ Voice.categoryMap) as [[word catKey]|] eqn:Ef; [|reflexivity].
  assert (Htab : exists tab,
             In tab Customer.categories /\ tab <> "All"
             /\ Str.toLowerCase tab = catKey).
  { apply find_some in Ef. destruct Ef as [Hin _].
    unfold Voice.categoryMap in Hin. simpl in Hin.
    destruct Hin as [E|[E|[E|[E|[]]]]]; injection E as _ <-.
    - exists "Vegetables". unfold Customer.categories. simpl.
      refine (conj _ (conj _ eq_refl)); [tauto|discriminate].
    - exists "Fruits". unfold Customer.categories. simpl.
      refine (conj _ (conj _ eq_refl)); [tauto|discriminate].
    - exists "Dairy". unfold Customer.categories. simpl.
      refine (conj _ (conj _ eq_refl)); [tauto|discriminate].
    - exists "Staples". unfold Customer.categories. simpl.
      refine (conj _ (conj _ eq_refl)); [tauto|discriminate]. }
  destruct Htab as (tab & Hin & Hall & Hkey). exists tab.
  refine (conj Hin (conj Hall (conj Hkey _))).
  unfold Customer.filteredProducts.
  rewrite (find_head_filter _
             (fun product =>
                (String.eqb tab "All"
                 || String.eqb (category product) (Str.toLowerCase tab))
                && occurs (Str.toLowerCase "") (Str.toLowerCase (name product)))).
  - destruct (filter _ products); reflexivity.
  - eapply Forall_impl; [|exact Hlow]. intros p Hp. cbn beta.
    rewrite Hp, Hkey.
    destruct (String.eqb_spec tab "All"); [contradiction|].
    change (Str.toLowerCase "") with EmptyString.
    rewrite occurs_empty. simpl. now rewrite andb_true_r.
Qed.

Lemma voice_category_first_of_tab_witness :
  Voice.handleVoiceCommand
    [ {| id := 2; name := "Basmati"; category := "staples" |};
      {| id := 5; name := "Amul Butter"; category := "dairy" |};
      {| id := 6; name := "Paneer"; category := "dairy" |} ] "some dairy"
  = Voice.AddToCart 5
  /\ exists tab,
       In tab Customer.categories /\ tab <> "All"
       /\ Str.toLowerCase tab = "dairy"
       /\ Voice.category_fallback
            [ {| id := 2; name := "Basmati"; category := "staples" |};
              {| id := 5; name := "Amul Butter"; category := "dairy" |};
              {| id := 6; name := "Paneer"; category := "dairy" |} ]
            (voice_query_tokens "some dairy")
          = match Customer.filteredProducts
                    [ {| id := 2; name := "Basmati"; category := "staples" |};
                      {| id := 5; name := "Amul Butter"; category := "dairy" |};
                      {| id := 6; name := "Paneer"; category := "dairy" |} ]
                    tab "" with
            | p :: _ => Voice.AddToCart (id p)
            | [] => Voice.NotFound
            end.
Proof.
  split; [reflexivity|].
  exact (voice_category_first_of_tab
           [ {| id := 2; name := "Basmati"; category := "staples" |};
             {| id := 5; name := "Amul Butter"; category := "dairy" |};
             {| id := 6; name := "Paneer"; category := "dairy" |} ]
           (voice_query_tokens "some dairy")
           ltac:(repeat constructor)).
Defined.

(** ** The text box of the assistant *)

Lemma blank_no_letter (s : string) :
  Str.trim s = EmptyString -> no_letter s = true.
Proof.
  intros H. apply trim_empty in H. unfold no_letter.
  revert H. apply forallb_impl. intros c.
  destruct c as [[] [] [] [] [] [] [] []]; vm_compute;
    first [reflexivity | intros H; discriminate H].
Qed.

(** X19. A transcript goes before the typed text even when it is made of
    white space only: the submit handler then returns without a command,
    whatever was typed; and the same transcript handed to the voice
    handler by the microphone button, which has no such guard, adds
    nothing. *)
Theorem assistant_blank_transcript :
  forall (products : list Product) (transcript chatInput : string),
    transcript <> EmptyString ->
    Str.trim transcript = EmptyString ->
    Assistant.handleChatSubmit products transcript chatInput = None
    /\ Voice.handleVoiceCommand products transcript = Voice.NotFound.
Proof.
  intros products transcript chatInput Hne Hblank. split.
  - unfold Assistant.handleChatSubmit.
    destruct transcript; [contradiction|]. cbn [Str.nonempty].
    now rewrite Hblank.
  - pose proof (blank_no_letter _ Hblank) as H.
    assert (Ht : voice_query_tokens transcript = []).
    { unfold voice_query_tokens.
      now rewrite (voice_tokenize_letterless _ (lower_keeps_letterless _ H)). }
    destruct (voice_handler_after_no_item products transcript
                (voice_letterless products transcript H))
      as [(p & Hp & Hpos & _)|(_ & ->)].
    + apply first_best_In in Hp.
      pose proof (voice_scores_without_tokens products transcript Ht) as Hz.
      rewrite Forall_forall in Hz. specialize (Hz p Hp). lia.
    + rewrite Ht. reflexivity.
Qed.

Lemma assistant_blank_transcript_witness :
  Assistant.handleChatSubmit (only_apples 4 "fruits") " " "2 apples" = None
  /\ Voice.handleVoiceCommand (only_apples 4 "fruits") " " = Voice.NotFound.
Proof.
  apply (assistant_blank_transcript (only_apples 4 "fruits") " " "2 apples").
  - discriminate.
  - reflexivity.
Defined.

(** ** Relative times *)

Lemma div_ltb (a b q r : Z) :
  (0 < b)%Z -> r = (b * q)%Z -> ((a / b <? q) = (a <? r))%Z.
Proof.
  intros Hb ->. destruct (Z.ltb_spec a (b * q)) as [H|H].
  - apply Z.ltb_lt. now apply Z.div_lt_upper_bound.
  - apply Z.ltb_ge. now apply Z.div_le_lower_bound.
Qed.

Lemma toIST_valid (t : Z) :
  valid_date t -> DateUtils.toIST (Some t) = Some (t + DateUtils.IST_OFFSET)%Z.
Proof.
  unfold valid_date, DateUtils.toIST, DateUtils.newDate. cbn [option_map].
  intros H. apply Z.leb_le in H. now rewrite H.
Qed.

(** [relative] by the elapsed milliseconds: the floors of floors are
    floors, and the tests on minutes, hours and days are tests on the
    milliseconds. *)
Lemma relative_by_elapsed (now t : Z) :
  valid_date t ->
  let e := elapsed now t in
  let d := (e / day)%Z in
  DateUtils.relative now (Some t)
  = if (e <? 60000)%Z then "Just now"
    else if (e <? 3600000)%Z then DateUtils.ago (Some (e / 60000)%Z) "minute"
    else if (e <? day)%Z then DateUtils.ago (Some (e / 3600000)%Z) "hour"
    else if (d <? 7)%Z then DateUtils.ago (Some d) "day"
    else if (d <? 28)%Z then DateUtils.ago (Some (d / 7)%Z) "week"
    else if (d <? 360)%Z then DateUtils.ago (Some (d / 30)%Z) "month"
    else DateUtils.ago (Some (d / 365)%Z) "year".
Proof.
  intros Hv e d. unfold DateUtils.relative. rewrite (toIST_valid t Hv).
  cbn [option_map DateUtils.floor_div DateUtils.lt].
  fold (elapsed now t). fold e.
  assert (Em : (e / 1000 / 60 = e / 60000)%Z)
    by (rewrite Z.div_div by lia; reflexivity).
  assert (Eh : (e / 60000 / 60 = e / 3600000)%Z)
    by (rewrite Z.div_div by lia; reflexivity).
  assert (Ed : (e / 3600000 / 24 = d)%Z)
    by (rewrite Z.div_div by lia; reflexivity).
  rewrite Em, Eh, Ed.
  rewrite (div_ltb e 1000 60 60000), (div_ltb e 60000 60 3600000),
    (div_ltb e 3600000 24 day), (div_ltb d 7 4 28), (div_ltb d 30 12 360)
    by (unfold day; lia).
  reflexivity.
Qed.

Lemma ago_ends (n : DateUtils.time) (unit : string) :
  Str.endsWith " ago" (DateUtils.ago n unit) = true.
Proof.
  apply endsWith_iff. unfold DateUtils.ago.
  exists (DateUtils.show n ++ " " ++ unit
          ++ (if DateUtils.gt n 1 then "s" else ""))%string.
  now rewrite !append_assoc.
Qed.

Lemma ago_not_just_now (n : DateUtils.time) (unit : string) :
  DateUtils.ago n unit <> "Just now".
Proof.
  intros E. pose proof (ago_ends n unit) as H. rewrite E in H. discriminate H.
Qed.

(** X20. For a valid date, [relative] answers "Just now" exactly when the
    date is less than 5 hours 31 minutes before now (or after it): the
    date is moved 5 hours 30 minutes ahead before it is compared with
    the current time, which is not moved. *)
Theorem relative_just_now :
  forall (now t : Z),
    exact_now now -> valid_date t ->
    (DateUtils.relative now (Some t) = "Just now"
     <-> (now - t < 19860000)%Z).
Proof.
  intros now t _ Hv. rewrite (relative_by_elapsed now t Hv).
  unfold elapsed, DateUtils.IST_OFFSET.
  destruct (Z.ltb_spec (now - (t + 19800000)) 60000) as [H|H].
  - split; [lia|reflexivity].
  - split; [|lia]. intros E. exfalso.
    repeat match type of E with
           | (if ?b then _ else _) = _ => destruct b
           end; now apply ago_not_just_now in E.
Qed.

Lemma relative_just_now_witness :
  DateUtils.relative 1700019859999 (Some 1700000000000%Z) = "Just now"
  /\ DateUtils.relative 1700019860000 (Some 1700000000000%Z) = "1 minute ago".
Proof.
  split; [|reflexivity].
  apply (relative_just_now 1700019859999 1700000000000);
    unfold exact_now, valid_date, DateUtils.IST_OFFSET; simpl; lia.
Defined.

(** X21. The answer can be "0 month ago" or "0 year ago": the months
    start after 4 weeks, which is 28 days, but count 30 days each, and
    the years start after 12 months of 30 days but count 365 days. *)
Theorem relative_zero_units :
  forall (now t : Z),
    exact_now now -> valid_date t ->
    ((28 * day <= elapsed now t < 30 * day)%Z ->
     DateUtils.relative now (Some t) = "0 month ago")
    /\ ((360 * day <= elapsed now t < 365 * day)%Z ->
        DateUtils.relative now (Some t) = "0 year ago").
Proof.
  intros now t _ Hv. rewrite (relative_by_elapsed now t Hv).
  set (e := elapsed now t). unfold day. split; intros [Hlo Hhi].
  - assert (Hd : (28 <= e / 86400000 < 30)%Z).
    { split; [apply Z.div_le_lower_bound|apply Z.div_lt_upper_bound]; lia. }
    destruct (Z.ltb_spec e 60000); [lia|].
    destruct (Z.ltb_spec e 3600000); [lia|].
    destruct (Z.ltb_spec e 86400000); [lia|].
    destruct (Z.ltb_spec (e / 86400000) 7); [lia|].
    destruct (Z.ltb_spec (e / 86400000) 28); [lia|].
    destruct (Z.ltb_spec (e / 86400000) 360); [|lia].
    rewrite Z.div_small by lia. reflexivity.
  - assert (Hd : (360 <= e / 86400000 < 365)%Z).
    { split; [apply Z.div_le_lower_bound|apply Z.div_lt_upper_bound]; lia. }
    destruct (Z.ltb_spec e 60000); [lia|].
    destruct (Z.ltb_spec e 3600000); [lia|].
    destruct (Z.ltb_spec e 86400000); [lia|].
    destruct (Z.ltb_spec (e / 86400000) 7); [lia|].
    destruct (Z.ltb_spec (e / 86400000) 28); [lia|].
    destruct (Z.ltb_spec (e / 86400000) 360); [lia|].
    rewrite Z.div_small by lia. reflexivity.
Qed.

Lemma relative_zero_units_witness :
  DateUtils.relative 1702500000000 (Some 1700000000000%Z) = "0 month ago"
  /\ DateUtils.relative 1731200000000 (Some 1700000000000%Z) = "0 year ago".
Proof.
  split.
  - apply (relative_zero_units 1702500000000 1700000000000);
      unfold exact_now, valid_date, elapsed, day, DateUtils.IST_OFFSET; simpl; lia.
  - apply (relative_zero_units 1731200000000 1700000000000);
      unfold exact_now, valid_date, elapsed, day, DateUtils.IST_OFFSET; simpl; lia.
Defined.

(** X22. A date that is invalid, or that moving it 5 hours 30 minutes
    ahead puts beyond the range of dates, makes every comparison fail
    and the answer is "NaN year ago". *)
Theorem relative_invalid_date :
  forall (now : Z) (date : DateUtils.time),
    (DateUtils.toIST date = None
     <-> date = None \/ exists t, date = Some t /\ ~ valid_date t)
    /\ (DateUtils.toIST date = None ->
        DateUtils.relative now date = "NaN year ago").
Proof.
  intros now date. split.
  - unfold DateUtils.toIST, DateUtils.newDate, valid_date.
    destruct date as [t|]; cbn [option_map].
    + destruct (Z.leb_spec (Z.abs (t + DateUtils.IST_OFFSET)) 8640000000000000).
      * split; [discriminate|].
        intros [E|(t' & E & Hn)]; [discriminate|]. injection E as <-. lia.
      * split; [|reflexivity]. intros _. right. exists t. split; [reflexivity|lia].
    + split; [|reflexivity]. intros _. now left.
  - intros E. unfold DateUtils.relative. rewrite E. reflexivity.
Qed.

Lemma relative_invalid_date_witness :
  DateUtils.relative 1700000000000 (Some 8639999999999999%Z) = "NaN year ago".
Proof.
  apply (proj2 (relative_invalid_date 1700000000000 (Some 8639999999999999%Z))).
  reflexivity.
Defined.
